(** * k3k cluster controller: the reconciliation pass of [pkg/controller/cluster/cluster.go]

    A shallow embedding of [ClusterReconciler.Reconcile] and of the functions
    it runs ([reconcileCluster], [reconcile], [validate], [lookupServiceCIDR],
    [ensureAgent] and the other ensure steps), followed by the properties of
    the pass that the specification states.

    The Cluster object that the Go code mutates through a pointer is threaded
    as state; every call that leaves the file (resource client, discovery
    client, port allocator, other packages of the repository) is answered by
    an environment record and written to a log of calls, in order. *)

From Stdlib Require Import ZArith Ascii String List Lia DecimalString.
From stdpp Require Import base tactics option list strings gmap.

Local Open Scope string_scope.
Local Open Scope list_scope.

(** ** Go strings *)

Module GoStrings.

(** [strings.HasPrefix(s, prefix)] *)
Definition HasPrefix (s p : string) : bool := String.prefix p s.

(** [s[n:]] for [n <= len(s)] *)
Fixpoint drop_bytes (n : nat) (s : string) : string :=
  match n, s with
  | S n', String _ s' => drop_bytes n' s'
  | _, _ => s
  end.

(** [strings.TrimPrefix(s, prefix)] *)
Definition TrimPrefix (s p : string) : string :=
  if HasPrefix s p then drop_bytes (String.length p) s else s.

(** [m := strings.Index(s, sep)] followed by the two slices
    [s[:m]] and [s[m+len(sep):]] that [genSplit] takes;
    [None] when [Index] returns [-1]. *)
Fixpoint cut (sep s : string) : option (string * string) :=
  if HasPrefix s sep then Some ("", drop_bytes (String.length sep) s)
  else match s with
       | "" => None
       | String c s' =>
           match cut sep s' with
           | Some (b, a) => Some (String c b, a)
           | None => None
           end
       end.

(** The loop of [genSplit]: at most [n] cuts, the rest is the last field. *)
Fixpoint genSplit (n : nat) (s sep : string) : list string :=
  match n with
  | O => [s]
  | S n' =>
      match cut sep s with
      | None => [s]
      | Some (b, a) => b :: genSplit n' a sep
      end
  end.

(** [strings.Split(s, sep)] for a non-empty [sep] (the two separators of
    the file are constants).  Go bounds the loop by [Count(s, sep)], which
    is at most [len(s)]. *)
Definition Split (s sep : string) : list string :=
  genSplit (String.length s) s sep.

(** The six bytes of Go's [asciiSpace] table. *)
Definition asciiSpace (c : ascii) : bool :=
  match nat_of_ascii c with
  | 9 | 10 | 11 | 12 | 13 | 32 => true
  | _ => false
  end.

Fixpoint trimLeftAscii (s : string) : string :=
  match s with
  | String c s' => if asciiSpace c then trimLeftAscii s' else s
  | "" => ""
  end.

(** [strings.TrimSpace] on strings whose bytes are all below
    [utf8.RuneSelf]: the fast path of the Go function. *)
Definition TrimSpaceAscii (s : string) : string :=
  String.rev (trimLeftAscii (String.rev (trimLeftAscii s))).

End GoStrings.
Export GoStrings.

(** ** Go errors *)

(** Error values as the file can observe them: their text ([Error()]), the
    chain that [errors.Is] and [errors.As] walk ([Unwrap]), and the status
    reason of an API error. *)
Inductive error : Type :=
  | Sentinel (name text : string)       (* a package-level [errors.New] variable *)
  | StatusError (reason text : string)  (* an API status, with the reason [apierrors] reads *)
  | Opaque (text : string)              (* any other error of a collaborator *)
  | Wrapf (inner : error) (text : string) (* [fmt.Errorf] with one [%w] verb *)
  | Join1 (e : error)                   (* [errors.Join(nil, e)] *)
  | Join2 (e1 e2 : error).              (* [errors.Join(e1, e2)] *)

#[global] Instance error_eq_dec : EqDecision error.
Proof. solve_decision. Defined.

(** [err.Error()] *)
Fixpoint Error (e : error) : string :=
  match e with
  | Sentinel _ t | StatusError _ t | Opaque t | Wrapf _ t => t
  | Join1 e => Error e
  | Join2 e1 e2 => Error e1 +:+ String (ascii_of_nat 10) "" +:+ Error e2
  end.

(** [errors.Is(err, target)] *)
Fixpoint errors_Is (err target : error) : bool :=
  if decide (err = target) then true
  else match err with
       | Wrapf inner _ => errors_Is inner target
       | Join1 e => errors_Is e target
       | Join2 e1 e2 => errors_Is e1 target || errors_Is e2 target
       | _ => false
       end.

(** [errors.Join(err, e)] where [err] may be nil *)
Definition errors_Join (err : option error) (e : error) : error :=
  match err with
  | None => Join1 e
  | Some e1 => Join2 e1 e
  end.

(** The reason [apierrors.ReasonForError] finds with [errors.As]: the first
    API status on the chain, depth first. *)
Fixpoint asStatus (e : error) : option string :=
  match e with
  | StatusError r _ => Some r
  | Wrapf inner _ => asStatus inner
  | Join1 e => asStatus e
  | Join2 e1 e2 => match asStatus e1 with Some r => Some r | None => asStatus e2 end
  | _ => None
  end.

Definition IsNotFound (e : error) : bool :=
  bool_decide (asStatus e = Some "NotFound").

Definition IsAlreadyExists (e : error) : bool :=
  bool_decide (asStatus e = Some "AlreadyExists").

(** [ctrlruntimeclient.IgnoreNotFound] *)
Definition IgnoreNotFound (err : option error) : option error :=
  match err with
  | Some e => if IsNotFound e then None else Some e
  | None => None
  end.

(** ** The parts of the Go standard library the file calls but does not fix

    [strings.TrimSpace] (Unicode aware), the [%q] verb of [fmt], and
    [net.ParseCIDR] with the [String] method of [net.IPNet] are taken as an
    interface.
    The file discards the first result of [ParseCIDR]. *)
Class GoLib := {
  TrimSpace : string -> string;
  Quote : string -> string;
  IPNet : Type;
  ParseCIDR : string -> error + IPNet;
  IPNet_String : IPNet -> string;
}.

(** ** The resources of the API, with the fields the file reads or writes *)

Definition Time := Z.

(** [metav1.Condition]; [None] is the zero time. *)
Record Condition := {
  Condition_Type : string;
  Condition_Status : string;
  Condition_ObservedGeneration : Z;
  Condition_LastTransitionTime : option Time;
  Condition_Reason : string;
  Condition_Message : string;
}.

Record IngressConfig := { IngressClassName : string }.
Record ExposeConfig := { Ingress : option IngressConfig }.

Module Spec.
(** [v1alpha1.ClusterSpec]; [Mode] is a string type in Go. *)
Record t := {
  Version : string;
  Mode : string;
  ClusterCIDR : string;
  ServiceCIDR : string;
  MirrorHostNodes : bool;
  Expose : option ExposeConfig;
}.
End Spec.

Module Status.
(** [v1alpha1.ClusterStatus] *)
Record t := {
  Phase : string;
  Conditions : list Condition;
  PolicyName : string;
  HostVersion : string;
  ClusterCIDR : string;
  ServiceCIDR : string;
  KubeletPort : Z;
  WebhookPort : Z;
}.

Definition set_Phase (v : string) (s : t) : t :=
  {| Phase := v; Conditions := Conditions s; PolicyName := PolicyName s;
     HostVersion := HostVersion s; ClusterCIDR := ClusterCIDR s;
     ServiceCIDR := ServiceCIDR s; KubeletPort := KubeletPort s;
     WebhookPort := WebhookPort s |}.
Definition set_Conditions (v : list Condition) (s : t) : t :=
  {| Phase := Phase s; Conditions := v; PolicyName := PolicyName s;
     HostVersion := HostVersion s; ClusterCIDR := ClusterCIDR s;
     ServiceCIDR := ServiceCIDR s; KubeletPort := KubeletPort s;
     WebhookPort := WebhookPort s |}.
Definition set_PolicyName (v : string) (s : t) : t :=
  {| Phase := Phase s; Conditions := Conditions s; PolicyName := v;
     HostVersion := HostVersion s; ClusterCIDR := ClusterCIDR s;
     ServiceCIDR := ServiceCIDR s; KubeletPort := KubeletPort s;
     WebhookPort := WebhookPort s |}.
Definition set_HostVersion (v : string) (s : t) : t :=
  {| Phase := Phase s; Conditions := Conditions s; PolicyName := PolicyName s;
     HostVersion := v; ClusterCIDR := ClusterCIDR s;
     ServiceCIDR := ServiceCIDR s; KubeletPort := KubeletPort s;
     WebhookPort := WebhookPort s |}.
Definition set_ClusterCIDR (v : string) (s : t) : t :=
  {| Phase := Phase s; Conditions := Conditions s; PolicyName := PolicyName s;
     HostVersion := HostVersion s; ClusterCIDR := v;
     ServiceCIDR := ServiceCIDR s; KubeletPort := KubeletPort s;
     WebhookPort := WebhookPort s |}.
Definition set_ServiceCIDR (v : string) (s : t) : t :=
  {| Phase := Phase s; Conditions := Conditions s; PolicyName := PolicyName s;
     HostVersion := HostVersion s; ClusterCIDR := ClusterCIDR s;
     ServiceCIDR := v; KubeletPort := KubeletPort s;
     WebhookPort := WebhookPort s |}.
Definition set_KubeletPort (v : Z) (s : t) : t :=
  {| Phase := Phase s; Conditions := Conditions s; PolicyName := PolicyName s;
     HostVersion := HostVersion s; ClusterCIDR := ClusterCIDR s;
     ServiceCIDR := ServiceCIDR s; KubeletPort := v;
     WebhookPort := WebhookPort s |}.
Definition set_WebhookPort (v : Z) (s : t) : t :=
  {| Phase := Phase s; Conditions := Conditions s; PolicyName := PolicyName s;
     HostVersion := HostVersion s; ClusterCIDR := ClusterCIDR s;
     ServiceCIDR := ServiceCIDR s; KubeletPort := KubeletPort s;
     WebhookPort := v |}.
End Status.

(** [v1alpha1.Cluster]; [DeletionTimestamp = None] is the nil or zero time. *)
Record Cluster := {
  Name : string;
  Namespace : string;
  DeletionTimestamp : option Time;
  Finalizers : list string;
  Spec : Spec.t;
  Status : Status.t;
}.

Definition with_Status (f : Status.t -> Status.t) (c : Cluster) : Cluster :=
  {| Name := Name c; Namespace := Namespace c;
     DeletionTimestamp := DeletionTimestamp c; Finalizers := Finalizers c;
     Spec := Spec c; Status := f (Status c) |}.

Definition with_Finalizers (l : list string) (c : Cluster) : Cluster :=
  {| Name := Name c; Namespace := Namespace c;
     DeletionTimestamp := DeletionTimestamp c; Finalizers := l;
     Spec := Spec c; Status := Status c |}.

#[global] Instance Condition_eq_dec : EqDecision Condition.
Proof. solve_decision. Defined.
#[global] Instance IngressConfig_eq_dec : EqDecision IngressConfig.
Proof. solve_decision. Defined.
#[global] Instance ExposeConfig_eq_dec : EqDecision ExposeConfig.
Proof. solve_decision. Defined.
#[global] Instance Spec_eq_dec : EqDecision Spec.t.
Proof. solve_decision. Defined.
#[global] Instance Status_eq_dec : EqDecision Status.t.
Proof. solve_decision. Defined.

(** [v1.Namespace] *)
Record NamespaceObj := {
  Namespace_Name : string;
  Labels : gmap string string;
}.

(** [v1alpha1.VirtualClusterPolicy] *)
Record VirtualClusterPolicy := {
  Policy_Name : string;
  AllowedMode : string;
}.

(** [rbacv1.Subject] and [rbacv1.ClusterRoleBinding] *)
Record Subject := {
  Subject_Kind : string;
  Subject_Name : string;
  Subject_Namespace : string;
}.

#[global] Instance Subject_eq_dec : EqDecision Subject.
Proof. solve_decision. Defined.

Record ClusterRoleBinding := {
  Binding_Name : string;
  Subjects : list Subject;
}.

(** A [v1.Pod] as [lookupServiceCIDR] reads it: the arguments of
    [Spec.Containers[0]].  The API server admits no Pod without a container. *)
Record Pod := { Containers_0_Args : list string }.

(** [types.NamespacedName] *)
Record NamespacedName := { Key_Namespace : string; Key_Name : string }.

(** [reconcile.Result]; the delay is in nanoseconds, as [time.Duration]. *)
Record Result := { Requeue : bool; RequeueAfter : Z }.

Definition Second : Z := 1000000000.

(** ** Constants *)

(** Declared in [cluster.go]. *)
Definition clusterFinalizerName : string := "cluster.k3k.io/finalizer".
Definition ClusterInvalidName : string := "system".
Definition defaultVirtualClusterCIDR : string := "10.52.0.0/16".
Definition defaultVirtualServiceCIDR : string := "10.53.0.0/16".
Definition defaultSharedClusterCIDR : string := "10.42.0.0/16".
Definition defaultSharedServiceCIDR : string := "10.43.0.0/16".
Definition ErrClusterValidation : error :=
  Sentinel "ErrClusterValidation" "cluster validation error".

(** Modelled from the spec: [policy.PolicyNameLabelKey] is declared in package
    [policy], outside [cluster.go]; the spec calls it the policy-binding
    label, and the comment of [namespaceEventHandler] gives its value. *)
Definition PolicyNameLabelKey : string := "policy.k3k.io/policy-name".

(** Modelled from the spec: the mode constants [v1alpha1.SharedClusterMode],
    [v1alpha1.VirtualClusterMode] and [agent.VirtualNodeMode] are declared in
    packages [v1alpha1] and [agent]; the spec names the two modes [shared]
    and [virtual] and selects the agent variant by the Cluster mode. *)
Definition SharedClusterMode : string := "shared".
Definition VirtualClusterMode : string := "virtual".
Definition VirtualNodeMode : string := "virtual".

(** Modelled from the spec: the phase constants [v1alpha1.ClusterUnknown] and
    [v1alpha1.ClusterProvisioning] are declared in package [v1alpha1], and
    [ConditionReady] and [ReasonProvisioning] in [status.go]; the spec names
    the phases [Unknown] and [Provisioning], the [Ready] condition and the
    reason "Provisioning". *)
Definition ClusterUnknown : string := "Unknown".
Definition ClusterProvisioning : string := "Provisioning".
Definition ConditionReady : string := "Ready".
Definition ReasonProvisioning : string := "Provisioning".

(** Modelled from the spec: [bootstrap.ErrServerNotReady] is declared in
    package [bootstrap]; it is the "upstream server not ready" error kind of
    the spec.  Nothing below depends on the wording of its text. *)
Definition ErrServerNotReady : error :=
  Sentinel "bootstrap.ErrServerNotReady" "server not ready".

(** Constants of the Kubernetes API packages. *)
Definition ConditionFalse : string := "False".
Definition ServiceAccountKind : string := "ServiceAccount".
Definition NamespaceSystem : string := "kube-system".

(** ** Calls that leave the file *)

(** The agent that [ensureAgent] builds before it calls [EnsureResources]. *)
Inductive Agent : Type :=
  | VirtualAgent (serviceIP token : string)
  | SharedAgent (serviceIP token : string) (kubeletPort webhookPort : Z).

(** The objects that the file hands to the resource client. *)
Inductive Object : Type :=
  | FailingService                         (* Service default/fail, ClusterIP 1.1.1.1 *)
  | NetworkPolicy (name namespace : string) (except : list string)
  | ClusterService
  | InitServerConfig
  | ServerConfig
  | StatefulServerService
  | ServerStatefulSet
  | ServerIngress
  | Secret (name namespace key : string)
  | Binding (b : ClusterRoleBinding).

Inductive Call : Type :=
  (* resource client *)
  | GetCluster (key : NamespacedName)
  | GetNamespace (name : string)
  | GetVirtualClusterPolicy (name : string)
  | GetClusterRoleBinding (name : string)
  | ListPods (namespace : string) (labels : list (string * string))
  | Create (o : Object)
  | Delete (o : Object)
  | CreateOrUpdate (o : Object)
  | UpdateBinding (b : ClusterRoleBinding)
  | Update (c : Cluster)
  | StatusUpdate (c : Cluster)
  | SetControllerReference (o : Object)
  (* discovery client and port allocator *)
  | ServerVersion
  | AllocateKubeletPort
  | AllocateWebhookPort
  (* other files and packages of the repository *)
  | FinalizeCluster
  | Token
  | ServerConfigFor (init : bool) (serviceIP : string)
  | StatefulServer
  | EnsureResources (a : Agent)
  | GenerateBootstrapData (serviceIP token : string)
  | GenerateKubeconfig (serviceIP : string)
  | WriteKubeconfig.

(** What the world outside the file answers during one pass.  Calls that
    yield a value have a field of their own; [env_err] gives the error, or
    nil, of every call that yields nothing else.  An answer depends on the
    call and its arguments alone. *)
Record Env := {
  env_Now : Time;
  env_GetCluster : NamespacedName -> error + Cluster;
  env_GetNamespace : string -> error + NamespaceObj;
  env_GetVirtualClusterPolicy : string -> error + VirtualClusterPolicy;
  env_GetClusterRoleBinding : string -> error + ClusterRoleBinding;
  env_ListPods : error + list Pod;
  env_ServerVersion : error + string;            (* [GitVersion] *)
  env_ClusterService : error + string;           (* [Spec.ClusterIP] of the ensured Service *)
  env_AllocateKubeletPort : error + Z;
  env_AllocateWebhookPort : error + Z;
  env_finalizeCluster : Cluster -> error + Result;
  env_token : Cluster -> error + string;
  env_err : Call -> option error;
}.

(** Functions and names of the repository that [cluster.go] uses and that
    other files define: [updateStatus] (status.go) and the naming helpers of
    packages [controller] and [agent].  They are parameters of the
    development. *)
Class Repo := {
  updateStatus : Cluster -> option error -> Cluster;
  SafeConcatNameWithPrefix : list string -> string;
  SharedNodeAgentName : string;
}.

(** ** The monad of a pass

    A Go method on the reconciler that takes [cluster *v1alpha1.Cluster] and
    returns [(A, error)] is a function from the Cluster to its result, the
    Cluster as the method left it (also when it fails), and the calls it made. *)

Definition M (A : Type) : Type := Cluster -> (error + A) * Cluster * list Call.

Definition ret {A} (a : A) : M A := fun c => (inr a, c, []).

Definition fail {A} (e : error) : M A := fun c => (inl e, c, []).

Definition bind {A B} (m : M A) (k : A -> M B) : M B :=
  fun c =>
    match m c with
    | (inl e, c1, l1) => (inl e, c1, l1)
    | (inr a, c1, l1) =>
        match k a c1 with
        | (r, c2, l2) => (r, c2, l1 ++ l2)
        end
    end.

Notation "x <- m ;; k" := (bind m (fun x => k))
  (at level 100, m at next level, right associativity).
Notation "m ;;; k" := (bind m (fun _ => k))
  (at level 100, right associativity).

(** The Cluster behind the pointer. *)
Definition get : M Cluster := fun c => (inr c, c, []).
Definition put (c : Cluster) : M unit := fun _ => (inr tt, c, []).
Definition modify (f : Cluster -> Cluster) : M unit := fun c => (inr tt, f c, []).
Definition setStatus (f : Status.t -> Status.t) : M unit := modify (with_Status f).

(** [v, err := call(); if err != nil { return err }] *)
Definition call {A} (what : Call) (answer : error + A) : M A :=
  fun c => (answer, c, [what]).

(** [return err] *)
Definition returning (err : option error) : M unit :=
  match err with
  | Some e => fail e
  | None => ret tt
  end.

(** A call whose error the caller inspects before it decides. *)
Definition observe {A} (what : Call) (answer : A) : M A :=
  fun c => (inr answer, c, [what]).

(** [if err := call(); err != nil { return err }] *)
Definition call_ (E : Env) (what : Call) : M unit :=
  err <- observe what (env_err E what) ;; returning err.

(** [v, err = m()] without a return. *)
Definition attempt {A} (m : M A) : M (error + A) :=
  fun c => match m c with (r, c1, l) => (inr r, c1, l) end.

Definition result {A} (o : (error + A) * Cluster * list Call) : error + A := o.1.1.
Definition final {A} (o : (error + A) * Cluster * list Call) : Cluster := o.1.2.
Definition calls {A} (o : (error + A) * Cluster * list Call) : list Call := o.2.

Definition error_of {A} (r : error + A) : option error :=
  match r with
  | inl e => Some e
  | inr _ => None
  end.

(** ** Helpers of the Kubernetes packages *)

(** [meta.SetStatusCondition]: the first condition of the same type is
    updated in place, its transition time only when the status changes;
    a condition of a new type is appended. *)
Fixpoint SetStatusCondition (now : Time) (conditions : list Condition)
    (newCondition : Condition) : list Condition :=
  match conditions with
  | [] =>
      [ {| Condition_Type := Condition_Type newCondition;
           Condition_Status := Condition_Status newCondition;
           Condition_ObservedGeneration := Condition_ObservedGeneration newCondition;
           Condition_LastTransitionTime :=
             match Condition_LastTransitionTime newCondition with
             | Some t => Some t
             | None => Some now
             end;
           Condition_Reason := Condition_Reason newCondition;
           Condition_Message := Condition_Message newCondition |} ]
  | existing :: rest =>
      if decide (Condition_Type existing = Condition_Type newCondition) then
        {| Condition_Type := Condition_Type existing;
           Condition_Status := Condition_Status newCondition;
           Condition_ObservedGeneration := Condition_ObservedGeneration newCondition;
           Condition_LastTransitionTime :=
             if decide (Condition_Status existing = Condition_Status newCondition)
             then Condition_LastTransitionTime existing
             else match Condition_LastTransitionTime newCondition with
                  | Some t => Some t
                  | None => Some now
                  end;
           Condition_Reason := Condition_Reason newCondition;
           Condition_Message := Condition_Message newCondition |} :: rest
      else existing :: SetStatusCondition now rest newCondition
  end.

(** [meta.FindStatusCondition] *)
Fixpoint FindStatusCondition (conditions : list Condition) (conditionType : string)
    : option Condition :=
  match conditions with
  | [] => None
  | c :: rest =>
      if decide (Condition_Type c = conditionType) then Some c
      else FindStatusCondition rest conditionType
  end.

(** [controllerutil.AddFinalizer]: the object with the finalizer, and whether
    it had to be added. *)
Definition AddFinalizer (c : Cluster) (finalizer : string) : Cluster * bool :=
  if bool_decide (finalizer ∈ Finalizers c) then (c, false)
  else (with_Finalizers (Finalizers c ++ [finalizer]) c, true).

Section Controller.

Context {L : GoLib} {R : Repo} (E : Env).

(** *** [validate] *)
Definition validate (cluster : Cluster) (policy : VirtualClusterPolicy) : option error :=
  if decide (Name cluster = ClusterInvalidName) then
    Some (Wrapf ErrClusterValidation
            (Error ErrClusterValidation +:+ ": invalid cluster name "
             +:+ Quote (Name cluster)))
  else if decide (Spec.Mode (Spec cluster) ≠ AllowedMode policy) then
    Some (Wrapf ErrClusterValidation
            (Error ErrClusterValidation +:+ ": mode "
             +:+ Quote (Spec.Mode (Spec cluster))
             +:+ " is not allowed by the policy " +:+ Quote (Policy_Name policy)))
  else None.

(** *** [lookupServiceCIDR] *)

Definition rangeHint : string := "The range of valid IPs is ".
Definition rangeFlag : string := "--service-cluster-ip-range=".

(** The loop over the arguments of the kube-apiserver container: the first
    argument that carries the flag decides; an invalid value breaks out. *)
Fixpoint scanArgs (apiServerArgs : list string) : option string :=
  match apiServerArgs with
  | [] => None
  | arg :: rest =>
      if HasPrefix arg rangeFlag then
        match ParseCIDR (TrimPrefix arg rangeFlag) with
        | inl _ => None
        | inr serviceCIDRAddr => Some (IPNet_String serviceCIDRAddr)
        end
      else scanArgs rest
  end.

(** The second strategy, from the listing of the Pods on. *)
Definition lookupFromPods : M string :=
  listed <- observe (ListPods NamespaceSystem
                       [("component", "kube-apiserver"); ("tier", "control-plane")])
                    (env_ListPods E) ;;
  items <- match listed with
           | inl err => if IsNotFound err then ret [] else fail err
           | inr items => ret items
           end ;;
  match items with
  | apiServerPod :: _ =>
      match scanArgs (Containers_0_Args apiServerPod) with
      | Some serviceCIDR => ret serviceCIDR
      | None => ret ""
      end
  | [] => ret ""
  end.

Definition lookupServiceCIDR : M string :=
  created <- observe (Create FailingService) (env_err E (Create FailingService)) ;;
  match created with
  | Some err =>
      let splittedErrMsg := Split (Error err) rangeHint in
      if decide (1 < length splittedErrMsg)%nat then
        let serviceCIDR := TrimSpace (default "" (splittedErrMsg !! 1%nat)) in
        match ParseCIDR serviceCIDR with
        | inl err => fail err
        | inr serviceCIDRAddr => ret (IPNet_String serviceCIDRAddr)
        end
      else lookupFromPods
  | None => lookupFromPods
  end.

(** *** The ensure steps *)

Definition ensureNetworkPolicy : M unit :=
  cluster <- get ;;
  let networkPolicyName := SafeConcatNameWithPrefix [Name cluster] in
  if decide (Status.PolicyName (Status cluster) ≠ "") then
    err <- observe (Delete (NetworkPolicy networkPolicyName (Namespace cluster) []))
                   (env_err E (Delete (NetworkPolicy networkPolicyName (Namespace cluster) []))) ;;
    returning (IgnoreNotFound err)
  else
    call_ E (CreateOrUpdate
               (NetworkPolicy networkPolicyName (Namespace cluster)
                  [Status.ClusterCIDR (Status cluster)])).

(** The ClusterIP of the ensured Service. *)
Definition ensureClusterService : M string :=
  call (CreateOrUpdate ClusterService) (env_ClusterService E).

(** [Create] where an already existing object is not an error. *)
Definition createIfAbsent (o : Object) : M unit :=
  err <- observe (Create o) (env_err E (Create o)) ;;
  match err with
  | Some e => if IsAlreadyExists e then ret tt else fail e
  | None => ret tt
  end.

Definition createClusterConfigs (serviceIP : string) : M unit :=
  call_ E (ServerConfigFor true serviceIP) ;;;
  call_ E (SetControllerReference InitServerConfig) ;;;
  createIfAbsent InitServerConfig ;;;
  call_ E (ServerConfigFor false serviceIP) ;;;
  call_ E (SetControllerReference ServerConfig) ;;;
  createIfAbsent ServerConfig.

Definition server : M unit :=
  call_ E (SetControllerReference StatefulServerService) ;;;
  createIfAbsent StatefulServerService ;;;
  call_ E StatefulServer ;;;
  call_ E (CreateOrUpdate ServerStatefulSet).

Definition ensureAgent (serviceIP token : string) : M unit :=
  cluster <- get ;;
  agentEnsurer <-
    (if decide (Spec.Mode (Spec cluster) = VirtualNodeMode) then
       ret (VirtualAgent serviceIP token)
     else
       ports <-
         (if Spec.MirrorHostNodes (Spec cluster) then
            kubeletPort <- call AllocateKubeletPort (env_AllocateKubeletPort E) ;;
            setStatus (Status.set_KubeletPort kubeletPort) ;;;
            webhookPort <- call AllocateWebhookPort (env_AllocateWebhookPort E) ;;
            setStatus (Status.set_WebhookPort webhookPort) ;;;
            ret (kubeletPort, webhookPort)
          else ret (10250, 9443)%Z) ;;
       ret (SharedAgent serviceIP token ports.1 ports.2)) ;;
  call_ E (EnsureResources agentEnsurer).

Definition ensureIngress : M unit :=
  cluster <- get ;;
  match Spec.Expose (Spec cluster) with
  | Some {| Ingress := Some _ |} => call_ E (CreateOrUpdate ServerIngress)
  | _ =>
      err <- observe (Delete ServerIngress) (env_err E (Delete ServerIngress)) ;;
      returning (IgnoreNotFound err)
  end.

Definition ensureBootstrapSecret (serviceIP token : string) : M unit :=
  cluster <- get ;;
  call_ E (GenerateBootstrapData serviceIP token) ;;;
  call_ E (CreateOrUpdate
             (Secret (SafeConcatNameWithPrefix [Name cluster; "bootstrap"])
                     (Namespace cluster) "bootstrap")).

Definition ensureKubeconfigSecret (serviceIP : string) : M unit :=
  cluster <- get ;;
  call_ E (GenerateKubeconfig serviceIP) ;;;
  call_ E WriteKubeconfig ;;;
  call_ E (CreateOrUpdate
             (Secret (SafeConcatNameWithPrefix [Name cluster; "kubeconfig"])
                     (Namespace cluster) "kubeconfig.yaml")).

(** The body of the loop of [bindClusterRoles] for one role; [err] is the
    error joined so far. *)
Definition bindClusterRole (cluster : Cluster) (clusterRole : string)
    (err : option error) : M (option error) :=
  got <- observe (GetClusterRoleBinding clusterRole)
                 (env_GetClusterRoleBinding E clusterRole) ;;
  match got with
  | inl getErr =>
      ret (Some (errors_Join err
                   (Wrapf getErr ("failed to get or find " +:+ clusterRole
                                  +:+ " ClusterRoleBinding: " +:+ Error getErr))))
  | inr clusterRoleBinding =>
      let clusterSubject :=
        {| Subject_Kind := ServiceAccountKind;
           Subject_Name := SafeConcatNameWithPrefix [Name cluster; SharedNodeAgentName];
           Subject_Namespace := Namespace cluster |} in
      if bool_decide (clusterSubject ∈ Subjects clusterRoleBinding) then ret err
      else
        let updated :=
          {| Binding_Name := Binding_Name clusterRoleBinding;
             Subjects := Subjects clusterRoleBinding ++ [clusterSubject] |} in
        updateErr <- observe (UpdateBinding updated) (env_err E (UpdateBinding updated)) ;;
        match updateErr with
        | Some updateErr =>
            ret (Some (errors_Join err
                         (Wrapf updateErr ("failed to update " +:+ clusterRole
                                           +:+ " ClusterRoleBinding: " +:+ Error updateErr))))
        | None => ret err
        end
  end.

Fixpoint bindClusterRolesLoop (cluster : Cluster) (clusterRoles : list string)
    (err : option error) : M (option error) :=
  match clusterRoles with
  | [] => ret err
  | clusterRole :: rest =>
      err' <- bindClusterRole cluster clusterRole err ;;
      bindClusterRolesLoop cluster rest err'
  end.

Definition bindClusterRoles : M unit :=
  cluster <- get ;;
  err <- bindClusterRolesLoop cluster ["k3k-kubelet-node"; "k3k-priorityclass"] None ;;
  returning err.

(** *** [reconcile], the convergence procedure *)

(** Lines 229-246: the namespace, its policy label, the validation. *)
Definition reconcilePolicy : M unit :=
  cluster <- get ;;
  ns <- call (GetNamespace (Namespace cluster)) (env_GetNamespace E (Namespace cluster)) ;;
  let found := Labels ns !! PolicyNameLabelKey in
  let policyName := default "" found in
  setStatus (Status.set_PolicyName policyName) ;;;
  if bool_decide (is_Some found) && bool_decide (policyName ≠ "") then
    policy <- call (GetVirtualClusterPolicy policyName)
                   (env_GetVirtualClusterPolicy E policyName) ;;
    cluster <- get ;;
    returning (validate cluster policy)
  else ret tt.

(** Lines 248-261: the version of the host, resolved once. *)
Definition reconcileHostVersion : M unit :=
  cluster <- get ;;
  if bool_decide (Spec.Version (Spec cluster) = "")
     && bool_decide (Status.HostVersion (Status cluster) = "") then
    gitVersion <- call ServerVersion (env_ServerVersion E) ;;
    let k8sVersion := default "" (Split gitVersion "+" !! 0%nat) in
    setStatus (Status.set_HostVersion (k8sVersion +:+ "-k3s1"))
  else ret tt.

(** Lines 270-276. *)
Definition reconcileClusterCIDR : M unit :=
  cluster <- get ;;
  setStatus (Status.set_ClusterCIDR (Spec.ClusterCIDR (Spec cluster))) ;;;
  if decide (Spec.ClusterCIDR (Spec cluster) = "") then
    setStatus (Status.set_ClusterCIDR defaultVirtualClusterCIDR) ;;;
    if decide (Spec.Mode (Spec cluster) = SharedClusterMode) then
      setStatus (Status.set_ClusterCIDR defaultSharedClusterCIDR)
    else ret tt
  else ret tt.

(** Lines 278-299. *)
Definition reconcileServiceCIDR : M unit :=
  cluster <- get ;;
  setStatus (Status.set_ServiceCIDR (Spec.ServiceCIDR (Spec cluster))) ;;;
  if decide (Spec.ServiceCIDR (Spec cluster) = "") then
    (if decide (Spec.Mode (Spec cluster) = SharedClusterMode) then
       looked <- attempt lookupServiceCIDR ;;
       match looked with
       | inr serviceCIDR => setStatus (Status.set_ServiceCIDR serviceCIDR)
       | inl err =>
           setStatus (Status.set_ServiceCIDR "") ;;;
           setStatus (Status.set_ServiceCIDR defaultSharedServiceCIDR)
       end
     else ret tt) ;;;
    if decide (Spec.Mode (Spec cluster) = VirtualClusterMode) then
      setStatus (Status.set_ServiceCIDR defaultVirtualServiceCIDR)
    else ret tt
  else ret tt.

(** Lines 301-336: the owned resources, in order. *)
Definition reconcileResources (token : string) : M unit :=
  ensureNetworkPolicy ;;;
  serviceIP <- ensureClusterService ;;
  createClusterConfigs serviceIP ;;;
  server ;;;
  ensureAgent serviceIP token ;;;
  ensureIngress ;;;
  ensureBootstrapSecret serviceIP token ;;;
  ensureKubeconfigSecret serviceIP ;;;
  bindClusterRoles.

Definition reconcile : M unit :=
  reconcilePolicy ;;;
  reconcileHostVersion ;;;
  cluster <- get ;;
  token <- call Token (env_token E cluster) ;;
  reconcileClusterCIDR ;;;
  reconcileServiceCIDR ;;;
  reconcileResources token.

(** *** [reconcileCluster] *)
Definition reconcileCluster : M unit :=
  converged <- attempt reconcile ;;
  modify (fun cluster => updateStatus cluster (error_of converged)) ;;;
  returning (error_of converged).

(** *** [Reconcile]

    An error of the pass is [inl err], which stands for
    [reconcile.Result{}, err]; [inr r] stands for [r, nil]. *)

Definition emptyResult : Result := {| Requeue := false; RequeueAfter := 0 |}.

Definition provisioningCondition : Condition :=
  {| Condition_Type := ConditionReady;
     Condition_Status := ConditionFalse;
     Condition_ObservedGeneration := 0;
     Condition_LastTransitionTime := None;
     Condition_Reason := ReasonProvisioning;
     Condition_Message := "Cluster is being provisioned" |}.

(** Lines 189-216: from the snapshot on. *)
Definition reconcileAndPersist : M Result :=
  orig <- get ;;
  reconcilerErr <- attempt reconcileCluster ;;
  cluster <- get ;;
  (if decide (Status orig = Status cluster) then ret tt
   else call_ E (StatusUpdate cluster)) ;;;
  match reconcilerErr with
  | inl reconcilerErr =>
      if errors_Is reconcilerErr ErrServerNotReady then
        ret {| Requeue := false; RequeueAfter := Second * 10 |}
      else fail reconcilerErr
  | inr _ =>
      (if decide (Spec orig = Spec cluster) then ret tt
       else call_ E (Update cluster)) ;;;
      ret emptyResult
  end.

(** Lines 158-216: the pass on the Cluster that [Get] has loaded. *)
Definition reconcileLoaded : M Result :=
  cluster <- get ;;
  if bool_decide (is_Some (DeletionTimestamp cluster)) then
    call FinalizeCluster (env_finalizeCluster E cluster)
  else if bool_decide (Status.Phase (Status cluster) = "")
          || bool_decide (Status.Phase (Status cluster) = ClusterUnknown) then
    setStatus (Status.set_Phase ClusterProvisioning) ;;;
    setStatus (fun s => Status.set_Conditions
                 (SetStatusCondition (env_Now E) (Status.Conditions s)
                    provisioningCondition) s) ;;;
    cluster <- get ;;
    call_ E (StatusUpdate cluster) ;;;
    ret {| Requeue := true; RequeueAfter := 0 |}
  else
    match AddFinalizer cluster clusterFinalizerName with
    | (cluster, true) =>
        put cluster ;;;
        call_ E (Update cluster) ;;;
        ret {| Requeue := true; RequeueAfter := 0 |}
    | (_, false) => reconcileAndPersist
    end.

(** The zero value of [var cluster v1alpha1.Cluster]. *)
Definition zeroCluster : Cluster :=
  {| Name := ""; Namespace := ""; DeletionTimestamp := None; Finalizers := [];
     Spec := {| Spec.Version := ""; Spec.Mode := ""; Spec.ClusterCIDR := "";
                Spec.ServiceCIDR := ""; Spec.MirrorHostNodes := false;
                Spec.Expose := None |};
     Status := {| Status.Phase := ""; Status.Conditions := [];
                  Status.PolicyName := ""; Status.HostVersion := "";
                  Status.ClusterCIDR := ""; Status.ServiceCIDR := "";
                  Status.KubeletPort := 0; Status.WebhookPort := 0 |} |}.

Definition Reconcile (req : NamespacedName) : (error + Result) * Cluster * list Call :=
  (got <- observe (GetCluster req) (env_GetCluster E req) ;;
   match got with
   | inl err =>
       returning (IgnoreNotFound (Some err)) ;;;
       ret emptyResult
   | inr cluster =>
       put cluster ;;;
       reconcileLoaded
   end) zeroCluster.

End Controller.

(** ** An instance of the library interface for ASCII text and IPv4 ranges

    Used to run the pass on concrete inputs.  It agrees with Go on the
    inputs of the examples: ASCII text, names without quotes or backslashes,
    and dotted-quad IPv4 ranges ([net.ParseCIDR] splits at the first slash,
    reads four decimal octets without leading zeros and a decimal prefix
    length of at most 32, and masks the address). *)
Module IPv4.

(** A decimal number, as [dtoi] reads it when the whole text is digits. *)
Fixpoint decimal (s : string) (acc : N) : option N :=
  match s with
  | "" => Some acc
  | String c s' =>
      match Ascii.is_nat c with
      | Some d => decimal s' (acc * 10 + N.of_nat d)%N
      | None => None
      end
  end.

(** One field of [parseIPv4Fields]. *)
Definition octet (s : string) : option N :=
  match s with
  | "" => None
  | String c s' =>
      if bool_decide (c = "0"%char) && negb (bool_decide (s' = "")) then None
      else match decimal s 0 with
           | Some n => if (n <=? 255)%N then Some n else None
           | None => None
           end
  end.

(** The masked address and the prefix length. *)
Record net := { address : N; prefix : N }.

Definition ParseCIDR (s : string) : error + net :=
  let invalid := inl (Opaque ("invalid CIDR address: " +:+ s)) in
  match cut "/" s with
  | None => invalid
  | Some (addr, mask) =>
      match Split addr ".", mask with
      | [a; b; c; d], String _ _ =>
          match octet a, octet b, octet c, octet d, decimal mask 0 with
          | Some a, Some b, Some c, Some d, Some n =>
              if (n <=? 32)%N then
                let ip := (a * 16777216 + b * 65536 + c * 256 + d)%N in
                let m := (N.shiftl (N.ones n) (32 - n))%N in
                inr {| address := N.land ip m; prefix := n |}
              else invalid
          | _, _, _, _, _ => invalid
          end
      | _, _ => invalid
      end
  end.

Definition uitoa (n : N) : string :=
  DecimalString.NilZero.string_of_uint (N.to_uint n).

Definition String (n : net) : string :=
  let ip := address n in
  uitoa (N.shiftr ip 24) +:+ "." +:+ uitoa (N.land (N.shiftr ip 16) 255)
  +:+ "." +:+ uitoa (N.land (N.shiftr ip 8) 255) +:+ "." +:+ uitoa (N.land ip 255)
  +:+ "/" +:+ uitoa (prefix n).

Definition Quote (s : string) : string :=
  String.String (ascii_of_nat 34) (s +:+ String.String (ascii_of_nat 34) "").

Definition lib : GoLib :=
  Build_GoLib TrimSpaceAscii Quote net ParseCIDR String.

End IPv4.

(** ** Inputs on which the pass is run in the examples *)
Module Sample.

(** Modelled from the spec: [updateStatus] is defined in status.go, not in
    [cluster.go].  The spec says that the outcome of convergence is recorded
    in the phase and in the [Ready] condition, and names no other status
    field that it writes: a failure sets the [Ready] condition to false
    with the error text as message, a success sets the phase [Running] and
    the condition to true. *)
Definition updateStatus (now : Time) (cluster : Cluster) (err : option error) : Cluster :=
  match err with
  | Some e =>
      with_Status (fun s => Status.set_Conditions
        (SetStatusCondition now (Status.Conditions s)
           {| Condition_Type := ConditionReady; Condition_Status := ConditionFalse;
              Condition_ObservedGeneration := 0; Condition_LastTransitionTime := None;
              Condition_Reason := "Failed"; Condition_Message := Error e |}) s) cluster
  | None =>
      with_Status (fun s => Status.set_Phase "Running" (Status.set_Conditions
        (SetStatusCondition now (Status.Conditions s)
           {| Condition_Type := ConditionReady; Condition_Status := "True";
              Condition_ObservedGeneration := 0; Condition_LastTransitionTime := None;
              Condition_Reason := "Running"; Condition_Message := "" |}) s)) cluster
  end.

(** Names are joined with dashes after the prefix [k3k]. *)
Definition repo : Repo :=
  Build_Repo (updateStatus 100%Z)
    (fun parts => String.concat "-" ("k3k" :: parts)) "shared-agent".

Definition spec (mode : string) : Spec.t :=
  {| Spec.Version := ""; Spec.Mode := mode; Spec.ClusterCIDR := "";
     Spec.ServiceCIDR := ""; Spec.MirrorHostNodes := false; Spec.Expose := None |}.

Definition status : Status.t :=
  {| Status.Phase := ClusterProvisioning; Status.Conditions := [];
     Status.PolicyName := ""; Status.HostVersion := "";
     Status.ClusterCIDR := ""; Status.ServiceCIDR := "";
     Status.KubeletPort := 0; Status.WebhookPort := 0 |}.

(** A Cluster past the first two gates of [Reconcile]. *)
Definition cluster (name mode : string) : Cluster :=
  {| Name := name; Namespace := "ns1"; DeletionTimestamp := None;
     Finalizers := [clusterFinalizerName];
     Spec := spec mode; Status := status |}.

(** The same Cluster after an earlier pass has resolved the host version
    on a host that has been upgraded since. *)
Definition resolved (name mode : string) : Cluster :=
  with_Status (Status.set_HostVersion "v1.30.2-k3s1") (cluster name mode).

(** A Cluster whose ranges were recorded from the defaults, and whose spec
    now names other ranges. *)
Definition respecified : Cluster :=
  {| Name := "c1"; Namespace := "ns1"; DeletionTimestamp := None;
     Finalizers := [clusterFinalizerName];
     Spec := {| Spec.Version := ""; Spec.Mode := SharedClusterMode;
                Spec.ClusterCIDR := "10.99.0.0/16"; Spec.ServiceCIDR := "10.98.0.0/16";
                Spec.MirrorHostNodes := false; Spec.Expose := None |};
     Status := Status.set_ClusterCIDR "10.42.0.0/16"
                 (Status.set_ServiceCIDR "10.43.0.0/16" status) |}.

(** A Cluster whose recorded ranges are those of its spec. *)
Definition recorded : Cluster :=
  {| Name := "c1"; Namespace := "ns1"; DeletionTimestamp := None;
     Finalizers := [clusterFinalizerName];
     Spec := {| Spec.Version := ""; Spec.Mode := SharedClusterMode;
                Spec.ClusterCIDR := "10.99.0.0/16"; Spec.ServiceCIDR := "10.98.0.0/16";
                Spec.MirrorHostNodes := false; Spec.Expose := None |};
     Status := Status.set_ClusterCIDR "10.99.0.0/16"
                 (Status.set_ServiceCIDR "10.98.0.0/16" status) |}.

Definition key : NamespacedName := {| Key_Namespace := "ns1"; Key_Name := "c1" |}.

(** A host on which every call succeeds: the namespace carries no label,
    the host reports [v1.31.4+k3s1], the failing Service is rejected with
    the range hint, the role bindings exist and are empty. *)
Definition env (c : Cluster) : Env :=
  {| env_Now := 100%Z;
     env_GetCluster := fun _ => inr c;
     env_GetNamespace := fun n => inr {| Namespace_Name := n; Labels := ∅ |};
     env_GetVirtualClusterPolicy := fun n => inl (StatusError "NotFound" "not found");
     env_GetClusterRoleBinding := fun n => inr {| Binding_Name := n; Subjects := [] |};
     env_ListPods := inr [];
     env_ServerVersion := inr "v1.31.4+k3s1";
     env_ClusterService := inr "10.43.7.7";
     env_AllocateKubeletPort := inr 30001%Z;
     env_AllocateWebhookPort := inr 30002%Z;
     env_finalizeCluster := fun _ => inr {| Requeue := false; RequeueAfter := 0%Z |};
     env_token := fun _ => inr "token";
     env_err := fun what =>
       match what with
       | Create FailingService =>
           Some (StatusError "Invalid"
             "Service is invalid: spec.clusterIPs: Invalid value: 1.1.1.1: The range of valid IPs is 10.96.0.7/12")
       | _ => None
       end |}.

(** The same host, with the namespace bound to a policy that allows only
    the virtual mode. *)
Definition envPolicy (c : Cluster) : Env :=
  {| env_Now := env_Now (env c);
     env_GetCluster := env_GetCluster (env c);
     env_GetNamespace := fun n =>
       inr {| Namespace_Name := n; Labels := {[ PolicyNameLabelKey := "only-virtual" ]} |};
     env_GetVirtualClusterPolicy := fun n =>
       inr {| Policy_Name := n; AllowedMode := VirtualClusterMode |};
     env_GetClusterRoleBinding := env_GetClusterRoleBinding (env c);
     env_ListPods := env_ListPods (env c);
     env_ServerVersion := env_ServerVersion (env c);
     env_ClusterService := env_ClusterService (env c);
     env_AllocateKubeletPort := env_AllocateKubeletPort (env c);
     env_AllocateWebhookPort := env_AllocateWebhookPort (env c);
     env_finalizeCluster := env_finalizeCluster (env c);
     env_token := env_token (env c);
     env_err := env_err (env c) |}.

(** The host of [env] with another answer to the failing Service creation
    and another listing of the kube-apiserver Pods. *)
Definition withLookup (created : option error) (pods : error + list Pod) (E : Env) : Env :=
  {| env_Now := env_Now E;
     env_GetCluster := env_GetCluster E;
     env_GetNamespace := env_GetNamespace E;
     env_GetVirtualClusterPolicy := env_GetVirtualClusterPolicy E;
     env_GetClusterRoleBinding := env_GetClusterRoleBinding E;
     env_ListPods := pods;
     env_ServerVersion := env_ServerVersion E;
     env_ClusterService := env_ClusterService E;
     env_AllocateKubeletPort := env_AllocateKubeletPort E;
     env_AllocateWebhookPort := env_AllocateWebhookPort E;
     env_finalizeCluster := env_finalizeCluster E;
     env_token := env_token E;
     env_err := fun what =>
       match what with
       | Create FailingService => created
       | _ => env_err E what
       end |}.

(** The rejection carries no hint and no kube-apiserver Pod is listed. *)
Definition envNoHint (c : Cluster) : Env :=
  withLookup (Some (StatusError "Invalid" "Service is invalid: spec.clusterIPs: Invalid value"))
    (inr []) (env c).

(** The rejection carries a hint that is not a range. *)
Definition envBadHint (c : Cluster) : Env :=
  withLookup (Some (StatusError "Invalid" "The range of valid IPs is unknown"))
    (inr [ {| Containers_0_Args := ["--service-cluster-ip-range=10.96.0.0/12"] |} ])
    (env c).

(** The rejection carries no hint; the kube-apiserver Pod carries the flag. *)
Definition envPodFlag (c : Cluster) : Env :=
  withLookup (Some (StatusError "Invalid" "Service is invalid"))
    (inr [ {| Containers_0_Args :=
                ["kube-apiserver"; "--service-cluster-ip-range=10.96.0.7/12"] |} ])
    (env c).

(** The host of [env] with other answers to the calls that [pick] selects. *)
Definition withAnswers (pick : Call → option (option error)) (E : Env) : Env :=
  {| env_Now := env_Now E;
     env_GetCluster := env_GetCluster E;
     env_GetNamespace := env_GetNamespace E;
     env_GetVirtualClusterPolicy := env_GetVirtualClusterPolicy E;
     env_GetClusterRoleBinding := env_GetClusterRoleBinding E;
     env_ListPods := env_ListPods E;
     env_ServerVersion := env_ServerVersion E;
     env_ClusterService := env_ClusterService E;
     env_AllocateKubeletPort := env_AllocateKubeletPort E;
     env_AllocateWebhookPort := env_AllocateWebhookPort E;
     env_finalizeCluster := env_finalizeCluster E;
     env_token := env_token E;
     env_err := fun what =>
       match pick what with
       | Some answer => answer
       | None => env_err E what
       end |}.

(** The server of the virtual cluster is not up yet: the bootstrap data
    cannot be generated. *)
Definition envNotReady (c : Cluster) : Env :=
  withAnswers (fun what =>
                 match what with
                 | GenerateBootstrapData _ _ => Some (Some ErrServerNotReady)
                 | _ => None
                 end) (env c).

(** The same, and the API server rejects the status write. *)
Definition envNotReadyConflict (c : Cluster) : Env :=
  withAnswers (fun what =>
                 match what with
                 | GenerateBootstrapData _ _ => Some (Some ErrServerNotReady)
                 | StatusUpdate _ => Some (Some (StatusError "Conflict" "object has been modified"))
                 | _ => None
                 end) (env c).

(** A Cluster that has just been created. *)
Definition fresh : Cluster :=
  with_Status (Status.set_Phase "") (cluster "c1" SharedClusterMode).

(** A shared-mode Cluster that mirrors the host nodes, with no port yet. *)
Definition mirrored : Cluster :=
  {| Name := "c1"; Namespace := "ns1"; DeletionTimestamp := None;
     Finalizers := [clusterFinalizerName];
     Spec := {| Spec.Version := ""; Spec.Mode := SharedClusterMode;
                Spec.ClusterCIDR := ""; Spec.ServiceCIDR := "";
                Spec.MirrorHostNodes := true; Spec.Expose := None |};
     Status := status |}.

(** The host of [env] with other answers of the port allocator. *)
Definition withPorts (kubelet webhook : error + Z) (E : Env) : Env :=
  {| env_Now := env_Now E;
     env_GetCluster := env_GetCluster E;
     env_GetNamespace := env_GetNamespace E;
     env_GetVirtualClusterPolicy := env_GetVirtualClusterPolicy E;
     env_GetClusterRoleBinding := env_GetClusterRoleBinding E;
     env_ListPods := env_ListPods E;
     env_ServerVersion := env_ServerVersion E;
     env_ClusterService := env_ClusterService E;
     env_AllocateKubeletPort := kubelet;
     env_AllocateWebhookPort := webhook;
     env_finalizeCluster := env_finalizeCluster E;
     env_token := env_token E;
     env_err := env_err E |}.

(** The webhook range of the allocator is exhausted. *)
Definition envWebhookFull : Env :=
  withPorts (inr 30001%Z) (inl (Opaque "no free port in the webhook range")) (env mirrored).

(** The kubelet range of the allocator is exhausted. *)
Definition envKubeletFull : Env :=
  withPorts (inl (Opaque "no free port in the kubelet range")) (inr 30002%Z) (env mirrored).

End Sample.

(** ** Definitions that the statements use *)

(** The part of a string before its first [+]: what is left when the
    build-metadata suffix is stripped. *)
Fixpoint beforePlus (s : string) : string :=
  match s with
  | "" => ""
  | String c s' => if bool_decide (c = "+"%char) then "" else String c (beforePlus s')
  end.

(** [reconcile] from line 270 on: the two address ranges and the owned
    resources. *)
Definition reconcileFromRanges {L : GoLib} {R : Repo} (E : Env) (token : string) : M unit :=
  reconcileClusterCIDR ;;;
  reconcileServiceCIDR E ;;;
  reconcileResources E token.

(** [reconcile] from line 263 on: the token first. *)
Definition reconcileFromToken {L : GoLib} {R : Repo} (E : Env) : M unit :=
  cluster <- get ;;
  token <- call Token (env_token E cluster) ;;
  reconcileFromRanges E token.

(** [reconcile] up to line 266: the policy block, the host version, the
    token.  It returns the token exactly when the pass gets as far as the
    address ranges. *)
Definition reconcileToToken {L : GoLib} (E : Env) : M string :=
  reconcilePolicy E ;;;
  reconcileHostVersion E ;;;
  cluster <- get ;;
  call Token (env_token E cluster).

(** The cluster range that lines 270-276 compute from the spec. *)
Definition clusterCIDRFor (spec : Spec.t) : string :=
  if decide (Spec.ClusterCIDR spec = "") then
    if decide (Spec.Mode spec = SharedClusterMode) then defaultSharedClusterCIDR
    else defaultVirtualClusterCIDR
  else Spec.ClusterCIDR spec.

(** [m] leaves the Cluster related by [R] to the one it was given, whether it
    succeeds or fails. *)
Definition keeps {A} (R : relation Cluster) (m : M A) : Prop :=
  ∀ c, R c (final (m c)).

(** Every call that [m] makes satisfies [P]. *)
Definition emits {A} (P : Call → Prop) (m : M A) : Prop :=
  ∀ c, Forall P (calls (m c)).

(** The value of [f] is the same in both Clusters. *)
Definition unchanged {A} (f : Cluster → A) : relation Cluster :=
  λ c c', f c' = f c.

(** The part of the pass that makes a call. *)
Inductive Step : Type :=
  | EngineStep         (* [Reconcile] itself *)
  | PolicyStep         (* lines 229-246 *)
  | VersionStep        (* lines 248-261 *)
  | TokenStep          (* line 263 *)
  | ServiceCIDRStep    (* [lookupServiceCIDR] *)
  | ResourceStep.      (* lines 301-336 *)

Definition stepOf (what : Call) : Step :=
  match what with
  | GetCluster _ | Update _ | StatusUpdate _ | FinalizeCluster => EngineStep
  | GetNamespace _ | GetVirtualClusterPolicy _ => PolicyStep
  | ServerVersion => VersionStep
  | Token => TokenStep
  | Create FailingService | ListPods _ _ => ServiceCIDRStep
  | _ => ResourceStep
  end.

Definition isStatusUpdate (what : Call) : bool :=
  match what with StatusUpdate _ => true | _ => false end.

(** The text that follows the range hint in the error of the failing Service
    creation (up to a second hint), when that error carries the hint. *)
Definition rangeHintOf (E : Env) : option string :=
  match env_err E (Create FailingService) with
  | Some err => Split (Error err) rangeHint !! 1%nat
  | None => None
  end.

(** The value of the first argument that carries the range flag. *)
Fixpoint firstFlagged (apiServerArgs : list string) : option string :=
  match apiServerArgs with
  | [] => None
  | arg :: rest =>
      if HasPrefix arg rangeFlag then Some (TrimPrefix arg rangeFlag)
      else firstFlagged rest
  end.

(** The service range that lines 278-299 compute from the spec and from
    what [lookupServiceCIDR] returns on this host. *)
Definition serviceCIDRFor {L : GoLib} (E : Env) (spec : Spec.t) : string :=
  if decide (Spec.ServiceCIDR spec = "") then
    if decide (Spec.Mode spec = SharedClusterMode) then
      match result (lookupServiceCIDR E zeroCluster) with
      | inr serviceCIDR => serviceCIDR
      | inl _ => defaultSharedServiceCIDR
      end
    else if decide (Spec.Mode spec = VirtualClusterMode) then defaultVirtualServiceCIDR
    else ""
  else Spec.ServiceCIDR spec.

(** The calls that lines 278-299 make: those of the lookup, in shared mode
    when the spec names no service range. *)
Definition lookupCalls {L : GoLib} (E : Env) (spec : Spec.t) : list Call :=
  if decide (Spec.ServiceCIDR spec = "") then
    if decide (Spec.Mode spec = SharedClusterMode)
    then calls (lookupServiceCIDR E zeroCluster) else []
  else [].

(** The Cluster with the two ranges that a pass computes from its spec. *)
Definition withRanges {L : GoLib} (E : Env) (c : Cluster) : Cluster :=
  with_Status (Status.set_ServiceCIDR (serviceCIDRFor E (Spec c)))
    (with_Status (Status.set_ClusterCIDR (clusterCIDRFor (Spec c))) c).

(** The resource steps on either side of [ensureAgent]. *)
Definition resourcesBeforeAgent {R : Repo} (E : Env) : M string :=
  ensureNetworkPolicy E ;;;
  serviceIP <- ensureClusterService E ;;
  createClusterConfigs E serviceIP ;;;
  server E ;;;
  ret serviceIP.

Definition resourcesAfterAgent {R : Repo} (E : Env) (serviceIP token : string) : M unit :=
  ensureIngress E ;;;
  ensureBootstrapSecret E serviceIP token ;;;
  ensureKubeconfigSecret E serviceIP ;;;
  bindClusterRoles E.

(** The Cluster that [Get] loads gets past the three gates of [Reconcile]:
    it is not being deleted, its phase is set, it carries the finalizer. *)
Definition converging (c : Cluster) : Prop :=
  DeletionTimestamp c = None
  ∧ Status.Phase (Status c) ≠ ""
  ∧ Status.Phase (Status c) ≠ ClusterUnknown
  ∧ clusterFinalizerName ∈ Finalizers c.

(** The error, or nil, of the status write of lines 193-197; nil also when
    the status is the one of the snapshot and nothing is written. *)
Definition statusWrite (E : Env) (orig cluster : Cluster) : option error :=
  if decide (Status orig = Status cluster) then None
  else env_err E (StatusUpdate cluster).

(** The same for the write of the spec of lines 210-214. *)
Definition specWrite (E : Env) (orig cluster : Cluster) : option error :=
  if decide (Spec orig = Spec cluster) then None
  else env_err E (Update cluster).

(** The status that a pass has persisted: the one of its last status write
    that the API server accepted. *)
Fixpoint persistedStatus (E : Env) (l : list Call) : option Status.t :=
  match l with
  | [] => None
  | what :: rest =>
      match persistedStatus E rest with
      | Some s => Some s
      | None =>
          match what with
          | StatusUpdate c =>
              match env_err E what with
              | None => Some (Status c)
              | Some _ => None
              end
          | _ => None
          end
      end
  end.

Definition portsOf (s : Status.t) : Z * Z := (Status.KubeletPort s, Status.WebhookPort s).

(** Exactly one of the two ports is set. *)
Definition partialPorts (s : Status.t) : Prop :=
  (Status.KubeletPort s ≠ 0%Z ∧ Status.WebhookPort s = 0%Z)
  ∨ (Status.KubeletPort s = 0%Z ∧ Status.WebhookPort s ≠ 0%Z).

(** [updateStatus] leaves the two ports alone: the spec names the phase and
    the conditions as what records the outcome of a pass. *)
Definition keepsPorts (R : Repo) : Prop :=
  ∀ c err, portsOf (Status (updateStatus c err)) = portsOf (Status c).

(** [f] does not read the two port fields of the status. *)
Definition ignoresPorts {A} (f : Cluster → A) : Prop :=
  ∀ c v, f (with_Status (Status.set_KubeletPort v) c) = f c
         ∧ f (with_Status (Status.set_WebhookPort v) c) = f c.

From Stdlib Require Import Sorted.

(** ** Further definitions: the namespace handler and the writes of a pass *)

(** The object of a watch event: the type assertion of [e.ObjectOld] to a
    Namespace succeeds on a Namespace only. *)
Inductive EventObject : Type :=
  | NamespaceObject (ns : NamespaceObj)
  | OtherObject.

(** [client.ObjectKeyFromObject(&cluster)] *)
Definition ObjectKeyFromObject (c : Cluster) : NamespacedName :=
  {| Key_Namespace := Namespace c; Key_Name := Name c |}.

(** [namespaceEventHandler], [UpdateFunc]: the requests added to the queue,
    in order.  [listClusters] answers [r.Client.List] of the Clusters of a
    namespace.  A missing label reads as the empty string, as the index of a
    Go map does. *)
Definition UpdateFunc (listClusters : string → error + list Cluster)
    (ObjectOld ObjectNew : EventObject) : list NamespacedName :=
  match ObjectOld, ObjectNew with
  | NamespaceObject oldNs, NamespaceObject newNs =>
      let oldVCPName := default "" (Labels oldNs !! PolicyNameLabelKey) in
      let newVCPName := default "" (Labels newNs !! PolicyNameLabelKey) in
      if decide (oldVCPName = newVCPName) then []
      else match listClusters (Namespace_Name oldNs) with
           | inl _ => []
           | inr items => map ObjectKeyFromObject items
           end
  | _, _ => []
  end.

Definition isUpdate (what : Call) : bool :=
  match what with Update _ => true | _ => false end.

(** [updateStatus] leaves the spec alone. *)
Definition keepsSpec (R : Repo) : Prop :=
  ∀ c err, Spec (updateStatus c err) = Spec c.

(** The place of a call in the order of lines 229-336: the reads of the
    policy block, the version, the token, the lookup, then the resource
    steps one by one, and the role bindings last. *)
Definition phaseOf (what : Call) : nat :=
  match what with
  | GetNamespace _ => 0
  | GetVirtualClusterPolicy _ => 1
  | ServerVersion => 2
  | Token => 3
  | Create FailingService => 4
  | ListPods _ _ => 5
  | Delete (NetworkPolicy _ _ _) | CreateOrUpdate (NetworkPolicy _ _ _) => 6
  | CreateOrUpdate ClusterService => 7
  | ServerConfigFor true _ => 8
  | SetControllerReference InitServerConfig => 9
  | Create InitServerConfig => 10
  | ServerConfigFor false _ => 11
  | SetControllerReference ServerConfig => 12
  | Create ServerConfig => 13
  | SetControllerReference StatefulServerService => 14
  | Create StatefulServerService => 15
  | StatefulServer => 16
  | CreateOrUpdate ServerStatefulSet => 17
  | AllocateKubeletPort => 18
  | AllocateWebhookPort => 19
  | EnsureResources _ => 20
  | Delete ServerIngress | CreateOrUpdate ServerIngress => 21
  | GenerateBootstrapData _ _ => 22
  | CreateOrUpdate (Secret _ _ "bootstrap") => 23
  | GenerateKubeconfig _ => 24
  | WriteKubeconfig => 25
  | CreateOrUpdate (Secret _ _ _) => 26
  | GetClusterRoleBinding _ | UpdateBinding _ => 27
  | _ => 28
  end.

(** One call comes before another: its place is earlier, or both belong to
    the loop over the role bindings. *)
Definition before (w1 w2 : Call) : Prop :=
  phaseOf w1 < phaseOf w2 ∨ (phaseOf w1 = 27 ∧ phaseOf w2 = 27).

(** The calls of [m] are in order. *)
Definition inOrder {A} (m : M A) : Prop :=
  ∀ c, StronglySorted before (calls (m c)).

(** A call on a network policy object. *)
Definition onNetworkPolicy (what : Call) : bool :=
  match what with
  | Create (NetworkPolicy _ _ _) | Delete (NetworkPolicy _ _ _)
  | CreateOrUpdate (NetworkPolicy _ _ _)
  | SetControllerReference (NetworkPolicy _ _ _) => true
  | _ => false
  end.

(** What a pass does to the network policy of a Cluster whose namespace
    carries the policy label [policyName] (the empty string when it carries
    none): a bound namespace has the stand-alone policy deleted, an unbound
    one has it written with the cluster range as the only exception. *)
Definition networkPolicyCall {R : Repo} (policyName : string) (c : Cluster) : Call :=
  if decide (policyName = "") then
    CreateOrUpdate (NetworkPolicy (SafeConcatNameWithPrefix [Name c]) (Namespace c)
                      [clusterCIDRFor (Spec c)])
  else Delete (NetworkPolicy (SafeConcatNameWithPrefix [Name c]) (Namespace c) []).

(** The calls of [m] are in order, and their places are from [lo] up to,
    and not including, [hi]. *)
Definition staged {A} (lo hi : nat) (m : M A) : Prop :=
  ∀ c, StronglySorted before (calls (m c))
       ∧ Forall (λ w, (lo <= phaseOf w < hi)%nat) (calls (m c)).

(** The error, or nil, with which the host answers a call of convergence
    (the token apart, whose answer depends on the Cluster). *)
Definition answer (E : Env) (what : Call) : option error :=
  match what with
  | GetNamespace name => error_of (env_GetNamespace E name)
  | GetVirtualClusterPolicy name => error_of (env_GetVirtualClusterPolicy E name)
  | ServerVersion => error_of (env_ServerVersion E)
  | CreateOrUpdate ClusterService => error_of (env_ClusterService E)
  | AllocateKubeletPort => error_of (env_AllocateKubeletPort E)
  | AllocateWebhookPort => error_of (env_AllocateWebhookPort E)
  | GetClusterRoleBinding name => error_of (env_GetClusterRoleBinding E name)
  | _ => env_err E what
  end.

(** The errors that the resource steps let pass: a not-found to a deletion,
    an already-exists to a creation. *)
Definition tolerated (what : Call) (err : error) : bool :=
  match what with
  | Delete _ => IsNotFound err
  | Create _ => IsAlreadyExists err
  | _ => false
  end.

(** The call was answered without an error, or with one that is let pass. *)
Definition fine (E : Env) (what : Call) : bool :=
  match answer E what with
  | Some err => tolerated what err
  | None => true
  end.

(** [err] is the answer to the last call of [l], and is not let pass. *)
Definition failedLast (E : Env) (err : error) (l : list Call) : Prop :=
  ∃ l' w, l = l' ++ [w] ∧ answer E w = Some err ∧ tolerated w err = false.

(** A failure of [m] is the error of [validate], of the token, of
    [bindClusterRoles], or the answer to the last call that [m] made. *)
Definition stopsAtFailure {L : GoLib} {R : Repo} {A} (E : Env) (m : M A) : Prop :=
  ∀ c err, result (m c) = inl err →
    (∃ cluster policy, validate cluster policy = Some err)
    ∨ (∃ cluster, env_token E cluster = inl err)
    ∨ (∃ cluster, result (bindClusterRoles E cluster) = inl err)
    ∨ failedLast E err (calls (m c)).

(** [m] succeeds when all its calls are [fine], and fails when one is not. *)
Definition faithful {A} (E : Env) (m : M A) : Prop :=
  ∀ c, match result (m c) with
       | inr _ => Forall (λ w, fine E w = true) (calls (m c))
       | inl _ => Exists (λ w, fine E w = false) (calls (m c))
       end.

(** The subject that [bindClusterRoles] binds: the service account of the
    shared agent of the Cluster. *)
Definition clusterSubject {R : Repo} (c : Cluster) : Subject :=
  {| Subject_Kind := ServiceAccountKind;
     Subject_Name := SafeConcatNameWithPrefix [Name c; SharedNodeAgentName];
     Subject_Namespace := Namespace c |}.

Definition isRoleBindingRead (what : Call) : bool :=
  match what with GetClusterRoleBinding _ => true | _ => false end.

(** The host on which every namespace is read as [ns]. *)
Definition withNamespace (ns : NamespaceObj) (E : Env) : Env :=
  {| env_Now := env_Now E;
     env_GetCluster := env_GetCluster E;
     env_GetNamespace := fun _ => inr ns;
     env_GetVirtualClusterPolicy := env_GetVirtualClusterPolicy E;
     env_GetClusterRoleBinding := env_GetClusterRoleBinding E;
     env_ListPods := env_ListPods E;
     env_ServerVersion := env_ServerVersion E;
     env_ClusterService := env_ClusterService E;
     env_AllocateKubeletPort := env_AllocateKubeletPort E;
     env_AllocateWebhookPort := env_AllocateWebhookPort E;
     env_finalizeCluster := env_finalizeCluster E;
     env_token := env_token E;
     env_err := env_err E |}.

(** ** More sample hosts and Clusters *)

Module Cases.

(** The host of [Sample.env] with another answer to the load. *)
Definition withCluster (loaded : error + Cluster) (E : Env) : Env :=
  {| env_Now := env_Now E;
     env_GetCluster := fun _ => loaded;
     env_GetNamespace := env_GetNamespace E;
     env_GetVirtualClusterPolicy := env_GetVirtualClusterPolicy E;
     env_GetClusterRoleBinding := env_GetClusterRoleBinding E;
     env_ListPods := env_ListPods E;
     env_ServerVersion := env_ServerVersion E;
     env_ClusterService := env_ClusterService E;
     env_AllocateKubeletPort := env_AllocateKubeletPort E;
     env_AllocateWebhookPort := env_AllocateWebhookPort E;
     env_finalizeCluster := env_finalizeCluster E;
     env_token := env_token E;
     env_err := env_err E |}.

(** The Cluster of the request has been deleted. *)
Definition envGone : Env :=
  withCluster (inl (StatusError "NotFound" "clusters.k3k.io c1 not found"))
    (Sample.env (Sample.cluster "c1" SharedClusterMode)).


(** A Cluster that has its phase and no finalizer yet. *)
Definition unfinalized : Cluster :=
  {| Name := "c1"; Namespace := "ns1"; DeletionTimestamp := None;
     Finalizers := ["example.com/other"];
     Spec := Sample.spec SharedClusterMode;
     Status := Sample.status |}.

(** A Cluster that has just been created, with no finalizer. *)
Definition created : Cluster :=
  {| Name := "c1"; Namespace := "ns1"; DeletionTimestamp := None;
     Finalizers := [];
     Spec := Sample.spec SharedClusterMode;
     Status := Status.set_Phase "" Sample.status |}.

(** The API server rejects every status write. *)
Definition envConflict (c : Cluster) : Env :=
  Sample.withAnswers
    (fun what =>
       match what with
       | StatusUpdate _ => Some (Some (StatusError "Conflict" "object has been modified"))
       | _ => None
       end) (Sample.env c).

(** The StatefulSet of the server cannot be written. *)
Definition envNoStatefulSet (c : Cluster) : Env :=
  Sample.withAnswers
    (fun what =>
       match what with
       | CreateOrUpdate ServerStatefulSet =>
           Some (Some (StatusError "Forbidden" "statefulsets.apps is forbidden"))
       | _ => None
       end) (Sample.env c).

(** A host on which an earlier pass has created everything: the
    configurations and the headless Service exist, the ingress does not. *)
Definition envSecondPass (c : Cluster) : Env :=
  Sample.withAnswers
    (fun what =>
       match what with
       | Create FailingService => None
       | Create _ => Some (Some (StatusError "AlreadyExists" "already exists"))
       | Delete _ => Some (Some (StatusError "NotFound" "not found"))
       | _ => None
       end) (Sample.env c).

(** The host of [Sample.env] with other role bindings. *)
Definition withBindings (bindings : string → error + ClusterRoleBinding) (E : Env) : Env :=
  {| env_Now := env_Now E;
     env_GetCluster := env_GetCluster E;
     env_GetNamespace := env_GetNamespace E;
     env_GetVirtualClusterPolicy := env_GetVirtualClusterPolicy E;
     env_GetClusterRoleBinding := bindings;
     env_ListPods := env_ListPods E;
     env_ServerVersion := env_ServerVersion E;
     env_ClusterService := env_ClusterService E;
     env_AllocateKubeletPort := env_AllocateKubeletPort E;
     env_AllocateWebhookPort := env_AllocateWebhookPort E;
     env_finalizeCluster := env_finalizeCluster E;
     env_token := env_token E;
     env_err := env_err E |}.

(** The first role binding is missing; the second exists. *)
Definition envNoKubeletRole (c : Cluster) : Env :=
  withBindings
    (fun name =>
       if decide (name = "k3k-kubelet-node")
       then inl (StatusError "NotFound" "clusterrolebinding not found")
       else inr {| Binding_Name := name; Subjects := [] |})
    (Sample.env c).

(** A namespace without labels, and the same with an empty policy label and
    with the label of a policy. *)
Definition unlabelled : NamespaceObj := {| Namespace_Name := "ns1"; Labels := ∅ |}.

Definition emptyLabel : NamespaceObj :=
  {| Namespace_Name := "ns1"; Labels := {[ PolicyNameLabelKey := "" ]} |}.

Definition bound : NamespaceObj :=
  {| Namespace_Name := "ns1"; Labels := {[ PolicyNameLabelKey := "only-virtual" ]} |}.

(** The Clusters of every namespace: two of them. *)
Definition listTwo (namespace : string) : error + list Cluster :=
  inr [Sample.cluster "c1" SharedClusterMode; Sample.cluster "c2" VirtualClusterMode].

End Cases.

(** * Properties *)

(** ** Go strings *)

Example Split_version : Split "v1.31.4+k3s1" "+" = ["v1.31.4"; "k3s1"].
Proof. reflexivity. Qed.

Example Split_no_sep : Split "v1.31.4" "+" = ["v1.31.4"].
Proof. reflexivity. Qed.

Example Split_empty : Split "" "+" = [""].
Proof. reflexivity. Qed.

Example Split_trailing : Split "a+b+" "+" = ["a"; "b"; ""].
Proof. reflexivity. Qed.

Example Split_hint :
  Split "Invalid value: 1.1.1.1: The range of valid IPs is 10.43.0.0/16"
        "The range of valid IPs is "
  = ["Invalid value: 1.1.1.1: "; "10.43.0.0/16"].
Proof. reflexivity. Qed.

Example TrimPrefix_flag :
  TrimPrefix "--service-cluster-ip-range=10.96.0.0/12" "--service-cluster-ip-range="
  = "10.96.0.0/12".
Proof. reflexivity. Qed.

Example TrimSpaceAscii_ex : TrimSpaceAscii "  10.43.0.0/16 " = "10.43.0.0/16".
Proof. reflexivity. Qed.

(** The IPv4 instance of [net.ParseCIDR]: the network is masked, and what
    Go rejects is rejected. *)
Example ParseCIDR_masks :
  match IPv4.ParseCIDR "10.96.0.7/12" with
  | inr n => IPv4.String n
  | inl _ => ""
  end = "10.96.0.0/12".
Proof. reflexivity. Qed.

Example ParseCIDR_keeps_network :
  match IPv4.ParseCIDR "10.43.0.0/16" with
  | inr n => IPv4.String n
  | inl _ => ""
  end = "10.43.0.0/16".
Proof. reflexivity. Qed.

Example ParseCIDR_rejects :
  Forall (λ s, ∃ err, IPv4.ParseCIDR s = inl err)
    ["unknown"; "10.43.0.0"; "10.43.0/16"; "10.43.0.0/33"; "10.43.0.0/"; "010.43.0.0/16";
     "10.43.0.256/16"; "10.43.0.0.0/16"; "10.43..0/16"].
Proof. repeat constructor; by eexists. Qed.


Lemma drop_bytes_app (p s : string) : drop_bytes (String.length p) (p +:+ s) = s.
Proof. induction p as [|a p IH]; simpl; [by destruct s | done]. Qed.

Lemma prefix_app (p s : string) : String.prefix p (p +:+ s) = true.
Proof.
  induction p as [|a p IH]; simpl; [by destruct s |].
  destruct (ascii_dec a a); [done | congruence].
Qed.

Lemma prefix_drop (p s : string) :
  String.prefix p s = true → s = p +:+ drop_bytes (String.length p) s.
Proof.
  revert s. induction p as [|x p IH]; intros s Hp; simpl; [by destruct s |].
  destruct s as [|y s]; simpl in *; [done |].
  destruct (ascii_dec x y) as [->|]; [|done].
  change (String y s = String y (p +:+ drop_bytes (String.length p) s)).
  f_equal. by apply IH.
Qed.

(** What [cut] returns are the two sides of an occurrence of the separator. *)
Lemma cut_Some (sep s b a : string) :
  cut sep s = Some (b, a) → s = b +:+ sep +:+ a.
Proof.
  revert b a. induction s as [|c s IH]; intros b a Hc.
  - cbn [cut] in Hc. destruct (HasPrefix "" sep) eqn:Hp; [|done].
    injection Hc as <- <-. by apply prefix_drop.
  - cbn [cut] in Hc. destruct (HasPrefix (String c s) sep) eqn:Hp.
    + injection Hc as <- <-. by apply prefix_drop.
    + destruct (cut sep s) as [[b' a']|] eqn:Hc'; [|done].
      injection Hc as <- <-.
      change (String c s = String c (b' +:+ sep +:+ a')). f_equal. by apply IH.
Qed.

Lemma length_app (s t : string) :
  String.length (s +:+ t) = (String.length s + String.length t)%nat.
Proof.
  induction s as [|c s IH]; [done |].
  change (S (String.length (s +:+ t)) = S (String.length s + String.length t)).
  by rewrite IH.
Qed.

(** The fuel of [Split] is enough: with a non-empty separator every cut
    shortens the string, and more fuel gives the same fields. *)
Lemma genSplit_fuel (sep : string) :
  sep ≠ "" →
  ∀ n m s, (String.length s ≤ n)%nat → (String.length s ≤ m)%nat →
           genSplit n s sep = genSplit m s sep.
Proof.
  intros Hsep.
  assert (Hempty : cut sep "" = None).
  { cbn [cut]. unfold HasPrefix. by destruct sep. }
  induction n as [|n IH]; intros m s Hn Hm.
  - destruct s; [|cbn in Hn; lia]. destruct m; [done |].
    cbn [genSplit]. by rewrite Hempty.
  - cbn [genSplit]. destruct (cut sep s) as [[b a]|] eqn:Hcut.
    + pose proof (cut_Some sep s b a Hcut) as Hs.
      assert (String.length a < String.length s)%nat.
      { rewrite Hs, !length_app. destruct sep; [done |]. cbn [String.length]. lia. }
      destruct m as [|m]; [lia |]. cbn [genSplit]. rewrite Hcut.
      f_equal. apply IH; lia.
    + destruct m; [done |]. cbn [genSplit]. by rewrite Hcut.
Qed.

Lemma Split_plus_first (s : string) :
  default "" (Split s "+" !! 0%nat) = beforePlus s.
Proof.
  unfold Split. destruct s as [|c s]; [done |].
  change (String.length (String c s)) with (S (String.length s)).
  cbn [genSplit].
  assert (H : ∀ t, match cut "+" t with
                   | Some (b, _) => b = beforePlus t
                   | None => t = beforePlus t
                   end).
  { clear. induction t as [|c t IH]; [done |].
    cbn [cut beforePlus]. unfold HasPrefix. cbn [String.prefix].
    destruct (ascii_dec "+" c) as [<-|Hne].
    - rewrite bool_decide_eq_true_2 by done. by destruct t.
    - rewrite bool_decide_eq_false_2 by congruence.
      destruct (cut "+" t) as [[b a]|]; by f_equal. }
  specialize (H (String c s)).
  destruct (cut "+" (String c s)) as [[b a]|]; simpl; done.
Qed.

Lemma beforePlus_app (pre rest : string) :
  beforePlus pre = pre → beforePlus (pre +:+ "+" +:+ rest) = pre.
Proof.
  induction pre as [|c pre IH]; simpl; [done |].
  case_bool_decide; [done |]. intros [= Hpre].
  change (String c (beforePlus (pre +:+ "+" +:+ rest)) = String c pre).
  f_equal. by apply IH.
Qed.

(** ** The monad of a pass *)

Lemma result_mk {A} (r : error + A) c l : result (r, c, l) = r.
Proof. reflexivity. Qed.
Lemma final_mk {A} (r : error + A) c l : final (r, c, l) = c.
Proof. reflexivity. Qed.
Lemma calls_mk {A} (r : error + A) c l : calls (r, c, l) = l.
Proof. reflexivity. Qed.

Create Rewrite HintDb outcome.
#[global] Hint Rewrite @result_mk @final_mk @calls_mk : outcome.

Ltac outcome := autorewrite with outcome in *.

Section MonadFacts.

Context {A B : Type}.
Implicit Types (m : M A) (k : A → M B).

Lemma bind_inr m k c a c1 l1 :
  m c = (inr a, c1, l1) →
  bind m k c = (result (k a c1), final (k a c1), l1 ++ calls (k a c1)).
Proof. unfold bind. intros ->. by destruct (k a c1) as [[??]?]. Qed.

Lemma bind_inl m k c e c1 l1 :
  m c = (inl e, c1, l1) → bind m k c = (inl e, c1, l1).
Proof. unfold bind. by intros ->. Qed.

(** Either [m] fails and so does [bind m k], or it succeeds and [k] runs
    on the Cluster that [m] left. *)
Lemma bind_cases m k c :
  (∃ e, result (m c) = inl e ∧ bind m k c = (inl e, final (m c), calls (m c)))
  ∨ (∃ a, result (m c) = inr a
        ∧ bind m k c = (result (k a (final (m c))), final (k a (final (m c))),
                        calls (m c) ++ calls (k a (final (m c))))).
Proof.
  destruct (m c) as [[[e|a] c1] l1] eqn:Hm.
  - left. exists e. split; [done |]. by apply bind_inl.
  - right. exists a. split; [done |]. by apply bind_inr.
Qed.

Lemma keeps_bind (R : relation Cluster) `{!Transitive R} m k :
  keeps R m → (∀ a, keeps R (k a)) → keeps R (bind m k).
Proof.
  intros Hm Hk c. destruct (bind_cases m k c) as [(e & _ & ->)|(a & _ & ->)].
  - apply Hm.
  - etrans; [apply Hm | apply Hk].
Qed.

Lemma emits_bind (P : Call → Prop) m k :
  emits P m → (∀ a, emits P (k a)) → emits P (bind m k).
Proof.
  intros Hm Hk c. destruct (bind_cases m k c) as [(e & _ & ->)|(a & _ & ->)].
  - apply Hm.
  - apply Forall_app. split; [apply Hm | apply Hk].
Qed.

Lemma keeps_attempt (R : relation Cluster) m : keeps R m → keeps R (attempt m).
Proof. intros Hm c. specialize (Hm c). unfold attempt. by destruct (m c) as [[??]?]. Qed.

Lemma emits_attempt (P : Call → Prop) m : emits P m → emits P (attempt m).
Proof. intros Hm c. specialize (Hm c). unfold attempt. by destruct (m c) as [[??]?]. Qed.

Lemma emits_weaken (P Q : Call → Prop) m :
  emits P m → (∀ w, P w → Q w) → emits Q m.
Proof. intros Hm HPQ c. eapply Forall_impl; [apply Hm | done]. Qed.

Lemma calls_bind_head m k c w l :
  calls (m c) = w :: l → ∃ rest, calls (bind m k c) = w :: rest.
Proof.
  intros Hc. destruct (bind_cases m k c) as [(e & _ & ->)|(a & _ & ->)];
    unfold calls at 1; cbn [snd]; rewrite Hc; eauto.
Qed.

Lemma bind_assoc {C} m k (h : B → M C) c :
  bind (bind m k) h c = bind m (λ a, bind (k a) h) c.
Proof.
  unfold bind. destruct (m c) as [[[e|a] c1] l1]; [done |].
  destruct (k a c1) as [[[e|b] c2] l2]; [done |].
  destruct (h b c2) as [[r c3] l3]. by rewrite app_assoc.
Qed.

Lemma keeps_weaken (R : relation Cluster) `{!Reflexive R} m :
  keeps eq m → keeps R m.
Proof. intros Hm c. by rewrite <- (Hm c). Qed.

End MonadFacts.

Section Primitives.

Context {A : Type} (R : relation Cluster) `{!Reflexive R} (P : Call → Prop).

Lemma keeps_ret (a : A) : keeps R (ret a).
Proof. intros c. apply reflexivity. Qed.
Lemma keeps_fail (e : error) : keeps R (@fail A e).
Proof. intros c. apply reflexivity. Qed.
Lemma keeps_get : keeps R get.
Proof. intros c. apply reflexivity. Qed.
Lemma keeps_call what (r : error + A) : keeps R (call what r).
Proof. intros c. apply reflexivity. Qed.
Lemma keeps_observe what (r : A) : keeps R (observe what r).
Proof. intros c. apply reflexivity. Qed.
Lemma keeps_returning err : keeps R (returning err).
Proof. intros c. destruct err; apply reflexivity. Qed.
Lemma keeps_modify f : (∀ c, R c (f c)) → keeps R (modify f).
Proof. intros H c. apply H. Qed.
Lemma keeps_setStatus f : (∀ c, R c (with_Status f c)) → keeps R (setStatus f).
Proof. intros H c. apply H. Qed.

Lemma emits_ret (a : A) : emits P (ret a).
Proof. intros c. constructor. Qed.
Lemma emits_fail (e : error) : emits P (@fail A e).
Proof. intros c. constructor. Qed.
Lemma emits_get : emits P get.
Proof. intros c. constructor. Qed.
Lemma emits_put c' : emits P (put c').
Proof. intros c. constructor. Qed.
Lemma emits_modify f : emits P (modify f).
Proof. intros c. constructor. Qed.
Lemma emits_setStatus f : emits P (setStatus f).
Proof. intros c. constructor. Qed.
Lemma emits_returning err : emits P (returning err).
Proof. intros c. destruct err; constructor. Qed.
Lemma emits_call what (r : error + A) : P what → emits P (call what r).
Proof. intros H c. by repeat constructor. Qed.
Lemma emits_observe what (r : A) : P what → emits P (observe what r).
Proof. intros H c. by repeat constructor. Qed.

End Primitives.

Lemma keeps_call_ (R : relation Cluster) `{!Reflexive R} E what : keeps R (call_ E what).
Proof. intros c. unfold call_, bind, observe. destruct (env_err E what); apply reflexivity. Qed.

Lemma emits_call_ (P : Call → Prop) E what : P what → emits P (call_ E what).
Proof.
  intros H c. unfold call_, bind, observe.
  destruct (env_err E what); simpl; by repeat constructor.
Qed.

#[global] Instance unchanged_refl {A} (f : Cluster → A) : Reflexive (unchanged f).
Proof. by intros c. Qed.
#[global] Instance unchanged_trans {A} (f : Cluster → A) : Transitive (unchanged f).
Proof. unfold unchanged. intros c1 c2 c3 H1 H2. congruence. Qed.

(** Goals [keeps R m] and [emits P m] by the structure of [m]; the steps
    that have a name are left to the caller. *)
Ltac pass_step :=
  lazymatch goal with
  | |- keeps _ (bind _ _) => apply keeps_bind; [tc_solve | | intros ?]
  | |- keeps _ (attempt _) => apply keeps_attempt
  | |- keeps _ (ret _) => apply keeps_ret; tc_solve
  | |- keeps _ (fail _) => apply keeps_fail; tc_solve
  | |- keeps _ get => apply keeps_get; tc_solve
  | |- keeps _ (call _ _) => apply keeps_call; tc_solve
  | |- keeps _ (observe _ _) => apply keeps_observe; tc_solve
  | |- keeps _ (returning _) => apply keeps_returning; tc_solve
  | |- keeps _ (call_ _ _) => apply keeps_call_; tc_solve
  | |- keeps _ (setStatus _) =>
      apply keeps_setStatus; intros ?; unfold unchanged; first [done | auto]
  | |- emits _ (bind _ _) => apply emits_bind; [| intros ?]
  | |- emits _ (attempt _) => apply emits_attempt
  | |- emits _ (ret _) => apply emits_ret
  | |- emits _ (fail _) => apply emits_fail
  | |- emits _ get => apply emits_get
  | |- emits _ (put _) => apply emits_put
  | |- emits _ (modify _) => apply emits_modify
  | |- emits _ (setStatus _) => apply emits_setStatus
  | |- emits _ (returning _) => apply emits_returning
  | |- emits _ (call _ _) => apply emits_call; done
  | |- emits _ (observe _ _) => apply emits_observe; done
  | |- emits _ (call_ _ _) => apply emits_call_; done
  | |- keeps _ (if ?x then _ else _) => destruct x
  | |- emits _ (if ?x then _ else _) => destruct x
  | |- keeps _ (match ?x with _ => _ end) => destruct x
  | |- emits _ (match ?x with _ => _ end) => destruct x
  | |- keeps _ (let _ := _ in _) => cbv zeta
  | |- emits _ (let _ := _ in _) => cbv zeta
  end.

Ltac pass := repeat pass_step.

(** ** The steps of the convergence procedure *)

Section Steps.

Context {L : GoLib} {R : Repo} (E : Env).

(** *** Which calls each step makes *)

Lemma reconcilePolicy_emits : emits (λ w, stepOf w = PolicyStep) (reconcilePolicy E).
Proof. unfold reconcilePolicy. pass. Qed.

Lemma reconcileHostVersion_emits :
  emits (λ w, stepOf w = VersionStep) (reconcileHostVersion E).
Proof. unfold reconcileHostVersion. pass. Qed.

Lemma lookupServiceCIDR_emits :
  emits (λ w, stepOf w = ServiceCIDRStep) (lookupServiceCIDR E).
Proof. unfold lookupServiceCIDR, lookupFromPods. pass. Qed.

Lemma reconcileClusterCIDR_emits (P : Call → Prop) : emits P reconcileClusterCIDR.
Proof. unfold reconcileClusterCIDR. pass. Qed.

Lemma reconcileServiceCIDR_emits :
  emits (λ w, stepOf w = ServiceCIDRStep) (reconcileServiceCIDR E).
Proof. unfold reconcileServiceCIDR. pass; apply lookupServiceCIDR_emits. Qed.

Lemma bindClusterRolesLoop_emits cluster roles err :
  emits (λ w, stepOf w = ResourceStep) (bindClusterRolesLoop E cluster roles err).
Proof.
  revert err. induction roles as [|role roles IH]; intros err; cbn [bindClusterRolesLoop].
  - pass.
  - apply emits_bind; [| intros ?; apply IH]. unfold bindClusterRole. pass.
Qed.

Lemma reconcileResources_emits token :
  emits (λ w, stepOf w = ResourceStep) (reconcileResources E token).
Proof.
  unfold reconcileResources, ensureNetworkPolicy, ensureClusterService,
    createClusterConfigs, server, createIfAbsent, ensureAgent, ensureIngress,
    ensureBootstrapSecret, ensureKubeconfigSecret, bindClusterRoles.
  pass; apply bindClusterRolesLoop_emits.
Qed.

(** *** What each step leaves untouched *)

Lemma reconcilePolicy_keeps {A} (f : Cluster → A) :
  (∀ c v, f (with_Status (Status.set_PolicyName v) c) = f c) →
  keeps (unchanged f) (reconcilePolicy E).
Proof. intros H. unfold reconcilePolicy. pass. Qed.

Lemma reconcileHostVersion_keeps {A} (f : Cluster → A) :
  (∀ c v, f (with_Status (Status.set_HostVersion v) c) = f c) →
  keeps (unchanged f) (reconcileHostVersion E).
Proof. intros H. unfold reconcileHostVersion. pass. Qed.

Lemma reconcileClusterCIDR_keeps {A} (f : Cluster → A) :
  (∀ c v, f (with_Status (Status.set_ClusterCIDR v) c) = f c) →
  keeps (unchanged f) reconcileClusterCIDR.
Proof. intros H. unfold reconcileClusterCIDR. pass. Qed.

Lemma lookupServiceCIDR_keeps : keeps eq (lookupServiceCIDR E).
Proof. unfold lookupServiceCIDR, lookupFromPods. pass. Qed.

Lemma reconcileServiceCIDR_keeps {A} (f : Cluster → A) :
  (∀ c v, f (with_Status (Status.set_ServiceCIDR v) c) = f c) →
  keeps (unchanged f) (reconcileServiceCIDR E).
Proof.
  intros H. unfold reconcileServiceCIDR. pass.
  apply keeps_weaken; [tc_solve | apply lookupServiceCIDR_keeps].
Qed.

Lemma bindClusterRolesLoop_keeps cluster roles err :
  keeps eq (bindClusterRolesLoop E cluster roles err).
Proof.
  revert err. induction roles as [|role roles IH]; intros err; cbn [bindClusterRolesLoop].
  - pass.
  - apply keeps_bind; [tc_solve | | intros ?; apply IH]. unfold bindClusterRole. pass.
Qed.

Lemma ensureNetworkPolicy_keeps : keeps eq (ensureNetworkPolicy E).
Proof. unfold ensureNetworkPolicy. pass. Qed.

Lemma ensureClusterService_keeps : keeps eq (ensureClusterService E).
Proof. unfold ensureClusterService. pass. Qed.

Lemma createClusterConfigs_keeps serviceIP : keeps eq (createClusterConfigs E serviceIP).
Proof. unfold createClusterConfigs, createIfAbsent. pass. Qed.

Lemma server_keeps : keeps eq (server E).
Proof. unfold server, createIfAbsent. pass. Qed.

Lemma ensureAgent_keeps {A} (f : Cluster → A) serviceIP token :
  ignoresPorts f → keeps (unchanged f) (ensureAgent E serviceIP token).
Proof.
  intros H.
  assert (∀ c v, f (with_Status (Status.set_KubeletPort v) c) = f c) by (intros; apply H).
  assert (∀ c v, f (with_Status (Status.set_WebhookPort v) c) = f c) by (intros; apply H).
  unfold ensureAgent. pass.
Qed.

Lemma ensureIngress_keeps : keeps eq (ensureIngress E).
Proof. unfold ensureIngress. pass. Qed.

Lemma ensureBootstrapSecret_keeps serviceIP token :
  keeps eq (ensureBootstrapSecret E serviceIP token).
Proof. unfold ensureBootstrapSecret. pass. Qed.

Lemma ensureKubeconfigSecret_keeps serviceIP : keeps eq (ensureKubeconfigSecret E serviceIP).
Proof. unfold ensureKubeconfigSecret. pass. Qed.

Lemma bindClusterRoles_keeps : keeps eq (bindClusterRoles E).
Proof. unfold bindClusterRoles. pass. apply bindClusterRolesLoop_keeps. Qed.

(** The resource steps write nothing but the two ports. *)
Lemma reconcileResources_keeps {A} (f : Cluster → A) token :
  ignoresPorts f → keeps (unchanged f) (reconcileResources E token).
Proof.
  intros H. unfold reconcileResources.
  pass; first [ by apply ensureAgent_keeps | apply keeps_weaken; [tc_solve|] ].
  - apply ensureNetworkPolicy_keeps.
  - apply ensureClusterService_keeps.
  - apply createClusterConfigs_keeps.
  - apply server_keeps.
  - apply ensureIngress_keeps.
  - apply ensureBootstrapSecret_keeps.
  - apply ensureKubeconfigSecret_keeps.
  - apply bindClusterRoles_keeps.
Qed.

Lemma reconcile_blocks :
  reconcile E = (reconcilePolicy E ;;; reconcileHostVersion E ;;; reconcileFromToken E).
Proof. reflexivity. Qed.

Lemma reconcileFromRanges_keeps {A} (f : Cluster → A) token :
  (∀ c v, f (with_Status (Status.set_ClusterCIDR v) c) = f c) →
  (∀ c v, f (with_Status (Status.set_ServiceCIDR v) c) = f c) →
  ignoresPorts f →
  keeps (unchanged f) (reconcileFromRanges E token).
Proof.
  intros H1 H2 H3. unfold reconcileFromRanges. pass.
  - by apply reconcileClusterCIDR_keeps.
  - by apply reconcileServiceCIDR_keeps.
  - by apply reconcileResources_keeps.
Qed.

Lemma reconcileFromToken_keeps {A} (f : Cluster → A) :
  (∀ c v, f (with_Status (Status.set_ClusterCIDR v) c) = f c) →
  (∀ c v, f (with_Status (Status.set_ServiceCIDR v) c) = f c) →
  ignoresPorts f →
  keeps (unchanged f) (reconcileFromToken E).
Proof.
  intros H1 H2 H3. unfold reconcileFromToken. pass.
  by apply reconcileFromRanges_keeps.
Qed.

Lemma reconcileToToken_keeps {A} (f : Cluster → A) :
  (∀ c v, f (with_Status (Status.set_PolicyName v) c) = f c) →
  (∀ c v, f (with_Status (Status.set_HostVersion v) c) = f c) →
  keeps (unchanged f) (reconcileToToken E).
Proof.
  intros H1 H2. unfold reconcileToToken. pass.
  - by apply reconcilePolicy_keeps.
  - by apply reconcileHostVersion_keeps.
Qed.

Lemma reconcileFromRanges_emits token :
  emits (λ w, stepOf w = ServiceCIDRStep ∨ stepOf w = ResourceStep)
    (reconcileFromRanges E token).
Proof.
  unfold reconcileFromRanges. pass.
  - apply reconcileClusterCIDR_emits.
  - eapply emits_weaken; [apply reconcileServiceCIDR_emits |]. by left.
  - eapply emits_weaken; [apply reconcileResources_emits |]. by right.
Qed.

Lemma reconcileFromToken_emits :
  emits (λ w, stepOf w ≠ PolicyStep ∧ stepOf w ≠ VersionStep) (reconcileFromToken E).
Proof.
  unfold reconcileFromToken. pass.
  eapply emits_weaken; [apply reconcileFromRanges_emits |]. by intros w [-> | ->].
Qed.

Lemma reconcileToToken_emits :
  emits (λ w, stepOf w = PolicyStep ∨ stepOf w = VersionStep ∨ stepOf w = TokenStep)
    (reconcileToToken E).
Proof.
  unfold reconcileToToken.
  apply emits_bind; [| intros _; apply emits_bind; [| intros _]].
  - eapply emits_weaken; [apply reconcilePolicy_emits |]. by left.
  - eapply emits_weaken; [apply reconcileHostVersion_emits |]. by right; left.
  - apply emits_bind; [apply emits_get | intros ?]. apply emits_call. by right; right.
Qed.

(** The pass is its part up to the token followed by its part from the
    address ranges on. *)
Lemma reconcile_split c :
  reconcile E c = (token <- reconcileToToken E ;; reconcileFromRanges E token) c.
Proof.
  unfold reconcile, reconcileToToken.
  change (reconcileClusterCIDR ;;; reconcileServiceCIDR E ;;; reconcileResources E ?t)
    with (reconcileFromRanges E t).
  unfold bind.
  destruct (reconcilePolicy E c) as [[[e|a] c1] l1]; [done |].
  destruct (reconcileHostVersion E c1) as [[[e|a'] c2] l2]; [done |].
  unfold get, call. destruct (env_token E c2) as [e|token]; [done |].
  destruct (reconcileFromRanges E token c2) as [[r c3] l3].
  cbn [app]. by rewrite <- !app_assoc.
Qed.

(** *** The address ranges *)

Lemma reconcileClusterCIDR_result c :
  reconcileClusterCIDR c
  = (inr tt, with_Status (Status.set_ClusterCIDR (clusterCIDRFor (Spec c))) c, []).
Proof.
  unfold reconcileClusterCIDR, clusterCIDRFor, bind, get, setStatus, modify, ret.
  destruct (decide (Spec.ClusterCIDR (Spec c) = "")); [|done].
  by destruct (decide (Spec.Mode (Spec c) = SharedClusterMode)).
Qed.

(** [lookupServiceCIDR] neither reads nor writes the Cluster. *)
Lemma lookupServiceCIDR_run c :
  lookupServiceCIDR E c
  = (result (lookupServiceCIDR E zeroCluster), c, calls (lookupServiceCIDR E zeroCluster)).
Proof.
  unfold lookupServiceCIDR, lookupFromPods, bind, observe, ret, fail, result, calls.
  repeat (case_match; simplify_eq/=; try done).
Qed.

Lemma reconcileServiceCIDR_result c :
  reconcileServiceCIDR E c
  = (inr tt, with_Status (Status.set_ServiceCIDR (serviceCIDRFor E (Spec c))) c,
     lookupCalls E (Spec c)).
Proof.
  unfold reconcileServiceCIDR, serviceCIDRFor, lookupCalls,
    bind, get, setStatus, modify, ret, attempt.
  destruct (decide (Spec.ServiceCIDR (Spec c) = "")) as [Hempty|]; [|done].
  destruct (decide (Spec.Mode (Spec c) = SharedClusterMode)) as [Hs|Hs].
  - rewrite lookupServiceCIDR_run.
    rewrite decide_False by (rewrite Hs; discriminate).
    generalize (lookupServiceCIDR E zeroCluster). intros [[r c'] l]. outcome.
    destruct r; rewrite !app_nil_r; reflexivity.
  - destruct (decide (Spec.Mode (Spec c) = VirtualClusterMode)) as [Hv|Hv];
      [reflexivity | by rewrite Hempty].
Qed.

Lemma scanArgs_firstFlagged apiServerArgs :
  scanArgs apiServerArgs
  = match firstFlagged apiServerArgs with
    | Some value =>
        match ParseCIDR value with
        | inl _ => None
        | inr serviceCIDRAddr => Some (IPNet_String serviceCIDRAddr)
        end
    | None => None
    end.
Proof.
  induction apiServerArgs as [|arg rest IH]; [done |].
  cbn [scanArgs firstFlagged]. by destruct (HasPrefix arg rangeFlag).
Qed.

(** The first strategy: a hint decides, whether it parses or not. *)
Lemma lookupServiceCIDR_hinted c hint :
  rangeHintOf E = Some hint →
  lookupServiceCIDR E c
  = (match ParseCIDR (TrimSpace hint) with
     | inl err => inl err
     | inr serviceCIDRAddr => inr (IPNet_String serviceCIDRAddr)
     end, c, [Create FailingService]).
Proof.
  unfold rangeHintOf, lookupServiceCIDR, bind, observe. intros Hh.
  destruct (env_err E (Create FailingService)) as [err|]; [|done].
  rewrite decide_True by (by apply lookup_lt_Some in Hh).
  rewrite Hh. cbn [from_option id]. by destruct (ParseCIDR _).
Qed.

(** The second strategy runs when no hint was found. *)
Lemma lookupServiceCIDR_unhinted c :
  rangeHintOf E = None →
  lookupServiceCIDR E c
  = (result (lookupFromPods E c), c, Create FailingService :: calls (lookupFromPods E c)).
Proof.
  unfold rangeHintOf, lookupServiceCIDR. intros Hh.
  assert (Hpods : ∀ r, (let '(p, l2) := lookupFromPods E c in
                        let '(r', c2) := p in (r', c2, r :: l2))
                       = (result (lookupFromPods E c), c, r :: calls (lookupFromPods E c))).
  { intros r. unfold lookupFromPods, bind, observe, ret, fail.
    repeat (case_match; simplify_eq/=; try done). }
  unfold bind, observe.
  destruct (env_err E (Create FailingService)) as [err|]; [|apply Hpods].
  rewrite decide_False; [apply Hpods |].
  apply lookup_ge_None in Hh. lia.
Qed.

Lemma lookupFromPods_flagged c pod pods value :
  env_ListPods E = inr (pod :: pods) →
  firstFlagged (Containers_0_Args pod) = Some value →
  lookupFromPods E c
  = (inr (match ParseCIDR value with
          | inl _ => ""
          | inr serviceCIDRAddr => IPNet_String serviceCIDRAddr
          end), c,
     [ListPods NamespaceSystem [("component", "kube-apiserver"); ("tier", "control-plane")]]).
Proof.
  intros Hl Hf. unfold lookupFromPods, bind, observe, ret.
  rewrite Hl, scanArgs_firstFlagged, Hf. by destruct (ParseCIDR value).
Qed.

(** Nothing found: the empty string and no error. *)
Lemma lookupFromPods_miss c :
  match env_ListPods E with
  | inl err => IsNotFound err = true
  | inr [] => True
  | inr (pod :: _) => scanArgs (Containers_0_Args pod) = None
  end →
  lookupFromPods E c
  = (inr "", c,
     [ListPods NamespaceSystem [("component", "kube-apiserver"); ("tier", "control-plane")]]).
Proof.
  intros Hl. unfold lookupFromPods, bind, observe, ret, fail.
  destruct (env_ListPods E) as [err|[|pod pods]]; [by rewrite Hl | done | by rewrite Hl].
Qed.

(** A pass that gets to the address ranges goes on to the resource steps
    with the ranges computed from the spec. *)
Lemma reconcile_reached c token c2 l :
  reconcileToToken E c = (inr token, c2, l) →
  Spec c2 = Spec c
  ∧ reconcile E c
    = (result (reconcileResources E token (withRanges E c2)),
       final (reconcileResources E token (withRanges E c2)),
       l ++ lookupCalls E (Spec c) ++ calls (reconcileResources E token (withRanges E c2))).
Proof.
  intros Hpre.
  pose proof (reconcileToToken_keeps Spec (λ _ _, eq_refl) (λ _ _, eq_refl) c) as Hspec.
  rewrite Hpre in Hspec. unfold unchanged in Hspec. outcome.
  split; [done |].
  rewrite reconcile_split, (bind_inr _ _ _ _ _ _ Hpre). outcome.
  unfold reconcileFromRanges.
  rewrite (bind_inr _ _ _ _ _ _ (reconcileClusterCIDR_result c2)). outcome.
  rewrite (bind_inr _ _ _ _ _ _ (reconcileServiceCIDR_result _)). outcome.
  cbn [app]. by rewrite <- Hspec.
Qed.

(** It leaves in the status the ranges computed from the spec. *)
Lemma reconcile_ranges c token c2 l :
  reconcileToToken E c = (inr token, c2, l) →
  Status.ClusterCIDR (Status (final (reconcile E c))) = clusterCIDRFor (Spec c)
  ∧ Status.ServiceCIDR (Status (final (reconcile E c))) = serviceCIDRFor E (Spec c).
Proof.
  intros Hpre. destruct (reconcile_reached c token c2 l Hpre) as [Hspec ->]. outcome.
  pose proof (reconcileResources_keeps
                (λ c, (Status.ClusterCIDR (Status c), Status.ServiceCIDR (Status c)))
                token (λ _ _, conj eq_refl eq_refl) (withRanges E c2)) as Hres.
  injection Hres as -> ->. cbn. by rewrite Hspec.
Qed.

Lemma reconcile_stops c e c2 l :
  reconcileToToken E c = (inl e, c2, l) → reconcile E c = (inl e, c2, l).
Proof. intros Hpre. by rewrite reconcile_split, (bind_inl _ _ _ _ _ _ Hpre). Qed.

(** *** The version block *)

Lemma reconcileHostVersion_calls c :
  calls (reconcileHostVersion E c)
  = if bool_decide (Spec.Version (Spec c) = "")
       && bool_decide (Status.HostVersion (Status c) = "")
    then [ServerVersion] else [].
Proof.
  unfold reconcileHostVersion, bind, get, call, setStatus, modify, ret.
  destruct (_ && _); [|done]. by destruct (env_ServerVersion E).
Qed.

Lemma reconcileHostVersion_skip c :
  bool_decide (Spec.Version (Spec c) = "")
  && bool_decide (Status.HostVersion (Status c) = "") = false →
  reconcileHostVersion E c = (inr tt, c, []).
Proof.
  intros H. unfold reconcileHostVersion, bind, get. by rewrite H.
Qed.

(** *** The policy block *)

Lemma validate_rejects cluster policy :
  Name cluster = ClusterInvalidName ∨ Spec.Mode (Spec cluster) ≠ AllowedMode policy →
  ∃ err, validate cluster policy = Some err ∧ errors_Is err ErrClusterValidation = true.
Proof.
  intros H. unfold validate.
  destruct (decide (Name cluster = ClusterInvalidName)); [by eexists |].
  destruct (decide (Spec.Mode (Spec cluster) ≠ AllowedMode policy)); [by eexists |].
  by destruct H.
Qed.

Lemma validate_accepts cluster policy :
  Name cluster ≠ ClusterInvalidName → Spec.Mode (Spec cluster) = AllowedMode policy →
  validate cluster policy = None.
Proof.
  intros Hn Hm. unfold validate.
  destruct (decide (Name cluster = ClusterInvalidName)); [done |].
  by destruct (decide (Spec.Mode (Spec cluster) ≠ AllowedMode policy)).
Qed.

Lemma reconcilePolicy_unbound c ns :
  env_GetNamespace E (Namespace c) = inr ns →
  Labels ns !! PolicyNameLabelKey = None ∨ Labels ns !! PolicyNameLabelKey = Some "" →
  reconcilePolicy E c
  = (inr tt, with_Status (Status.set_PolicyName "") c, [GetNamespace (Namespace c)]).
Proof.
  intros Hns Hl. unfold reconcilePolicy, bind, get, call, setStatus, modify, ret.
  rewrite Hns. by destruct Hl as [-> | ->].
Qed.

Lemma reconcilePolicy_bound c ns policyName policy :
  env_GetNamespace E (Namespace c) = inr ns →
  Labels ns !! PolicyNameLabelKey = Some policyName → policyName ≠ "" →
  env_GetVirtualClusterPolicy E policyName = inr policy →
  reconcilePolicy E c
  = (match validate (with_Status (Status.set_PolicyName policyName) c) policy with
     | Some err => inl err
     | None => inr tt
     end,
     with_Status (Status.set_PolicyName policyName) c,
     [GetNamespace (Namespace c); GetVirtualClusterPolicy policyName]).
Proof.
  intros Hns Hl Hne Hp. unfold reconcilePolicy, bind, get, call, setStatus, modify, ret.
  rewrite Hns, Hl. cbn [from_option id].
  rewrite bool_decide_eq_true_2 by eauto. rewrite bool_decide_eq_true_2 by done.
  cbn [andb]. rewrite Hp. unfold returning.
  by destruct (validate _ policy).
Qed.

End Steps.

(** ** The version of the host *)

Section HostVersion.

Context {L : GoLib} {R : Repo} (E : Env).

Lemma reconcileHostVersion_resolves c gitVersion :
  Spec.Version (Spec c) = "" → Status.HostVersion (Status c) = "" →
  env_ServerVersion E = inr gitVersion →
  reconcileHostVersion E c
  = (inr tt,
     with_Status (Status.set_HostVersion (beforePlus gitVersion +:+ "-k3s1")) c,
     [ServerVersion]).
Proof.
  intros Hv Hh Hs. unfold reconcileHostVersion, bind, get, call, setStatus, modify.
  rewrite Hv, Hh, Hs. cbn [bool_decide andb]. by rewrite Split_plus_first.
Qed.

(** C7: a Cluster with no version in its spec and none resolved yet, whose
    pass gets through the policy block, has the version of the host
    queried; the text before the first [+] of the reported version,
    followed by [-k3s1], is in [Status.HostVersion] when the pass ends,
    however it ends.  A Cluster whose [Status.HostVersion] is not empty
    keeps it through any pass, and the host is not queried. *)
Theorem host_version_resolved_once c :
  (∀ gitVersion,
      Spec.Version (Spec c) = "" → Status.HostVersion (Status c) = "" →
      result (reconcilePolicy E c) = inr tt →
      env_ServerVersion E = inr gitVersion →
      ServerVersion ∈ calls (reconcile E c)
      ∧ Status.HostVersion (Status (final (reconcile E c)))
        = beforePlus gitVersion +:+ "-k3s1")
  ∧ (Status.HostVersion (Status c) ≠ "" →
     Status.HostVersion (Status (final (reconcile E c))) = Status.HostVersion (Status c)
     ∧ ServerVersion ∉ calls (reconcile E c)).
Proof.
  pose proof (reconcilePolicy_keeps E (λ c, (Spec c, Status.HostVersion (Status c)))
                (λ _ _, eq_refl) c) as Hpol.
  pose proof (reconcilePolicy_emits E c) as Hpolc.
  rewrite reconcile_blocks. split.
  - intros gitVersion Hv Hh Hok Hs.
    destruct (reconcilePolicy E c) as [[r c1] l1] eqn:Hp.
    unfold result in Hok; cbn in Hok; subst r.
    injection Hpol as Hspec Hhv. outcome.
    rewrite (bind_inr _ _ _ _ _ _ Hp).
    rewrite (bind_inr _ _ _ _ _ _
               (reconcileHostVersion_resolves c1 gitVersion
                  ltac:(congruence) ltac:(congruence) Hs)).
    outcome. split.
    + rewrite !elem_of_app. right. left. by apply list_elem_of_singleton.
    + apply (reconcileFromToken_keeps E (λ c, Status.HostVersion (Status c))); try done.
  - intros Hne.
    destruct (bind_cases (reconcilePolicy E)
                (λ _, reconcileHostVersion E ;;; reconcileFromToken E) c)
      as [(e & _ & ->)|([] & _ & ->)].
    + outcome. split.
      * by injection Hpol.
      * intros Hin. eapply Forall_forall in Hpolc; [|done]. done.
    + set (c1 := final (reconcilePolicy E c)) in *.
      assert (Hskip : reconcileHostVersion E c1 = (inr tt, c1, [])).
      { apply reconcileHostVersion_skip.
        assert (Status.HostVersion (Status c1) = Status.HostVersion (Status c))
          by (by injection Hpol).
        rewrite (bool_decide_eq_false_2 (Status.HostVersion (Status c1) = ""))
          by congruence.
        apply andb_false_r. }
      rewrite (bind_inr _ _ _ _ _ _ Hskip).
      outcome. cbn [app]. split.
      * trans (Status.HostVersion (Status c1)); [| by injection Hpol].
        exact (reconcileFromToken_keeps E (λ c, Status.HostVersion (Status c))
                 (λ _ _, eq_refl) (λ _ _, eq_refl) (λ _ _, conj eq_refl eq_refl) c1).
      * rewrite elem_of_app. intros [Hin|Hin].
        -- eapply Forall_forall in Hpolc; [|done]. done.
        -- pose proof (reconcileFromToken_emits E c1) as Hft.
           eapply Forall_forall in Hft; [|done]. by destruct Hft.
Qed.

End HostVersion.

Lemma host_version_resolved_once_witness :
  (ServerVersion ∈ calls (reconcile (L := IPv4.lib) (R := Sample.repo)
                            (Sample.env (Sample.cluster "c1" SharedClusterMode))
                            (Sample.cluster "c1" SharedClusterMode))
   ∧ Status.HostVersion
       (Status (final (reconcile (L := IPv4.lib) (R := Sample.repo)
                         (Sample.env (Sample.cluster "c1" SharedClusterMode))
                         (Sample.cluster "c1" SharedClusterMode))))
     = "v1.31.4-k3s1")
  ∧ (Status.HostVersion
       (Status (final (reconcile (L := IPv4.lib) (R := Sample.repo)
                         (Sample.env (Sample.resolved "c1" SharedClusterMode))
                         (Sample.resolved "c1" SharedClusterMode))))
     = "v1.30.2-k3s1"
     ∧ ServerVersion ∉ calls (reconcile (L := IPv4.lib) (R := Sample.repo)
                                (Sample.env (Sample.resolved "c1" SharedClusterMode))
                                (Sample.resolved "c1" SharedClusterMode))).
Proof.
  split.
  - apply (proj1 (host_version_resolved_once (L := IPv4.lib) (R := Sample.repo)
                    (Sample.env (Sample.cluster "c1" SharedClusterMode))
                    (Sample.cluster "c1" SharedClusterMode)) "v1.31.4+k3s1");
      reflexivity.
  - apply (proj2 (host_version_resolved_once (L := IPv4.lib) (R := Sample.repo)
                    (Sample.env (Sample.resolved "c1" SharedClusterMode))
                    (Sample.resolved "c1" SharedClusterMode))).
    discriminate.
Defined.

(** ** Policy validation *)

Section Validation.

Context {L : GoLib} {R : Repo} (E : Env).

(** C8: in a namespace whose policy label is not empty, convergence
    resolves the named policy and fails with an error that
    [errors.Is] recognises as [ErrClusterValidation] when the Cluster is
    named "system" or its mode is not the mode the policy allows; the only
    calls of such a pass are the two reads, so no owned resource has been
    created. *)
Theorem validation_failure_precedes_resources c ns policyName policy :
  env_GetNamespace E (Namespace c) = inr ns →
  Labels ns !! PolicyNameLabelKey = Some policyName →
  policyName ≠ "" →
  env_GetVirtualClusterPolicy E policyName = inr policy →
  Name c = ClusterInvalidName ∨ Spec.Mode (Spec c) ≠ AllowedMode policy →
  ∃ err,
    result (reconcile E c) = inl err
    ∧ errors_Is err ErrClusterValidation = true
    ∧ calls (reconcile E c)
      = [GetNamespace (Namespace c); GetVirtualClusterPolicy policyName].
Proof.
  intros Hns Hl Hne Hp Hbad.
  pose proof (reconcilePolicy_bound E c ns policyName policy Hns Hl Hne Hp) as Hblock.
  destruct (validate_rejects (with_Status (Status.set_PolicyName policyName) c) policy)
    as (err & Hv & His); [done |].
  rewrite Hv in Hblock. exists err. unfold reconcile.
  by rewrite (bind_inl _ _ _ _ _ _ Hblock).
Qed.

(** C9: when the namespace carries no policy label, or an empty one, the
    policy block returns nil whatever the Cluster is called (the hypotheses
    leave its name free, so also for "system"), no pass resolves a policy,
    and convergence goes on: the call after the read of the namespace is
    the version query, or the token when no version has to be resolved. *)
Theorem unbound_namespace_skips_validation c ns :
  env_GetNamespace E (Namespace c) = inr ns →
  Labels ns !! PolicyNameLabelKey = None ∨ Labels ns !! PolicyNameLabelKey = Some "" →
  result (reconcilePolicy E c) = inr tt
  ∧ Forall (λ w, ∀ n, w ≠ GetVirtualClusterPolicy n) (calls (reconcile E c))
  ∧ ∃ rest,
      calls (reconcile E c)
      = GetNamespace (Namespace c)
        :: (if bool_decide (Spec.Version (Spec c) = "")
               && bool_decide (Status.HostVersion (Status c) = "")
            then ServerVersion else Token)
        :: rest.
Proof.
  intros Hns Hl.
  pose proof (reconcilePolicy_unbound E c ns Hns Hl) as Hblock.
  split; [by rewrite Hblock |].
  rewrite reconcile_blocks, (bind_inr _ _ _ _ _ _ Hblock). outcome. cbn [app].
  set (c1 := with_Status (Status.set_PolicyName "") c).
  split.
  - constructor; [done |].
    eapply emits_weaken with (P := λ w, stepOf w ≠ PolicyStep).
    + apply emits_bind; [| intros ?].
      * eapply emits_weaken; [apply reconcileHostVersion_emits |]. by intros w ->.
      * eapply emits_weaken; [apply reconcileFromToken_emits |]. by intros w [].
    + by intros [] Hw n.
  - pose proof (reconcileHostVersion_calls E c1) as Hhv.
    change (Spec c1) with (Spec c) in Hhv.
    change (Status.HostVersion (Status c1)) with (Status.HostVersion (Status c)) in Hhv.
    destruct (_ && _) eqn:Hcond.
    + destruct (calls_bind_head _ (λ _, reconcileFromToken E) c1 _ _ Hhv) as [rest ->].
      eauto.
    + rewrite (bind_inr _ _ _ _ _ _ (reconcileHostVersion_skip E c1 Hcond)).
      outcome. cbn [app]. unfold reconcileFromToken.
      rewrite (bind_inr get _ c1 c1 c1 [] eq_refl). outcome. cbn [app].
      destruct (calls_bind_head (call Token (env_token E c1))
                  (λ token, reconcileFromRanges E token) c1 Token [] eq_refl)
        as [rest ->].
      eauto.
Qed.

End Validation.

Lemma validation_failure_precedes_resources_witness :
  ∃ err,
    result (reconcile (L := IPv4.lib) (R := Sample.repo)
              (Sample.envPolicy (Sample.cluster "c1" SharedClusterMode))
              (Sample.cluster "c1" SharedClusterMode)) = inl err
    ∧ errors_Is err ErrClusterValidation = true
    ∧ calls (reconcile (L := IPv4.lib) (R := Sample.repo)
               (Sample.envPolicy (Sample.cluster "c1" SharedClusterMode))
               (Sample.cluster "c1" SharedClusterMode))
      = [GetNamespace "ns1"; GetVirtualClusterPolicy "only-virtual"].
Proof.
  apply (validation_failure_precedes_resources (L := IPv4.lib) (R := Sample.repo)
           (Sample.envPolicy (Sample.cluster "c1" SharedClusterMode))
           (Sample.cluster "c1" SharedClusterMode)
           {| Namespace_Name := "ns1"; Labels := {[ PolicyNameLabelKey := "only-virtual" ]} |}
           "only-virtual"
           {| Policy_Name := "only-virtual"; AllowedMode := VirtualClusterMode |}).
  - reflexivity.
  - vm_compute. reflexivity.
  - discriminate.
  - reflexivity.
  - right. discriminate.
Defined.

Lemma unbound_namespace_skips_validation_witness :
  result (reconcilePolicy (L := IPv4.lib)
            (Sample.env (Sample.cluster "system" SharedClusterMode))
            (Sample.cluster "system" SharedClusterMode)) = inr tt
  ∧ Forall (λ w, ∀ n, w ≠ GetVirtualClusterPolicy n)
      (calls (reconcile (L := IPv4.lib) (R := Sample.repo)
                (Sample.env (Sample.cluster "system" SharedClusterMode))
                (Sample.cluster "system" SharedClusterMode)))
  ∧ ∃ rest,
      calls (reconcile (L := IPv4.lib) (R := Sample.repo)
               (Sample.env (Sample.cluster "system" SharedClusterMode))
               (Sample.cluster "system" SharedClusterMode))
      = GetNamespace "ns1" :: ServerVersion :: rest.
Proof.
  apply (unbound_namespace_skips_validation (L := IPv4.lib) (R := Sample.repo)
           (Sample.env (Sample.cluster "system" SharedClusterMode))
           (Sample.cluster "system" SharedClusterMode)
           {| Namespace_Name := "ns1"; Labels := ∅ |}).
  - reflexivity.
  - left. vm_compute. reflexivity.
Defined.

(** ** The address ranges in the status *)

Section Ranges.

Context {L : GoLib} {R : Repo} (E : Env).

Lemma clusterCIDRFor_explicit spec :
  Spec.ClusterCIDR spec ≠ "" → clusterCIDRFor spec = Spec.ClusterCIDR spec.
Proof. intros H. unfold clusterCIDRFor. by rewrite decide_False. Qed.

Lemma serviceCIDRFor_explicit spec :
  Spec.ServiceCIDR spec ≠ "" → serviceCIDRFor E spec = Spec.ServiceCIDR spec.
Proof. intros H. unfold serviceCIDRFor. by rewrite decide_False. Qed.

(** C2, as the code has it: every pass that gets to lines 270-299 records
    the ranges computed from the spec ([clusterCIDRFor], [serviceCIDRFor]:
    the range of the spec when it names one).  Recorded ranges that are
    the computed ones are left as they are by any pass, however far it
    gets; a pass that gets to the address ranges records the computed
    ranges whatever was recorded before. *)
Theorem recorded_ranges_follow_spec c :
  (clusterCIDRFor (Spec c) = Status.ClusterCIDR (Status c) →
   serviceCIDRFor E (Spec c) = Status.ServiceCIDR (Status c) →
   Status.ClusterCIDR (Status (final (reconcile E c))) = Status.ClusterCIDR (Status c)
   ∧ Status.ServiceCIDR (Status (final (reconcile E c))) = Status.ServiceCIDR (Status c))
  ∧ (∀ token,
       result (reconcileToToken E c) = inr token →
       Status.ClusterCIDR (Status (final (reconcile E c))) = clusterCIDRFor (Spec c)
       ∧ Status.ServiceCIDR (Status (final (reconcile E c)))
         = serviceCIDRFor E (Spec c)).
Proof.
  split.
  - intros Hc Hs.
    destruct (reconcileToToken E c) as [[[e|token] c2] l] eqn:Hpre.
    + rewrite (reconcile_stops E c e c2 l Hpre). outcome.
      pose proof (reconcileToToken_keeps E
                    (λ c, (Status.ClusterCIDR (Status c), Status.ServiceCIDR (Status c)))
                    (λ _ _, eq_refl) (λ _ _, eq_refl) c) as Hk.
      rewrite Hpre in Hk. by injection Hk.
    + rewrite <- Hc, <- Hs. by apply (reconcile_ranges E c token c2 l).
  - intros token Hok.
    destruct (reconcileToToken E c) as [[r c2] l] eqn:Hpre.
    outcome. subst r. by apply (reconcile_ranges E c token c2 l).
Qed.

End Ranges.

Lemma recorded_ranges_follow_spec_witness :
  (Status.ClusterCIDR
     (Status (final (reconcile (L := IPv4.lib) (R := Sample.repo)
                       (Sample.env Sample.recorded) Sample.recorded))) = "10.99.0.0/16"
   ∧ Status.ServiceCIDR
       (Status (final (reconcile (L := IPv4.lib) (R := Sample.repo)
                         (Sample.env Sample.recorded) Sample.recorded))) = "10.98.0.0/16")
  ∧ (Status.ClusterCIDR
       (Status (final (reconcile (L := IPv4.lib) (R := Sample.repo)
                         (Sample.env Sample.respecified) Sample.respecified)))
     = "10.99.0.0/16"
     ∧ Status.ServiceCIDR
         (Status (final (reconcile (L := IPv4.lib) (R := Sample.repo)
                           (Sample.env Sample.respecified) Sample.respecified)))
       = "10.98.0.0/16").
Proof.
  split.
  - apply (proj1 (recorded_ranges_follow_spec (L := IPv4.lib) (R := Sample.repo)
                    (Sample.env Sample.recorded) Sample.recorded));
      reflexivity.
  - apply (proj2 (recorded_ranges_follow_spec (L := IPv4.lib) (R := Sample.repo)
                    (Sample.env Sample.respecified) Sample.respecified) "token").
    reflexivity.
Defined.

(** C2 as stated fails: a Cluster with both ranges recorded, whose spec names
    other ranges, has both recorded ranges replaced by one pass. *)
Lemma recorded_ranges_overwritten :
  Status.ClusterCIDR (Status Sample.respecified) = "10.42.0.0/16"
  ∧ Status.ServiceCIDR (Status Sample.respecified) = "10.43.0.0/16"
  ∧ Status.ClusterCIDR
      (Status (final (reconcile (L := IPv4.lib) (R := Sample.repo)
                        (Sample.env Sample.respecified) Sample.respecified)))
    = "10.99.0.0/16"
  ∧ Status.ServiceCIDR
      (Status (final (reconcile (L := IPv4.lib) (R := Sample.repo)
                        (Sample.env Sample.respecified) Sample.respecified)))
    = "10.98.0.0/16".
Proof. vm_compute. repeat split. Qed.

(** ** The lookup of the service range *)

Section Lookup.

Context {L : GoLib} {R : Repo} (E : Env).

(** In shared mode with no service range in the spec, the recorded range is
    what the lookup returns, or the default when the lookup returns an
    error. *)
Lemma serviceCIDRFor_lookup spec c :
  Spec.Mode spec = SharedClusterMode → Spec.ServiceCIDR spec = "" →
  serviceCIDRFor E spec
  = match result (lookupServiceCIDR E c) with
    | inr serviceCIDR => serviceCIDR
    | inl _ => defaultSharedServiceCIDR
    end
  ∧ lookupCalls E spec = calls (lookupServiceCIDR E c).
Proof.
  intros Hm Hs. unfold serviceCIDRFor, lookupCalls.
  rewrite !decide_True by done. by rewrite (lookupServiceCIDR_run E c).
Qed.

(** C10: in the pass of a shared-mode Cluster with no service range in its
    spec that gets to the address ranges, a range hint in the error of the
    failing Service decides.  If the hinted text does not parse,
    [lookupServiceCIDR] returns the parse error after that one call, the
    Pods are never listed in the pass, and the status ends with the default
    10.43.0.0/16.  If it parses, the status ends with the [String] of the
    parsed network, and so it does for the value of the first flagged
    argument of the kube-apiserver Pod when there is no hint. *)
Theorem hinted_range_is_parsed_or_defaulted c token :
  Spec.Mode (Spec c) = SharedClusterMode →
  Spec.ServiceCIDR (Spec c) = "" →
  result (reconcileToToken E c) = inr token →
  (∀ hint, rangeHintOf E = Some hint →
     match ParseCIDR (TrimSpace hint) with
     | inl err =>
         (∀ c', lookupServiceCIDR E c' = (inl err, c', [Create FailingService]))
         ∧ Status.ServiceCIDR (Status (final (reconcile E c))) = defaultSharedServiceCIDR
         ∧ Forall (λ w, ∀ ns ls, w ≠ ListPods ns ls) (calls (reconcile E c))
     | inr serviceCIDRAddr =>
         Status.ServiceCIDR (Status (final (reconcile E c)))
         = IPNet_String serviceCIDRAddr
     end)
  ∧ (∀ pod pods value serviceCIDRAddr,
       rangeHintOf E = None →
       env_ListPods E = inr (pod :: pods) →
       firstFlagged (Containers_0_Args pod) = Some value →
       ParseCIDR value = inr serviceCIDRAddr →
       Status.ServiceCIDR (Status (final (reconcile E c)))
       = IPNet_String serviceCIDRAddr).
Proof.
  intros Hm Hs Hok.
  destruct (reconcileToToken E c) as [[r c2] l] eqn:Hpre. outcome. subst r.
  destruct (reconcile_ranges E c token c2 l Hpre) as [_ Hsvc].
  destruct (serviceCIDRFor_lookup (Spec c) c Hm Hs) as [Hfor Hcalls].
  rewrite Hfor in Hsvc. split.
  - intros hint Hh.
    pose proof (lookupServiceCIDR_hinted E c hint Hh) as Hlook.
    rewrite Hlook in Hsvc, Hcalls. outcome.
    destruct (ParseCIDR (TrimSpace hint)) as [err|serviceCIDRAddr] eqn:Hparse; [|done].
    split; [| split; [done |]].
    + intros c'. rewrite (lookupServiceCIDR_hinted E c' hint Hh). by rewrite Hparse.
    + destruct (reconcile_reached E c token c2 l Hpre) as [_ ->]. outcome.
      rewrite Hcalls. rewrite !Forall_app. split; [| split].
      * pose proof (reconcileToToken_emits E c) as Hl. rewrite Hpre in Hl. outcome.
        eapply Forall_impl; [exact Hl |]. by intros [] [|[|]].
      * by repeat constructor.
      * eapply Forall_impl; [apply reconcileResources_emits |]. by intros [].
  - intros pod pods value serviceCIDRAddr Hh Hl Hf Hparse.
    rewrite (lookupServiceCIDR_unhinted E c Hh) in Hsvc.
    rewrite (lookupFromPods_flagged E c pod pods value Hl Hf) in Hsvc.
    outcome. by rewrite Hparse in Hsvc.
Qed.

(** C3, what the code does: when the rejection carries no hint and the
    listing of the Pods succeeds (or is not found) without a Pod whose
    arguments yield a range, [lookupServiceCIDR] returns the empty string
    and no error, and the pass of a shared-mode Cluster with no service
    range in its spec ends with an empty [Status.ServiceCIDR], not with the
    default; the lookup does not fail the pass. *)
Theorem lookup_miss_leaves_service_range_empty c token :
  Spec.Mode (Spec c) = SharedClusterMode →
  Spec.ServiceCIDR (Spec c) = "" →
  result (reconcileToToken E c) = inr token →
  rangeHintOf E = None →
  match env_ListPods E with
  | inl err => IsNotFound err = true
  | inr [] => True
  | inr (pod :: _) => scanArgs (Containers_0_Args pod) = None
  end →
  result (lookupServiceCIDR E c) = inr ""
  ∧ Status.ServiceCIDR (Status (final (reconcile E c))) = ""
  ∧ result (reconcile E c)
    = result (reconcileResources E token (withRanges E (final (reconcileToToken E c)))).
Proof.
  intros Hm Hs Hok Hh Hl.
  destruct (reconcileToToken E c) as [[r c2] l] eqn:Hpre. outcome. subst r.
  destruct (reconcile_ranges E c token c2 l Hpre) as [_ Hsvc].
  destruct (serviceCIDRFor_lookup (Spec c) c Hm Hs) as [Hfor _].
  rewrite Hfor in Hsvc.
  rewrite (lookupServiceCIDR_unhinted E c Hh) in *.
  rewrite (lookupFromPods_miss E c Hl) in *. outcome.
  split; [done | split; [done |]].
  by destruct (reconcile_reached E c token c2 l Hpre) as [_ ->].
Qed.

End Lookup.

Lemma hinted_range_is_parsed_or_defaulted_witness :
  (Status.ServiceCIDR
     (Status (final (reconcile (L := IPv4.lib) (R := Sample.repo)
                       (Sample.envBadHint (Sample.cluster "c1" SharedClusterMode))
                       (Sample.cluster "c1" SharedClusterMode))))
   = "10.43.0.0/16"
   ∧ Forall (λ w, ∀ ns ls, w ≠ ListPods ns ls)
       (calls (reconcile (L := IPv4.lib) (R := Sample.repo)
                 (Sample.envBadHint (Sample.cluster "c1" SharedClusterMode))
                 (Sample.cluster "c1" SharedClusterMode))))
  ∧ Status.ServiceCIDR
      (Status (final (reconcile (L := IPv4.lib) (R := Sample.repo)
                        (Sample.env (Sample.cluster "c1" SharedClusterMode))
                        (Sample.cluster "c1" SharedClusterMode))))
    = "10.96.0.0/12"
  ∧ Status.ServiceCIDR
      (Status (final (reconcile (L := IPv4.lib) (R := Sample.repo)
                        (Sample.envPodFlag (Sample.cluster "c1" SharedClusterMode))
                        (Sample.cluster "c1" SharedClusterMode))))
    = "10.96.0.0/12".
Proof.
  split; [| split].
  - exact (proj2 (proj1 (hinted_range_is_parsed_or_defaulted (L := IPv4.lib) (R := Sample.repo)
                           (Sample.envBadHint (Sample.cluster "c1" SharedClusterMode))
                           (Sample.cluster "c1" SharedClusterMode) "token"
                           eq_refl eq_refl eq_refl)
                   "unknown" eq_refl)).
  - exact (proj1 (hinted_range_is_parsed_or_defaulted (L := IPv4.lib) (R := Sample.repo)
                    (Sample.env (Sample.cluster "c1" SharedClusterMode))
                    (Sample.cluster "c1" SharedClusterMode) "token"
                    eq_refl eq_refl eq_refl)
            "10.96.0.7/12" eq_refl).
  - exact (proj2 (hinted_range_is_parsed_or_defaulted (L := IPv4.lib) (R := Sample.repo)
                    (Sample.envPodFlag (Sample.cluster "c1" SharedClusterMode))
                    (Sample.cluster "c1" SharedClusterMode) "token"
                    eq_refl eq_refl eq_refl)
            {| Containers_0_Args :=
                 ["kube-apiserver"; "--service-cluster-ip-range=10.96.0.7/12"] |}
            [] "10.96.0.7/12"
            {| IPv4.address := 174063616; IPv4.prefix := 12 |}
            eq_refl eq_refl eq_refl eq_refl).
Defined.

Lemma lookup_miss_leaves_service_range_empty_witness :
  result (lookupServiceCIDR (L := IPv4.lib)
            (Sample.envNoHint (Sample.cluster "c1" SharedClusterMode))
            (Sample.cluster "c1" SharedClusterMode)) = inr ""
  ∧ Status.ServiceCIDR
      (Status (final (reconcile (L := IPv4.lib) (R := Sample.repo)
                        (Sample.envNoHint (Sample.cluster "c1" SharedClusterMode))
                        (Sample.cluster "c1" SharedClusterMode))))
    = ""
  ∧ result (reconcile (L := IPv4.lib) (R := Sample.repo)
              (Sample.envNoHint (Sample.cluster "c1" SharedClusterMode))
              (Sample.cluster "c1" SharedClusterMode)) = inr tt.
Proof.
  destruct (lookup_miss_leaves_service_range_empty (L := IPv4.lib) (R := Sample.repo)
              (Sample.envNoHint (Sample.cluster "c1" SharedClusterMode))
              (Sample.cluster "c1" SharedClusterMode) "token"
              eq_refl eq_refl eq_refl eq_refl I) as (H1 & H2 & H3).
  split; [exact H1 | split; [exact H2 |]].
  rewrite H3. vm_compute. reflexivity.
Defined.

(** ** The agent and its ports *)

Section Agent.

Context {L : GoLib} {R : Repo} (E : Env).

Lemma reconcileResources_split token c :
  reconcileResources E token c
  = (serviceIP <- resourcesBeforeAgent E ;;
     ensureAgent E serviceIP token ;;;
     resourcesAfterAgent E serviceIP token) c.
Proof.
  unfold reconcileResources, resourcesBeforeAgent.
  change (ensureIngress E ;;; ensureBootstrapSecret E ?ip token ;;;
          ensureKubeconfigSecret E ?ip ;;; bindClusterRoles E)
    with (resourcesAfterAgent E ip token).
  unfold bind, ret.
  destruct (ensureNetworkPolicy E c) as [[[e|[]] c1] l1]; [done |].
  destruct (ensureClusterService E c1) as [[[e|serviceIP] c2] l2]; [done |].
  destruct (createClusterConfigs E serviceIP c2) as [[[e|[]] c3] l3]; [done |].
  destruct (server E c3) as [[[e|[]] c4] l4]; [done |].
  destruct (ensureAgent E serviceIP token c4) as [[[e|[]] c5] l5].
  - by rewrite !app_nil_r, <- !app_assoc.
  - destruct (resourcesAfterAgent E serviceIP token c5) as [[r c6] l6].
    by rewrite !app_nil_r, <- !app_assoc.
Qed.

Lemma resourcesBeforeAgent_keeps : keeps eq (resourcesBeforeAgent E).
Proof.
  unfold resourcesBeforeAgent. pass.
  - apply ensureNetworkPolicy_keeps.
  - apply ensureClusterService_keeps.
  - apply createClusterConfigs_keeps.
  - apply server_keeps.
Qed.

Lemma resourcesBeforeAgent_emits :
  emits (λ w, w ≠ AllocateKubeletPort ∧ w ≠ AllocateWebhookPort) (resourcesBeforeAgent E).
Proof.
  unfold resourcesBeforeAgent, ensureNetworkPolicy, ensureClusterService,
    createClusterConfigs, server, createIfAbsent.
  pass.
Qed.

Lemma ensureAgent_kubelet_fails serviceIP token c err :
  Spec.Mode (Spec c) ≠ VirtualNodeMode →
  Spec.MirrorHostNodes (Spec c) = true →
  env_AllocateKubeletPort E = inl err →
  ensureAgent E serviceIP token c = (inl err, c, [AllocateKubeletPort]).
Proof.
  intros Hm Hmirror Hk. unfold ensureAgent, bind, get, call.
  rewrite decide_False by done. by rewrite Hmirror, Hk.
Qed.

Lemma ensureAgent_webhook_fails serviceIP token c kubeletPort err :
  Spec.Mode (Spec c) ≠ VirtualNodeMode →
  Spec.MirrorHostNodes (Spec c) = true →
  env_AllocateKubeletPort E = inr kubeletPort →
  env_AllocateWebhookPort E = inl err →
  ensureAgent E serviceIP token c
  = (inl err, with_Status (Status.set_KubeletPort kubeletPort) c,
     [AllocateKubeletPort; AllocateWebhookPort]).
Proof.
  intros Hm Hmirror Hk Hw. unfold ensureAgent, bind, get, call, setStatus, modify.
  rewrite decide_False by done. by rewrite Hmirror, Hk, Hw.
Qed.

(** A pass in which an allocation is attempted has come, through every
    earlier step, to [ensureAgent], with the ports it started with. *)
Lemma reconcile_to_agent c w :
  w = AllocateKubeletPort ∨ w = AllocateWebhookPort →
  w ∈ calls (reconcile E c) →
  ∃ token serviceIP c3 before,
    Spec c3 = Spec c
    ∧ portsOf (Status c3) = portsOf (Status c)
    ∧ reconcile E c
      = (result ((ensureAgent E serviceIP token ;;;
                  resourcesAfterAgent E serviceIP token) c3),
         final ((ensureAgent E serviceIP token ;;;
                 resourcesAfterAgent E serviceIP token) c3),
         before ++ calls ((ensureAgent E serviceIP token ;;;
                           resourcesAfterAgent E serviceIP token) c3))
    ∧ w ∉ before.
Proof.
  intros Hw Hin.
  assert (Hstep : stepOf w = ResourceStep) by (by destruct Hw as [-> | ->]).
  pose proof (reconcileToToken_emits E c) as Hpre_calls.
  pose proof (reconcileToToken_keeps E (λ c, portsOf (Status c))
                (λ _ _, eq_refl) (λ _ _, eq_refl) c) as Hports.
  destruct (reconcileToToken E c) as [[[e|token] c2] l] eqn:Hpre; outcome.
  { rewrite (reconcile_stops E c e c2 l Hpre) in Hin. outcome.
    eapply Forall_forall in Hpre_calls; [|done].
    rewrite Hstep in Hpre_calls. by destruct Hpre_calls as [|[|]]. }
  destruct (reconcile_reached E c token c2 l Hpre) as [Hspec Hrun].
  assert (Hl : w ∉ l).
  { intros Hin'. eapply Forall_forall in Hpre_calls; [|done].
    rewrite Hstep in Hpre_calls. by destruct Hpre_calls as [|[|]]. }
  assert (Hlook : w ∉ lookupCalls E (Spec c)).
  { intros Hin'. unfold lookupCalls in Hin'.
    repeat case_match; try (by apply elem_of_nil in Hin').
    pose proof (lookupServiceCIDR_emits E zeroCluster) as Hlk.
    eapply Forall_forall in Hlk; [|done]. by rewrite Hstep in Hlk. }
  set (c3 := withRanges E c2) in *.
  rewrite reconcileResources_split in Hrun.
  pose proof (resourcesBeforeAgent_keeps c3) as Hsame.
  pose proof (resourcesBeforeAgent_emits c3) as Hbefore.
  destruct (bind_cases (resourcesBeforeAgent E)
              (λ serviceIP, ensureAgent E serviceIP token ;;;
                            resourcesAfterAgent E serviceIP token) c3)
    as [(e & _ & Hb)|(serviceIP & _ & Hb)]; rewrite Hb in Hrun; outcome.
  { rewrite Hrun in Hin. outcome. rewrite !elem_of_app in Hin.
    destruct Hin as [?|[?|Hin]]; [done | done |].
    eapply Forall_forall in Hbefore; [|done]. by destruct Hw as [-> | ->], Hbefore. }
  rewrite <- Hsame in Hrun. rewrite Hrun.
  exists token, serviceIP, c3, (l ++ lookupCalls E (Spec c) ++ calls (resourcesBeforeAgent E c3)).
  split; [done |]. split; [exact Hports |]. split; [by rewrite <- !app_assoc |].
  rewrite !elem_of_app. intros [?|[?|Hin']]; [done | done |].
  eapply Forall_forall in Hbefore; [|done]. by destruct Hw as [-> | ->], Hbefore.
Qed.

(** The two failures, on the Cluster as convergence leaves it. *)
Lemma kubelet_allocation_failure c err :
  Spec.Mode (Spec c) = SharedClusterMode →
  Spec.MirrorHostNodes (Spec c) = true →
  env_AllocateKubeletPort E = inl err →
  AllocateKubeletPort ∈ calls (reconcile E c) →
  result (reconcile E c) = inl err
  ∧ portsOf (Status (final (reconcile E c))) = portsOf (Status c).
Proof.
  intros Hm Hmirror Hk Hin.
  destruct (reconcile_to_agent c AllocateKubeletPort (or_introl eq_refl) Hin)
    as (token & serviceIP & c3 & before & Hspec & Hports & -> & _).
  rewrite (bind_inl _ _ _ _ _ _
             (ensureAgent_kubelet_fails serviceIP token c3 err
                ltac:(rewrite Hspec, Hm; discriminate) ltac:(by rewrite Hspec) Hk)).
  by outcome.
Qed.

Lemma webhook_allocation_failure c err :
  Spec.Mode (Spec c) = SharedClusterMode →
  Spec.MirrorHostNodes (Spec c) = true →
  env_AllocateWebhookPort E = inl err →
  AllocateWebhookPort ∈ calls (reconcile E c) →
  ∃ kubeletPort,
    env_AllocateKubeletPort E = inr kubeletPort
    ∧ result (reconcile E c) = inl err
    ∧ portsOf (Status (final (reconcile E c)))
      = (kubeletPort, Status.WebhookPort (Status c)).
Proof.
  intros Hm Hmirror Hw Hin.
  destruct (reconcile_to_agent c AllocateWebhookPort (or_intror eq_refl) Hin)
    as (token & serviceIP & c3 & before & Hspec & Hports & Hrun & Hbefore).
  assert (Hm3 : Spec.Mode (Spec c3) ≠ VirtualNodeMode) by (rewrite Hspec, Hm; discriminate).
  assert (Hmirror3 : Spec.MirrorHostNodes (Spec c3) = true) by (by rewrite Hspec).
  destruct (env_AllocateKubeletPort E) as [kerr|kubeletPort] eqn:Hk.
  { rewrite Hrun in Hin.
    rewrite (bind_inl _ _ _ _ _ _
               (ensureAgent_kubelet_fails serviceIP token c3 kerr Hm3 Hmirror3 Hk)) in Hin.
    outcome. rewrite elem_of_app in Hin. destruct Hin as [?|Hin]; [done |].
    by apply list_elem_of_singleton in Hin. }
  exists kubeletPort. split; [done |]. rewrite Hrun.
  rewrite (bind_inl _ _ _ _ _ _
             (ensureAgent_webhook_fails serviceIP token c3 kubeletPort err
                Hm3 Hmirror3 Hk Hw)).
  outcome. split; [done |]. injection Hports as _ Hwp. unfold portsOf. cbn. by rewrite Hwp.
Qed.

End Agent.

(** ** The engine: [Reconcile] *)

Section Engine.

Context {L : GoLib} {R : Repo} (E : Env).

Lemma reconcileCluster_run c :
  reconcileCluster E c
  = (result (reconcile E c),
     updateStatus (final (reconcile E c)) (error_of (result (reconcile E c))),
     calls (reconcile E c)).
Proof.
  unfold reconcileCluster, bind, attempt, modify, returning.
  destruct (reconcile E c) as [[[e|[]] c1] l]; cbn; by rewrite ?app_nil_r.
Qed.

(** Convergence itself never writes the Cluster or its status. *)
Lemma reconcile_emits : emits (λ w, stepOf w ≠ EngineStep) (reconcile E).
Proof.
  intros c. rewrite reconcile_split.
  apply (emits_bind _ (reconcileToToken E) (λ token, reconcileFromRanges E token)).
  - eapply emits_weaken; [apply reconcileToToken_emits |]. by intros w [-> | [-> | ->]].
  - intros token. eapply emits_weaken; [apply reconcileFromRanges_emits |].
    by intros w [-> | ->].
Qed.

Lemma persistedStatus_app l1 l2 :
  persistedStatus E (l1 ++ l2)
  = match persistedStatus E l2 with
    | Some s => Some s
    | None => persistedStatus E l1
    end.
Proof.
  induction l1 as [|w l1 IH]; cbn [app persistedStatus].
  - by destruct (persistedStatus E l2).
  - rewrite IH. by destruct (persistedStatus E l2).
Qed.

Lemma persistedStatus_none l :
  Forall (λ w, isStatusUpdate w = false) l → persistedStatus E l = None.
Proof.
  induction 1 as [|w l Hw _ IH]; [done |].
  cbn [persistedStatus]. rewrite IH. by destruct w.
Qed.

Lemma reconcile_persists_nothing c :
  Forall (λ w, isStatusUpdate w = false) (calls (reconcile E c)).
Proof. eapply Forall_impl; [apply reconcile_emits |]. by intros []. Qed.

(** The pass from the snapshot on, in one equation: the result, the Cluster
    and the calls, by the outcome of convergence and of the two writes. *)
Lemma reconcileAndPersist_run c :
  reconcileAndPersist E c
  = (match statusWrite E c (final (reconcileCluster E c)) with
     | Some err => inl err
     | None =>
         match result (reconcileCluster E c) with
         | inl reconcilerErr =>
             if errors_Is reconcilerErr ErrServerNotReady
             then inr {| Requeue := false; RequeueAfter := Second * 10 |}
             else inl reconcilerErr
         | inr _ =>
             match specWrite E c (final (reconcileCluster E c)) with
             | Some err => inl err
             | None => inr emptyResult
             end
         end
     end,
     final (reconcileCluster E c),
     calls (reconcileCluster E c)
     ++ (if decide (Status c = Status (final (reconcileCluster E c))) then []
         else [StatusUpdate (final (reconcileCluster E c))])
     ++ (match statusWrite E c (final (reconcileCluster E c)),
               result (reconcileCluster E c) with
         | None, inr _ =>
             if decide (Spec c = Spec (final (reconcileCluster E c))) then []
             else [Update (final (reconcileCluster E c))]
         | _, _ => []
         end)).
Proof.
  unfold reconcileAndPersist, statusWrite, specWrite, bind, get, attempt, call_, observe,
    returning, ret, fail.
  destruct (reconcileCluster E c) as [[r c'] l]. outcome.
  destruct (decide (Status c = Status c')) as [Hs|Hs]; cbn [app].
  - destruct r as [e|[]].
    + destruct (errors_Is e ErrServerNotReady); by rewrite ?app_nil_r.
    + destruct (decide (Spec c = Spec c')); [by rewrite ?app_nil_r |].
      destruct (env_err E (Update c')); by rewrite ?app_nil_r.
  - destruct (env_err E (StatusUpdate c')) as [werr|]; [by rewrite ?app_nil_r |].
    destruct r as [e|[]].
    + destruct (errors_Is e ErrServerNotReady); by rewrite ?app_nil_r.
    + destruct (decide (Spec c = Spec c')); [by rewrite ?app_nil_r |].
      destruct (env_err E (Update c')); by rewrite ?app_nil_r.
Qed.

(** A Cluster past the three gates goes from the snapshot on. *)
Lemma Reconcile_converging req c :
  env_GetCluster E req = inr c → converging c →
  Reconcile E req
  = (result (reconcileAndPersist E c), final (reconcileAndPersist E c),
     GetCluster req :: calls (reconcileAndPersist E c)).
Proof.
  intros Hget (Hdel & Hp1 & Hp2 & Hfin).
  unfold Reconcile, bind at 1, observe. rewrite Hget.
  unfold bind at 1, put, reconcileLoaded, bind at 1, get.
  rewrite Hdel. cbn [is_Some bool_decide].
  rewrite bool_decide_eq_false_2 by (by intros [? ?]).
  rewrite !bool_decide_eq_false_2 by done. cbn [orb].
  unfold AddFinalizer. rewrite bool_decide_eq_true_2 by done.
  by destruct (reconcileAndPersist E c) as [[r c'] l].
Qed.

(** [meta.SetStatusCondition] leaves a condition of the given type with the
    given status, reason and message. *)
Lemma FindStatusCondition_Set now conditions newCondition :
  ∃ found,
    FindStatusCondition (SetStatusCondition now conditions newCondition)
      (Condition_Type newCondition) = Some found
    ∧ Condition_Status found = Condition_Status newCondition
    ∧ Condition_Reason found = Condition_Reason newCondition
    ∧ Condition_Message found = Condition_Message newCondition.
Proof.
  induction conditions as [|existing rest IH]; cbn [SetStatusCondition].
  - eexists. cbn [FindStatusCondition]. by rewrite decide_True.
  - destruct (decide (Condition_Type existing = Condition_Type newCondition)) as [Ht|Ht].
    + eexists. cbn [FindStatusCondition]. by rewrite decide_True.
    + cbn [FindStatusCondition]. by rewrite decide_False.
Qed.

(** C4: in a pass that gets to convergence, the status is compared with the
    status of the Cluster as it was loaded, before convergence ran; the pass
    makes one status write, with the Cluster as convergence left it, when
    the two differ, and none when they are equal, whatever convergence
    returned; the write follows every call of convergence. *)
Theorem status_written_iff_changed req c :
  env_GetCluster E req = inr c →
  converging c →
  List.filter isStatusUpdate (calls (Reconcile E req))
  = (if decide (Status c = Status (final (reconcileCluster E c))) then []
     else [StatusUpdate (final (reconcileCluster E c))])
  ∧ ∃ tail,
      calls (Reconcile E req)
      = GetCluster req :: calls (reconcile E c)
        ++ (if decide (Status c = Status (final (reconcileCluster E c))) then []
            else [StatusUpdate (final (reconcileCluster E c))])
        ++ tail
      ∧ Forall (λ w, isStatusUpdate w = false) tail.
Proof.
  intros Hget Hconv.
  rewrite (Reconcile_converging req c Hget Hconv), reconcileAndPersist_run. outcome.
  set (c' := final (reconcileCluster E c)).
  assert (Hcalls : calls (reconcileCluster E c) = calls (reconcile E c))
    by (by rewrite reconcileCluster_run).
  rewrite Hcalls.
  set (tail := match statusWrite E c c', result (reconcileCluster E c) with
               | None, inr _ => if decide (Spec c = Spec c') then [] else [Update c']
               | _, _ => []
               end).
  assert (Htail : Forall (λ w, isStatusUpdate w = false) tail).
  { unfold tail. repeat case_match; by repeat constructor. }
  split; [| by exists tail].
  cbn [List.filter isStatusUpdate]. rewrite !List.filter_app.
  assert (Hnone : ∀ l, Forall (λ w, isStatusUpdate w = false) l → List.filter isStatusUpdate l = []).
  { induction 1 as [|w l Hw _ IH]; [done |]. cbn [List.filter]. by rewrite Hw. }
  rewrite (Hnone _ (reconcile_persists_nothing c)), (Hnone _ Htail), app_nil_r.
  by destruct (decide (Status c = Status c')).
Qed.

(** The pass of a Cluster whose phase is not set yet. *)
Lemma Reconcile_initial req c :
  env_GetCluster E req = inr c →
  DeletionTimestamp c = None →
  Status.Phase (Status c) = "" ∨ Status.Phase (Status c) = ClusterUnknown →
  Reconcile E req
  = (match env_err E (StatusUpdate
                        (with_Status (λ s, Status.set_Conditions
                           (SetStatusCondition (env_Now E) (Status.Conditions s)
                              provisioningCondition) s)
                           (with_Status (Status.set_Phase ClusterProvisioning) c))) with
     | None => inr {| Requeue := true; RequeueAfter := 0 |}
     | Some err => inl err
     end,
     with_Status (λ s, Status.set_Conditions
       (SetStatusCondition (env_Now E) (Status.Conditions s) provisioningCondition) s)
       (with_Status (Status.set_Phase ClusterProvisioning) c),
     [GetCluster req;
      StatusUpdate
        (with_Status (λ s, Status.set_Conditions
           (SetStatusCondition (env_Now E) (Status.Conditions s) provisioningCondition) s)
           (with_Status (Status.set_Phase ClusterProvisioning) c))]).
Proof.
  intros Hget Hdel Hphase.
  assert (Hor : bool_decide (Status.Phase (Status c) = "")
                || bool_decide (Status.Phase (Status c) = ClusterUnknown) = true).
  { apply orb_true_iff. destruct Hphase as [H|H]; [left | right];
      by apply bool_decide_eq_true_2. }
  unfold Reconcile, reconcileLoaded, bind, observe, put, get, setStatus, modify,
    call_, observe, returning, ret, fail.
  rewrite Hget, Hdel, Hor. cbn [is_Some bool_decide].
  rewrite bool_decide_eq_false_2 by (by intros [? ?]).
  by destruct (env_err E (StatusUpdate _)).
Qed.

(** C5: a Cluster that is not being deleted and whose phase is empty or
    [Unknown] gets a pass of two calls, the load and one status write.  The
    status written has the phase [Provisioning] and a [Ready] condition with
    status false and reason "Provisioning"; the spec is untouched.  The pass
    asks for an immediate requeue when the write is accepted, and returns
    the error of the write otherwise. *)
Theorem initial_status_then_requeue req c :
  env_GetCluster E req = inr c →
  DeletionTimestamp c = None →
  Status.Phase (Status c) = "" ∨ Status.Phase (Status c) = ClusterUnknown →
  ∃ c' ready,
    calls (Reconcile E req) = [GetCluster req; StatusUpdate c']
    ∧ Spec c' = Spec c
    ∧ Status.Phase (Status c') = ClusterProvisioning
    ∧ FindStatusCondition (Status.Conditions (Status c')) ConditionReady = Some ready
    ∧ Condition_Status ready = ConditionFalse
    ∧ Condition_Reason ready = ReasonProvisioning
    ∧ result (Reconcile E req)
      = match env_err E (StatusUpdate c') with
        | None => inr {| Requeue := true; RequeueAfter := 0 |}
        | Some err => inl err
        end.
Proof.
  intros Hget Hdel Hphase.
  destruct (FindStatusCondition_Set (env_Now E) (Status.Conditions (Status c))
              provisioningCondition) as (ready & Hfind & Hst & Hre & _).
  rewrite (Reconcile_initial req c Hget Hdel Hphase). outcome.
  eexists _, ready. split; [reflexivity |]. by repeat split.
Qed.

(** C6: a pass whose convergence fails and that gets to the classification
    of the error (lines 199-207: the status write before it is accepted, or
    not needed) succeeds with a requeue after ten seconds when [errors.Is]
    recognises [ErrServerNotReady] in the error of convergence, and fails
    with that error otherwise.  The only other outcome is the failure of
    line 195, with the error of a rejected status write. *)
Theorem server_not_ready_is_delayed_retry req c reconcilerErr :
  env_GetCluster E req = inr c →
  converging c →
  result (reconcileCluster E c) = inl reconcilerErr →
  result (Reconcile E req)
  = match statusWrite E c (final (reconcileCluster E c)) with
    | None =>
        if errors_Is reconcilerErr ErrServerNotReady
        then inr {| Requeue := false; RequeueAfter := 10 * Second |}
        else inl reconcilerErr
    | Some err => inl err
    end.
Proof.
  intros Hget Hconv Herr.
  rewrite (Reconcile_converging req c Hget Hconv), reconcileAndPersist_run. outcome.
  rewrite Herr. by destruct (statusWrite E c _).
Qed.

End Engine.

Lemma Sample_converging name mode : converging (Sample.cluster name mode).
Proof.
  repeat split; try discriminate. by apply list_elem_of_singleton.
Defined.

Lemma status_written_iff_changed_witness :
  List.filter isStatusUpdate
    (calls (Reconcile (L := IPv4.lib) (R := Sample.repo)
              (Sample.env (Sample.cluster "c1" SharedClusterMode)) Sample.key))
  = [StatusUpdate
       (final (reconcileCluster (L := IPv4.lib) (R := Sample.repo)
                 (Sample.env (Sample.cluster "c1" SharedClusterMode))
                 (Sample.cluster "c1" SharedClusterMode)))].
Proof.
  etrans.
  - apply (status_written_iff_changed (L := IPv4.lib) (R := Sample.repo)
             (Sample.env (Sample.cluster "c1" SharedClusterMode)) Sample.key
             (Sample.cluster "c1" SharedClusterMode)).
    + reflexivity.
    + apply Sample_converging.
  - rewrite decide_False; [reflexivity |]. vm_compute. discriminate.
Defined.

Lemma initial_status_then_requeue_witness :
  ∃ c' ready,
    calls (Reconcile (L := IPv4.lib) (R := Sample.repo) (Sample.env Sample.fresh) Sample.key)
    = [GetCluster Sample.key; StatusUpdate c']
    ∧ Spec c' = Spec Sample.fresh
    ∧ Status.Phase (Status c') = ClusterProvisioning
    ∧ FindStatusCondition (Status.Conditions (Status c')) ConditionReady = Some ready
    ∧ Condition_Status ready = ConditionFalse
    ∧ Condition_Reason ready = ReasonProvisioning
    ∧ result (Reconcile (L := IPv4.lib) (R := Sample.repo) (Sample.env Sample.fresh)
                Sample.key)
      = match env_err (Sample.env Sample.fresh) (StatusUpdate c') with
        | None => inr {| Requeue := true; RequeueAfter := 0 |}
        | Some err => inl err
        end.
Proof.
  apply (initial_status_then_requeue (L := IPv4.lib) (R := Sample.repo)
           (Sample.env Sample.fresh) Sample.key Sample.fresh).
  - reflexivity.
  - reflexivity.
  - left. reflexivity.
Defined.

Lemma server_not_ready_is_delayed_retry_witness :
  result (Reconcile (L := IPv4.lib) (R := Sample.repo)
            (Sample.envNotReady (Sample.cluster "c1" SharedClusterMode)) Sample.key)
  = inr {| Requeue := false; RequeueAfter := 10000000000 |}.
Proof.
  etrans.
  - apply (server_not_ready_is_delayed_retry (L := IPv4.lib) (R := Sample.repo)
             (Sample.envNotReady (Sample.cluster "c1" SharedClusterMode)) Sample.key
             (Sample.cluster "c1" SharedClusterMode) ErrServerNotReady).
    + reflexivity.
    + apply Sample_converging.
    + vm_compute. reflexivity.
  - vm_compute. reflexivity.
Defined.

(** Line 195 on a concrete host: convergence fails with
    [ErrServerNotReady], the status has changed and the API server rejects
    the status write; the pass returns the error of the write. *)
Example rejected_status_write_is_returned :
  result (reconcileCluster (L := IPv4.lib) (R := Sample.repo)
            (Sample.envNotReadyConflict (Sample.cluster "c1" SharedClusterMode))
            (Sample.cluster "c1" SharedClusterMode))
  = inl ErrServerNotReady
  ∧
  result (Reconcile (L := IPv4.lib) (R := Sample.repo)
            (Sample.envNotReadyConflict (Sample.cluster "c1" SharedClusterMode)) Sample.key)
    = inl (StatusError "Conflict" "object has been modified").
Proof. vm_compute. split; reflexivity. Qed.

(** ** Port allocation and the persisted status *)

Section Ports.

Context {L : GoLib} {R : Repo} (E : Env).

(** What a pass that gets to convergence persists: the status as
    convergence left it, when it is not the status of the snapshot and the
    API server accepts the write. *)
Lemma persistedStatus_Reconcile req c :
  env_GetCluster E req = inr c → converging c →
  final (Reconcile E req) = final (reconcileCluster E c)
  ∧ persistedStatus E (calls (Reconcile E req))
    = if decide (Status c = Status (final (reconcileCluster E c))) then None
      else match env_err E (StatusUpdate (final (reconcileCluster E c))) with
           | None => Some (Status (final (reconcileCluster E c)))
           | Some _ => None
           end.
Proof.
  intros Hget Hconv.
  rewrite (Reconcile_converging E req c Hget Hconv), reconcileAndPersist_run. outcome.
  split; [done |].
  set (c' := final (reconcileCluster E c)).
  change (GetCluster req :: ?l) with ([GetCluster req] ++ l).
  rewrite !persistedStatus_app.
  assert (Hrec : persistedStatus E (calls (reconcileCluster E c)) = None).
  { rewrite reconcileCluster_run. outcome.
    apply persistedStatus_none, reconcile_persists_nothing. }
  rewrite Hrec.
  assert (Htail : persistedStatus E
                    match statusWrite E c c', result (reconcileCluster E c) with
                    | None, inr _ => if decide (Spec c = Spec c') then [] else [Update c']
                    | _, _ => []
                    end = None) by (by repeat case_match).
  rewrite Htail. destruct (decide (Status c = Status c')); [done |].
  cbn [persistedStatus]. by destruct (env_err E (StatusUpdate c')).
Qed.

(** C1, as the code has it: in the pass of a shared-mode Cluster that
    mirrors the host nodes, a failed kubelet allocation leaves both port
    fields as they were loaded; a failed webhook allocation comes after a
    kubelet allocation that succeeded and whose port is already in
    [Status.KubeletPort], while [Status.WebhookPort] is as it was loaded.
    That status is the one the pass persists when it is not the status of
    the snapshot and the API server accepts the write. *)
Theorem failed_allocation_and_recorded_ports req c :
  keepsPorts R →
  env_GetCluster E req = inr c →
  converging c →
  Spec.Mode (Spec c) = SharedClusterMode →
  Spec.MirrorHostNodes (Spec c) = true →
  (∀ err,
     env_AllocateKubeletPort E = inl err →
     AllocateKubeletPort ∈ calls (Reconcile E req) →
     portsOf (Status (final (Reconcile E req))) = portsOf (Status c))
  ∧ (∀ err,
       env_AllocateWebhookPort E = inl err →
       AllocateWebhookPort ∈ calls (Reconcile E req) →
       ∃ kubeletPort,
         env_AllocateKubeletPort E = inr kubeletPort
         ∧ portsOf (Status (final (Reconcile E req)))
           = (kubeletPort, Status.WebhookPort (Status c)))
  ∧ persistedStatus E (calls (Reconcile E req))
    = if decide (Status c = Status (final (Reconcile E req))) then None
      else match env_err E (StatusUpdate (final (Reconcile E req))) with
           | None => Some (Status (final (Reconcile E req)))
           | Some _ => None
           end.
Proof.
  intros Hkeep Hget Hconv Hm Hmirror.
  destruct (persistedStatus_Reconcile req c Hget Hconv) as [Hfinal Hpersisted].
  rewrite Hfinal.
  assert (Hin : ∀ w, stepOf w = ResourceStep →
                     w ∈ calls (Reconcile E req) → w ∈ calls (reconcile E c)).
  { intros w Hstep.
    rewrite (Reconcile_converging E req c Hget Hconv), reconcileAndPersist_run. outcome.
    rewrite reconcileCluster_run. outcome.
    rewrite elem_of_cons, !elem_of_app. intros [Hw|[?|[Hw|Hw]]]; [| done | |].
    - by subst w.
    - repeat case_match; try (by apply elem_of_nil in Hw);
        apply list_elem_of_singleton in Hw; by subst w.
    - repeat case_match; try (by apply elem_of_nil in Hw);
        apply list_elem_of_singleton in Hw; by subst w. }
  assert (Hupd : portsOf (Status (final (reconcileCluster E c)))
                 = portsOf (Status (final (reconcile E c)))).
  { rewrite reconcileCluster_run. outcome. apply Hkeep. }
  rewrite Hupd. split; [| split; [| exact Hpersisted]].
  - intros err Hk Hcall.
    by apply (kubelet_allocation_failure E c err Hm Hmirror Hk), Hin.
  - intros err Hw Hcall.
    destruct (webhook_allocation_failure E c err Hm Hmirror Hw
                (Hin AllocateWebhookPort eq_refl Hcall))
      as (kubeletPort & Hk & _ & Hports).
    by exists kubeletPort.
Qed.

End Ports.

Lemma Sample_keepsPorts : keepsPorts Sample.repo.
Proof. intros c [err|]; reflexivity. Defined.

Lemma Sample_mirrored_converging : converging Sample.mirrored.
Proof.
  repeat split; try discriminate. by apply list_elem_of_singleton.
Defined.

Lemma failed_allocation_and_recorded_ports_witness :
  portsOf (Status (final (Reconcile (L := IPv4.lib) (R := Sample.repo)
                            Sample.envKubeletFull Sample.key))) = (0, 0)%Z
  ∧ (∃ kubeletPort,
       env_AllocateKubeletPort Sample.envWebhookFull = inr kubeletPort
       ∧ portsOf (Status (final (Reconcile (L := IPv4.lib) (R := Sample.repo)
                                   Sample.envWebhookFull Sample.key)))
         = (kubeletPort, 0%Z)).
Proof.
  split.
  - apply (proj1 (failed_allocation_and_recorded_ports (L := IPv4.lib) (R := Sample.repo)
                    Sample.envKubeletFull Sample.key Sample.mirrored
                    Sample_keepsPorts eq_refl Sample_mirrored_converging eq_refl eq_refl)
             (Opaque "no free port in the kubelet range") eq_refl).
    vm_compute. repeat first [ by apply list_elem_of_here | apply list_elem_of_further ].
  - apply (proj1 (proj2 (failed_allocation_and_recorded_ports (L := IPv4.lib)
                           (R := Sample.repo)
                           Sample.envWebhookFull Sample.key Sample.mirrored
                           Sample_keepsPorts eq_refl Sample_mirrored_converging
                           eq_refl eq_refl))
             (Opaque "no free port in the webhook range") eq_refl).
    vm_compute. repeat first [ by apply list_elem_of_here | apply list_elem_of_further ].
Defined.

(** C1 as stated fails: the webhook allocation fails after the kubelet port
    has been recorded, and the status that the pass persists has the kubelet
    port alone. *)
Lemma partial_ports_persisted :
  env_AllocateWebhookPort Sample.envWebhookFull
  = inl (Opaque "no free port in the webhook range")
  ∧ Spec.Mode (Spec Sample.mirrored) = SharedClusterMode
  ∧ Spec.MirrorHostNodes (Spec Sample.mirrored) = true
  ∧ portsOf (Status Sample.mirrored) = (0, 0)%Z
  ∧ AllocateWebhookPort ∈ calls (Reconcile (L := IPv4.lib) (R := Sample.repo)
                                   Sample.envWebhookFull Sample.key)
  ∧ option_map portsOf
      (persistedStatus Sample.envWebhookFull
         (calls (Reconcile (L := IPv4.lib) (R := Sample.repo)
                   Sample.envWebhookFull Sample.key)))
    = Some (30001, 0)%Z
  ∧ match persistedStatus Sample.envWebhookFull
            (calls (Reconcile (L := IPv4.lib) (R := Sample.repo)
                      Sample.envWebhookFull Sample.key)) with
    | Some s => partialPorts s
    | None => False
    end.
Proof.
  vm_compute. repeat split.
  - repeat first [ by apply list_elem_of_here | apply list_elem_of_further ].
  - left. split; [discriminate | reflexivity].
Qed.

(** * Further properties of the controller *)

(** ** The gates of [Reconcile] *)

Section Gates.

Context {L : GoLib} {R : Repo} (E : Env).

Lemma Reconcile_load_failed req err :
  env_GetCluster E req = inl err →
  Reconcile E req
  = (if IsNotFound err then inr emptyResult else inl err, zeroCluster, [GetCluster req]).
Proof.
  intros Hget. unfold Reconcile, bind, observe, returning, IgnoreNotFound, ret, fail.
  rewrite Hget. by destruct (IsNotFound err).
Qed.

Lemma Reconcile_deleting req c :
  env_GetCluster E req = inr c → is_Some (DeletionTimestamp c) →
  Reconcile E req = (env_finalizeCluster E c, c, [GetCluster req; FinalizeCluster]).
Proof.
  intros Hget Hdel. unfold Reconcile, reconcileLoaded, bind, observe, put, get, call.
  rewrite Hget. by rewrite bool_decide_eq_true_2.
Qed.

Lemma Reconcile_finalizer req c :
  env_GetCluster E req = inr c →
  DeletionTimestamp c = None →
  Status.Phase (Status c) ≠ "" → Status.Phase (Status c) ≠ ClusterUnknown →
  clusterFinalizerName ∉ Finalizers c →
  Reconcile E req
  = (match env_err E (Update (with_Finalizers (Finalizers c ++ [clusterFinalizerName]) c)) with
     | None => inr {| Requeue := true; RequeueAfter := 0 |}
     | Some err => inl err
     end,
     with_Finalizers (Finalizers c ++ [clusterFinalizerName]) c,
     [GetCluster req;
      Update (with_Finalizers (Finalizers c ++ [clusterFinalizerName]) c)]).
Proof.
  intros Hget Hdel Hp1 Hp2 Hfin.
  unfold Reconcile, reconcileLoaded, AddFinalizer, bind, observe, put, get, call_, observe,
    returning, ret, fail.
  rewrite Hget, Hdel. cbn [is_Some bool_decide].
  rewrite bool_decide_eq_false_2 by (by intros [? ?]).
  rewrite !bool_decide_eq_false_2 by done. cbn [orb].
  by destruct (env_err E (Update _)).
Qed.

(** The five ways a pass can go. *)
Lemma Reconcile_branches req :
  (∃ err, env_GetCluster E req = inl err
          ∧ Reconcile E req
            = (if IsNotFound err then inr emptyResult else inl err, zeroCluster,
               [GetCluster req]))
  ∨ ∃ c, env_GetCluster E req = inr c
         ∧ (Reconcile E req
            = (env_finalizeCluster E c, c, [GetCluster req; FinalizeCluster])
            ∨ (∃ c', Reconcile E req
                     = (match env_err E (StatusUpdate c') with
                        | None => inr {| Requeue := true; RequeueAfter := 0 |}
                        | Some err => inl err
                        end, c', [GetCluster req; StatusUpdate c']))
            ∨ (∃ c', Reconcile E req
                     = (match env_err E (Update c') with
                        | None => inr {| Requeue := true; RequeueAfter := 0 |}
                        | Some err => inl err
                        end, c', [GetCluster req; Update c']))
            ∨ (converging c
               ∧ Reconcile E req
                 = (result (reconcileAndPersist E c), final (reconcileAndPersist E c),
                    GetCluster req :: calls (reconcileAndPersist E c)))).
Proof.
  destruct (env_GetCluster E req) as [err|c] eqn:Hget.
  { left. exists err. split; [done |]. by rewrite (Reconcile_load_failed req err Hget). }
  right. exists c. split; [done |].
  destruct (DeletionTimestamp c) as [t|] eqn:Hdel.
  { left. by rewrite (Reconcile_deleting req c Hget) by (rewrite Hdel; eauto). }
  right.
  destruct (decide (Status.Phase (Status c) = "")) as [Hp1|Hp1].
  { left. eexists. by rewrite (Reconcile_initial E req c Hget Hdel) by (by left). }
  destruct (decide (Status.Phase (Status c) = ClusterUnknown)) as [Hp2|Hp2].
  { left. eexists. by rewrite (Reconcile_initial E req c Hget Hdel) by (by right). }
  right.
  destruct (decide (clusterFinalizerName ∈ Finalizers c)) as [Hfin|Hfin].
  - right. split; [done |]. by rewrite (Reconcile_converging E req c Hget).
  - left. eexists. by rewrite (Reconcile_finalizer req c Hget Hdel Hp1 Hp2 Hfin).
Qed.

(** X1: a Cluster that cannot be loaded ends the pass after the one read:
    with success and an empty result when the error is a not-found, with
    the error of the read otherwise. *)
Theorem missing_cluster_is_success req err :
  env_GetCluster E req = inl err →
  calls (Reconcile E req) = [GetCluster req]
  ∧ (IsNotFound err = true → result (Reconcile E req) = inr emptyResult)
  ∧ (IsNotFound err = false → result (Reconcile E req) = inl err).
Proof.
  intros Hget. rewrite (Reconcile_load_failed req err Hget). outcome.
  split; [done |]. by split; intros ->.
Qed.


(** X3: a Cluster that has its phase but not the finalizer gets a pass of
    one write: the Cluster with the finalizer appended and nothing else
    changed.  The pass asks for a requeue when the write is accepted, and
    the Cluster written is one that the next pass takes to convergence. *)
Theorem finalizer_is_added_before_convergence req c :
  env_GetCluster E req = inr c →
  DeletionTimestamp c = None →
  Status.Phase (Status c) ≠ "" → Status.Phase (Status c) ≠ ClusterUnknown →
  clusterFinalizerName ∉ Finalizers c →
  ∃ c',
    calls (Reconcile E req) = [GetCluster req; Update c']
    ∧ Finalizers c' = Finalizers c ++ [clusterFinalizerName]
    ∧ Spec c' = Spec c ∧ Status c' = Status c
    ∧ converging c'
    ∧ (env_err E (Update c') = None →
       result (Reconcile E req) = inr {| Requeue := true; RequeueAfter := 0 |}).
Proof.
  intros Hget Hdel Hp1 Hp2 Hfin.
  rewrite (Reconcile_finalizer req c Hget Hdel Hp1 Hp2 Hfin). outcome.
  eexists. split; [reflexivity |]. repeat split; try done.
  - cbn. rewrite elem_of_app. right. by apply list_elem_of_singleton.
  - by intros ->.
Qed.

(** X4: convergence is for Clusters past the three gates only: a pass that
    makes any call of the convergence procedure (a read of the policy
    block, the version query, the token, the lookup, a resource step) has
    loaded a Cluster that is not being deleted, has its phase and carries
    the finalizer. *)
Theorem convergence_only_past_the_gates req w :
  w ∈ calls (Reconcile E req) →
  stepOf w ≠ EngineStep →
  ∃ c, env_GetCluster E req = inr c ∧ converging c.
Proof.
  intros Hin Hstep.
  destruct (Reconcile_branches req)
    as [(err & _ & Hc)|(c & Hget & [Hc|[(c' & Hc)|[(c' & Hc)|(Hconv & _)]]])];
    try (by exists c);
    rewrite Hc in Hin; outcome; exfalso;
    repeat (apply elem_of_cons in Hin as [->|Hin]; [by apply Hstep |]);
    by apply elem_of_nil in Hin.
Qed.


(** X10: a rejected write ends the pass: when the API server rejects the
    status write or the write of the Cluster object, that write is the last
    call of the pass and its error is the error of the pass, whatever
    convergence returned; after a rejected status write the object is not
    written. *)
Theorem rejected_write_ends_the_pass req w werr :
  w ∈ calls (Reconcile E req) →
  isStatusUpdate w || isUpdate w = true →
  env_err E w = Some werr →
  result (Reconcile E req) = inl werr
  ∧ ∃ l, calls (Reconcile E req) = l ++ [w].
Proof.
  intros Hin Hw Herr.
  destruct (Reconcile_branches req)
    as [(err & _ & Hc)|(c & Hget & [Hc|[(c' & Hc)|[(c' & Hc)|(Hconv & Hc)]]])];
    rewrite Hc in *; clear Hc; outcome.
  - apply list_elem_of_singleton in Hin as ->. done.
  - apply elem_of_cons in Hin as [-> | Hin]; [done |].
    apply list_elem_of_singleton in Hin as ->. done.
  - apply elem_of_cons in Hin as [-> | Hin]; [done |].
    apply list_elem_of_singleton in Hin as ->. rewrite Herr.
    split; [done |]. by exists [GetCluster req].
  - apply elem_of_cons in Hin as [-> | Hin]; [done |].
    apply list_elem_of_singleton in Hin as ->. rewrite Herr.
    split; [done |]. by exists [GetCluster req].
  - apply elem_of_cons in Hin as [-> | Hin]; [done |].
    rewrite reconcileAndPersist_run in *. outcome.
    unfold statusWrite, specWrite in *.
    rewrite !elem_of_app in Hin. destruct Hin as [Hin | [Hin | Hin]].
    + exfalso. pose proof (reconcile_emits E c) as Hcalls.
      rewrite reconcileCluster_run in Hin. outcome.
      rewrite Forall_forall in Hcalls. specialize (Hcalls w Hin).
      by destruct w.
    + destruct (decide (Status c = Status (final (reconcileCluster E c))));
        [by apply elem_of_nil in Hin |].
      apply list_elem_of_singleton in Hin as ->. rewrite Herr.
      split; [done |]. exists (GetCluster req :: calls (reconcileCluster E c)).
      by rewrite app_nil_r.
    + destruct (decide (Status c = Status (final (reconcileCluster E c)))).
      * destruct (result (reconcileCluster E c)) as [rerr|[]];
          [by apply elem_of_nil in Hin |].
        destruct (decide (Spec c = Spec (final (reconcileCluster E c))));
          [by apply elem_of_nil in Hin |].
        apply list_elem_of_singleton in Hin as ->. rewrite Herr.
        split; [done |]. exists (GetCluster req :: calls (reconcileCluster E c)).
        by rewrite app_nil_l.
      * destruct (env_err E (StatusUpdate _)) as [e'|];
          [by apply elem_of_nil in Hin |].
        destruct (result (reconcileCluster E c)) as [rerr|[]];
          [by apply elem_of_nil in Hin |].
        destruct (decide (Spec c = Spec (final (reconcileCluster E c))));
          [by apply elem_of_nil in Hin |].
        apply list_elem_of_singleton in Hin as ->. rewrite Herr.
        split; [done |].
        exists (GetCluster req :: calls (reconcileCluster E c)
                ++ [StatusUpdate (final (reconcileCluster E c))]).
        cbn [app]. by rewrite <- app_assoc.
Qed.

End Gates.

Lemma missing_cluster_is_success_witness :
  calls (Reconcile (L := IPv4.lib) (R := Sample.repo) Cases.envGone Sample.key) = [GetCluster Sample.key]
  ∧ (IsNotFound (StatusError "NotFound" "clusters.k3k.io c1 not found") = true →
     result (Reconcile (L := IPv4.lib) (R := Sample.repo) Cases.envGone Sample.key) = inr emptyResult)
  ∧ (IsNotFound (StatusError "NotFound" "clusters.k3k.io c1 not found") = false →
     result (Reconcile (L := IPv4.lib) (R := Sample.repo) Cases.envGone Sample.key)
     = inl (StatusError "NotFound" "clusters.k3k.io c1 not found")).
Proof.
  apply (missing_cluster_is_success (L := IPv4.lib) (R := Sample.repo) Cases.envGone Sample.key
           (StatusError "NotFound" "clusters.k3k.io c1 not found")).
  reflexivity.
Defined.


Lemma finalizer_is_added_before_convergence_witness :
  ∃ c',
    calls (Reconcile (L := IPv4.lib) (R := Sample.repo) (Sample.env Cases.unfinalized) Sample.key)
    = [GetCluster Sample.key; Update c']
    ∧ Finalizers c' = Finalizers Cases.unfinalized ++ [clusterFinalizerName]
    ∧ Spec c' = Spec Cases.unfinalized ∧ Status c' = Status Cases.unfinalized
    ∧ converging c'
    ∧ (env_err (Sample.env Cases.unfinalized) (Update c') = None →
       result (Reconcile (L := IPv4.lib) (R := Sample.repo) (Sample.env Cases.unfinalized) Sample.key)
       = inr {| Requeue := true; RequeueAfter := 0 |}).
Proof.
  apply (finalizer_is_added_before_convergence (L := IPv4.lib) (R := Sample.repo)
           (Sample.env Cases.unfinalized) Sample.key Cases.unfinalized).
  - reflexivity.
  - reflexivity.
  - vm_compute. discriminate.
  - vm_compute. discriminate.
  - apply (bool_decide_unpack _). vm_compute. exact I.
Defined.

Lemma convergence_only_past_the_gates_witness :
  ∃ c, env_GetCluster (Sample.env (Sample.cluster "c1" SharedClusterMode)) Sample.key = inr c
       ∧ converging c.
Proof.
  apply (convergence_only_past_the_gates (L := IPv4.lib) (R := Sample.repo)
           (Sample.env (Sample.cluster "c1" SharedClusterMode)) Sample.key Token).
  - vm_compute. repeat constructor.
  - discriminate.
Defined.

Lemma rejected_write_ends_the_pass_witness :
  result (Reconcile (L := IPv4.lib) (R := Sample.repo) (Cases.envConflict (Sample.cluster "c1" SharedClusterMode)) Sample.key)
  = inl (StatusError "Conflict" "object has been modified")
  ∧ ∃ l, calls (Reconcile (L := IPv4.lib) (R := Sample.repo) (Cases.envConflict (Sample.cluster "c1" SharedClusterMode)) Sample.key)
         = l ++ [StatusUpdate
                   (final (reconcileCluster (L := IPv4.lib) (R := Sample.repo)
                             (Cases.envConflict (Sample.cluster "c1" SharedClusterMode)) (Sample.cluster "c1" SharedClusterMode)))].
Proof.
  apply (rejected_write_ends_the_pass (L := IPv4.lib) (R := Sample.repo) (Cases.envConflict (Sample.cluster "c1" SharedClusterMode)) Sample.key).
  - vm_compute. repeat constructor.
  - reflexivity.
  - reflexivity.
Defined.

(** ** What convergence writes *)

Section Writes.

Context {L : GoLib} {R : Repo} (E : Env).

(** The Cluster after [bind m k] agrees with the one after [m] on what [k]
    leaves alone. *)
Lemma final_bind_unchanged {A B X} (f : Cluster → X) (m : M A) (k : A → M B) c :
  (∀ a, keeps (unchanged f) (k a)) → f (final (bind m k c)) = f (final (m c)).
Proof.
  intros Hk. destruct (bind_cases m k c) as [(e & _ & ->)|(a & _ & ->)]; outcome; [done |].
  apply Hk.
Qed.

Lemma reconcilePolicy_final c :
  final (reconcilePolicy E c)
  = match env_GetNamespace E (Namespace c) with
    | inl _ => c
    | inr ns => with_Status (Status.set_PolicyName
                               (default "" (Labels ns !! PolicyNameLabelKey))) c
    end.
Proof.
  unfold reconcilePolicy, bind, get, call, setStatus, modify, ret, returning.
  destruct (env_GetNamespace E (Namespace c)) as [err|ns]; [done |].
  destruct (_ && _); [| done].
  destruct (env_GetVirtualClusterPolicy E _) as [err|policy]; [done |].
  by destruct (validate _ policy).
Qed.

Lemma reconcile_frame {X} (f : Cluster → X) :
  (∀ c v, f (with_Status (Status.set_PolicyName v) c) = f c) →
  (∀ c v, f (with_Status (Status.set_HostVersion v) c) = f c) →
  (∀ c v, f (with_Status (Status.set_ClusterCIDR v) c) = f c) →
  (∀ c v, f (with_Status (Status.set_ServiceCIDR v) c) = f c) →
  ignoresPorts f →
  keeps (unchanged f) (reconcile E).
Proof.
  intros H1 H2 H3 H4 H5. rewrite reconcile_blocks. pass.
  - by apply reconcilePolicy_keeps.
  - by apply reconcileHostVersion_keeps.
  - by apply reconcileFromToken_keeps.
Qed.

(** The loop over the role bindings reads and updates role bindings, and
    makes no other call. *)
Lemma bindClusterRolesLoop_calls (P : Call → Prop) cluster roles err :
  (∀ name, P (GetClusterRoleBinding name)) → (∀ b, P (UpdateBinding b)) →
  emits P (bindClusterRolesLoop E cluster roles err).
Proof.
  intros Hget Hupdate.
  revert err. induction roles as [|role roles IH]; intros err; cbn [bindClusterRolesLoop].
  - pass.
  - apply emits_bind; [| intros ?; apply IH]. unfold bindClusterRole. pass.
Qed.

(** X6: convergence writes to the status only, and there to neither the
    phase nor the conditions: the name, the namespace, the deletion
    timestamp, the finalizers and the spec of the Cluster, and the phase and
    the conditions of its status, are after [reconcile] what they were
    before, whether it succeeds or fails. *)
Theorem convergence_leaves_spec_phase_and_conditions c :
  Name (final (reconcile E c)) = Name c
  ∧ Namespace (final (reconcile E c)) = Namespace c
  ∧ DeletionTimestamp (final (reconcile E c)) = DeletionTimestamp c
  ∧ Finalizers (final (reconcile E c)) = Finalizers c
  ∧ Spec (final (reconcile E c)) = Spec c
  ∧ Status.Phase (Status (final (reconcile E c))) = Status.Phase (Status c)
  ∧ Status.Conditions (Status (final (reconcile E c))) = Status.Conditions (Status c).
Proof.
  pose proof (reconcile_frame
                (λ c, (Name c, Namespace c, DeletionTimestamp c, Finalizers c, Spec c,
                       Status.Phase (Status c), Status.Conditions (Status c)))
                (λ _ _, eq_refl) (λ _ _, eq_refl) (λ _ _, eq_refl) (λ _ _, eq_refl)
                (λ _ _, conj eq_refl eq_refl) c) as H.
  unfold unchanged in H. by simplify_eq.
Qed.

(** X7: the policy name of the status mirrors the label of the namespace:
    after [reconcile], however far it got, it is the value of the label,
    the empty string when the namespace carries none; it is what it was
    when the namespace could not be read. *)
Theorem policy_name_mirrors_namespace_label c :
  Status.PolicyName (Status (final (reconcile E c)))
  = match env_GetNamespace E (Namespace c) with
    | inl _ => Status.PolicyName (Status c)
    | inr ns => default "" (Labels ns !! PolicyNameLabelKey)
    end.
Proof.
  rewrite reconcile_blocks.
  rewrite (final_bind_unchanged (λ c, Status.PolicyName (Status c))).
  - rewrite reconcilePolicy_final. by destruct (env_GetNamespace E (Namespace c)).
  - intros _. pass.
    + by apply reconcileHostVersion_keeps.
    + by apply reconcileFromToken_keeps.
Qed.

(** X8: a pass of a Cluster past the gates never writes the Cluster object
    back, as long as [updateStatus] leaves the spec alone: the write of
    lines 210-214 is for a spec that convergence has changed, and
    convergence changes none. *)
Theorem converging_pass_never_updates_the_object req c :
  keepsSpec R →
  env_GetCluster E req = inr c → converging c →
  Forall (λ w, isUpdate w = false) (calls (Reconcile E req)).
Proof.
  intros Hkeep Hget Hconv. rewrite (Reconcile_converging E req c Hget Hconv). outcome.
  rewrite reconcileAndPersist_run. outcome.
  assert (Hspec : Spec c = Spec (final (reconcileCluster E c))).
  { rewrite reconcileCluster_run. outcome. rewrite Hkeep.
    symmetry. by apply (reconcile_frame Spec). }
  constructor; [done |].
  rewrite !Forall_app. split_and!.
  - rewrite reconcileCluster_run. outcome.
    eapply Forall_impl; [apply reconcile_emits |]. by intros [].
  - case_match; by repeat constructor.
  - rewrite decide_True by done. repeat case_match; by repeat constructor.
Qed.

End Writes.

Lemma Sample_keepsSpec : keepsSpec Sample.repo.
Proof. intros c [e|]; reflexivity. Qed.

Lemma converging_pass_never_updates_the_object_witness :
  Forall (λ w, isUpdate w = false)
    (calls (Reconcile (L := IPv4.lib) (R := Sample.repo) (Sample.env (Sample.cluster "c1" SharedClusterMode)) Sample.key)).
Proof.
  apply (converging_pass_never_updates_the_object (L := IPv4.lib) (R := Sample.repo)
           (Sample.env (Sample.cluster "c1" SharedClusterMode)) Sample.key (Sample.cluster "c1" SharedClusterMode)).
  - apply Sample_keepsSpec.
  - reflexivity.
  - apply Sample_converging.
Defined.

(** ** The network policy *)

Section NetworkPolicy.

Context {L : GoLib} {R : Repo} (E : Env).

Lemma onNetworkPolicy_step w : onNetworkPolicy w = true → stepOf w = ResourceStep.
Proof.
  destruct w; try done; match goal with o : Object |- _ => by destruct o end.
Qed.

Lemma ensureNetworkPolicy_calls c :
  calls (ensureNetworkPolicy E c)
  = [if decide (Status.PolicyName (Status c) ≠ "") then
       Delete (NetworkPolicy (SafeConcatNameWithPrefix [Name c]) (Namespace c) [])
     else
       CreateOrUpdate (NetworkPolicy (SafeConcatNameWithPrefix [Name c]) (Namespace c)
                         [Status.ClusterCIDR (Status c)])].
Proof.
  unfold ensureNetworkPolicy, bind, get, observe, call_, observe, returning, IgnoreNotFound.
  destruct (decide (Status.PolicyName (Status c) ≠ "")); cbn.
  - destruct (env_err E _) as [e|]; cbn; [by destruct (IsNotFound e) | done].
  - by destruct (env_err E _).
Qed.

(** The steps after [ensureNetworkPolicy] leave the network policy alone. *)
Lemma resources_after_networkPolicy_emits token :
  emits (λ w, onNetworkPolicy w = false)
    (serviceIP <- ensureClusterService E ;;
     createClusterConfigs E serviceIP ;;;
     server E ;;;
     ensureAgent E serviceIP token ;;;
     ensureIngress E ;;;
     ensureBootstrapSecret E serviceIP token ;;;
     ensureKubeconfigSecret E serviceIP ;;;
     bindClusterRoles E).
Proof.
  unfold ensureClusterService, createClusterConfigs, server, createIfAbsent, ensureAgent,
    ensureIngress, ensureBootstrapSecret, ensureKubeconfigSecret, bindClusterRoles.
  pass. by apply (bindClusterRolesLoop_calls E).
Qed.

Lemma lookupCalls_emits spec :
  Forall (λ w, stepOf w = ServiceCIDRStep) (lookupCalls E spec).
Proof.
  unfold lookupCalls. repeat case_match; try done. apply lookupServiceCIDR_emits.
Qed.

Lemma reconcileToToken_policyName c ns :
  env_GetNamespace E (Namespace c) = inr ns →
  Status.PolicyName (Status (final (reconcileToToken E c)))
  = default "" (Labels ns !! PolicyNameLabelKey).
Proof.
  intros Hns. unfold reconcileToToken.
  rewrite (final_bind_unchanged (λ c, Status.PolicyName (Status c))).
  - by rewrite reconcilePolicy_final, Hns.
  - intros _. pass. by apply reconcileHostVersion_keeps.
Qed.

(** X9: the network policy follows the policy binding of the namespace.
    Whatever a pass does to a network policy, it does to the one named
    after the Cluster, in the namespace of the Cluster: it deletes it when
    the namespace carries a non-empty policy label, and writes it with the
    cluster range computed from the spec as the only exception otherwise.
    A pass that gets as far as the token does so. *)
Theorem network_policy_follows_policy_binding c ns :
  env_GetNamespace E (Namespace c) = inr ns →
  (∀ w, w ∈ calls (reconcile E c) → onNetworkPolicy w = true →
        w = networkPolicyCall (default "" (Labels ns !! PolicyNameLabelKey)) c)
  ∧ (∀ token, result (reconcileToToken E c) = inr token →
       networkPolicyCall (default "" (Labels ns !! PolicyNameLabelKey)) c
       ∈ calls (reconcile E c)).
Proof.
  intros Hns.
  pose proof (reconcileToToken_policyName c ns Hns) as Hname.
  pose proof (reconcileToToken_keeps E (λ c, (Name c, Namespace c))
                (λ _ _, eq_refl) (λ _ _, eq_refl) c) as Hid.
  pose proof (reconcileToToken_emits E c) as Hpre_calls.
  destruct (reconcileToToken E c) as [[[e|token] c2] l] eqn:Hpre; outcome.
  { rewrite (reconcile_stops E c e c2 l Hpre). outcome. split; [| done].
    intros w Hw Hn. apply onNetworkPolicy_step in Hn.
    rewrite Forall_forall in Hpre_calls. specialize (Hpre_calls w Hw).
    rewrite Hn in Hpre_calls. by destruct Hpre_calls as [? | [? | ?]]. }
  destruct (reconcile_reached E c token c2 l Hpre) as [Hspec Hrun].
  unfold unchanged in Hid. injection Hid as Hn1 Hn2.
  assert (Hcall : calls (ensureNetworkPolicy E (withRanges E c2))
                  = [networkPolicyCall (default "" (Labels ns !! PolicyNameLabelKey)) c]).
  { rewrite ensureNetworkPolicy_calls. unfold networkPolicyCall. cbn.
    rewrite Hname, Hn1, Hn2, Hspec.
    destruct (decide (default "" (Labels ns !! PolicyNameLabelKey) = "")) as [Heq|Hne].
    - by rewrite decide_False by (by intros ?).
    - by rewrite decide_True by done. }
  rewrite Hrun. outcome. unfold reconcileResources.
  destruct (bind_cases (ensureNetworkPolicy E)
              (λ _, serviceIP <- ensureClusterService E ;;
                    createClusterConfigs E serviceIP ;;;
                    server E ;;;
                    ensureAgent E serviceIP token ;;;
                    ensureIngress E ;;;
                    ensureBootstrapSecret E serviceIP token ;;;
                    ensureKubeconfigSecret E serviceIP ;;;
                    bindClusterRoles E) (withRanges E c2))
    as [(e & _ & ->)|([] & _ & ->)]; outcome; rewrite Hcall.
  - split.
    + intros w Hw Hn. rewrite !elem_of_app in Hw. destruct Hw as [Hw | [Hw | Hw]].
      * apply onNetworkPolicy_step in Hn.
        rewrite Forall_forall in Hpre_calls. specialize (Hpre_calls w Hw).
        rewrite Hn in Hpre_calls. by destruct Hpre_calls as [? | [? | ?]].
      * apply onNetworkPolicy_step in Hn.
        pose proof (lookupCalls_emits (Spec c)) as Hl.
        rewrite Forall_forall in Hl. specialize (Hl w Hw). by rewrite Hn in Hl.
      * by apply list_elem_of_singleton in Hw.
    + intros _ _. rewrite !elem_of_app. right; right. by apply list_elem_of_singleton.
  - split.
    + intros w Hw Hn. rewrite !elem_of_app in Hw. destruct Hw as [Hw | [Hw | [Hw | Hw]]].
      * apply onNetworkPolicy_step in Hn.
        rewrite Forall_forall in Hpre_calls. specialize (Hpre_calls w Hw).
        rewrite Hn in Hpre_calls. by destruct Hpre_calls as [? | [? | ?]].
      * apply onNetworkPolicy_step in Hn.
        pose proof (lookupCalls_emits (Spec c)) as Hl.
        rewrite Forall_forall in Hl. specialize (Hl w Hw). by rewrite Hn in Hl.
      * by apply list_elem_of_singleton in Hw.
      * pose proof (resources_after_networkPolicy_emits token
                      (final (ensureNetworkPolicy E (withRanges E c2)))) as Hrest.
        rewrite Forall_forall in Hrest. specialize (Hrest w Hw). cbv beta in Hrest.
        by rewrite Hn in Hrest.
    + intros _ _. rewrite !elem_of_app. right; right; left. by apply list_elem_of_singleton.
Qed.

End NetworkPolicy.

Lemma network_policy_follows_policy_binding_witness :
  (∀ w, w ∈ calls (reconcile (L := IPv4.lib) (R := Sample.repo) (Sample.env (Sample.cluster "c1" SharedClusterMode)) (Sample.cluster "c1" SharedClusterMode)) →
        onNetworkPolicy w = true →
        w = networkPolicyCall (R := Sample.repo)
              (default "" (Labels Cases.unlabelled !! PolicyNameLabelKey)) (Sample.cluster "c1" SharedClusterMode))
  ∧ (∀ token,
       result (reconcileToToken (L := IPv4.lib) (Sample.env (Sample.cluster "c1" SharedClusterMode)) (Sample.cluster "c1" SharedClusterMode)) = inr token →
       networkPolicyCall (R := Sample.repo)
         (default "" (Labels Cases.unlabelled !! PolicyNameLabelKey)) (Sample.cluster "c1" SharedClusterMode)
       ∈ calls (reconcile (L := IPv4.lib) (R := Sample.repo) (Sample.env (Sample.cluster "c1" SharedClusterMode)) (Sample.cluster "c1" SharedClusterMode))).
Proof.
  apply (network_policy_follows_policy_binding (L := IPv4.lib) (R := Sample.repo) (Sample.env (Sample.cluster "c1" SharedClusterMode)) (Sample.cluster "c1" SharedClusterMode)
           Cases.unlabelled).
  reflexivity.
Defined.

(** ** The order of the calls *)

Section Order.

Context {L : GoLib} {R : Repo} (E : Env).

Lemma StronglySorted_append {A} (rel : A → A → Prop) l1 l2 :
  StronglySorted rel l1 → StronglySorted rel l2 →
  (∀ x y, x ∈ l1 → y ∈ l2 → rel x y) →
  StronglySorted rel (l1 ++ l2).
Proof.
  intros H1 H2 H. induction H1 as [|x l1 Hl1 IH Hx]; [done |].
  cbn [app]. constructor.
  - apply IH. intros x' y Hx' Hy. apply H; [by apply list_elem_of_further | done].
  - apply Forall_app. split; [done |].
    apply Forall_forall. intros y Hy. apply H; [by apply list_elem_of_here | done].
Qed.

Lemma staged_bind {A B} (lo mid hi : nat) (m : M A) (k : A → M B) :
  (lo <= mid <= hi)%nat →
  staged lo mid m → (∀ a, staged mid hi (k a)) → staged lo hi (bind m k).
Proof.
  intros Hb Hm Hk c. destruct (Hm c) as [Hs1 Hr1].
  destruct (bind_cases m k c) as [(e & _ & ->)|(a & _ & ->)]; outcome.
  - split; [done |]. eapply Forall_impl; [exact Hr1 |]. cbv beta. lia.
  - destruct (Hk a (final (m c))) as [Hs2 Hr2]. split.
    + apply StronglySorted_append; [done | done |].
      intros x y Hx Hy. rewrite Forall_forall in Hr1, Hr2.
      specialize (Hr1 x Hx). specialize (Hr2 y Hy). left. cbv beta in *. lia.
    + apply Forall_app. split; (eapply Forall_impl; [eassumption |]); cbv beta; lia.
Qed.

Lemma staged_silent {A} (lo hi : nat) (m : M A) :
  (∀ c, calls (m c) = []) → staged lo hi m.
Proof. intros H c. rewrite H. split; constructor. Qed.

Lemma staged_weaken {A} (lo hi lo' hi' : nat) (m : M A) :
  (lo' <= lo)%nat → (hi <= hi')%nat → staged lo hi m → staged lo' hi' m.
Proof.
  intros H1 H2 Hm c. destruct (Hm c) as [Hs Hr]. split; [done |].
  eapply Forall_impl; [exact Hr |]. cbv beta. lia.
Qed.

(** A step of a few calls, by its runs. *)
Ltac stage :=
  intros ?;
  unfold call_, returning, IgnoreNotFound, setStatus, bind, get, modify, call, observe,
    ret, fail, calls;
  split;
  repeat (case_match; simplify_eq/=);
  repeat match goal with
         | |- StronglySorted _ _ => constructor
         | |- Forall _ _ => constructor
         | |- before _ _ => unfold before; cbn; lia
         | |- (_ <= _ < _)%nat => cbn; lia
         end.

Lemma reconcilePolicy_staged : staged 0 2 (reconcilePolicy E).
Proof. unfold reconcilePolicy. stage. Qed.

Lemma reconcileHostVersion_staged : staged 2 3 (reconcileHostVersion E).
Proof. unfold reconcileHostVersion. stage. Qed.

Lemma lookupServiceCIDR_staged : staged 4 6 (lookupServiceCIDR E).
Proof. unfold lookupServiceCIDR, lookupFromPods. stage. Qed.

Lemma reconcileServiceCIDR_staged : staged 4 6 (reconcileServiceCIDR E).
Proof.
  intros c. rewrite reconcileServiceCIDR_result. outcome. unfold lookupCalls.
  repeat case_match; try (split; constructor). apply lookupServiceCIDR_staged.
Qed.

Lemma ensureNetworkPolicy_staged : staged 6 7 (ensureNetworkPolicy E).
Proof. unfold ensureNetworkPolicy. stage. Qed.

Lemma ensureClusterService_staged : staged 7 8 (ensureClusterService E).
Proof. unfold ensureClusterService. stage. Qed.

Lemma createClusterConfigs_staged serviceIP : staged 8 14 (createClusterConfigs E serviceIP).
Proof. unfold createClusterConfigs, createIfAbsent. stage. Qed.

Lemma server_staged : staged 14 18 (server E).
Proof. unfold server, createIfAbsent. stage. Qed.

Lemma ensureAgent_staged serviceIP token : staged 18 21 (ensureAgent E serviceIP token).
Proof. unfold ensureAgent. stage. Qed.

Lemma ensureIngress_staged : staged 21 22 (ensureIngress E).
Proof. unfold ensureIngress. stage. Qed.

Lemma ensureBootstrapSecret_staged serviceIP token :
  staged 22 24 (ensureBootstrapSecret E serviceIP token).
Proof. unfold ensureBootstrapSecret. stage. Qed.

Lemma ensureKubeconfigSecret_staged serviceIP :
  staged 24 27 (ensureKubeconfigSecret E serviceIP).
Proof. unfold ensureKubeconfigSecret. stage. Qed.

Lemma bindClusterRoles_staged : staged 27 28 (bindClusterRoles E).
Proof.
  assert (Hall : emits (λ w, phaseOf w = 27%nat) (bindClusterRoles E)).
  { unfold bindClusterRoles. pass. by apply (bindClusterRolesLoop_calls E). }
  intros c. pose proof (Hall c) as H. split.
  - induction H as [|w l Hw Hl IH]; constructor; [done |].
    eapply Forall_impl; [exact Hl |]. intros w' Hw'. right. by split.
  - eapply Forall_impl; [exact H |]. cbv beta. lia.
Qed.

(** X12: the calls of convergence are made in the order of the source,
    on every host and for every Cluster: the namespace, its policy, the
    version of the host, the token, the failing Service and the listing of
    the Pods, the network policy, the Service, the two configurations, the
    headless Service and the StatefulSet, the two ports and the agent, the
    ingress, the bootstrap Secret, the kubeconfig Secret, the role bindings.
    None of them is made twice in a pass, the reads and updates of the role
    bindings apart. *)
Theorem calls_follow_the_order_of_the_steps c :
  StronglySorted before (calls (reconcile E c)).
Proof.
  revert c. cut (staged 0 28 (reconcile E)); [intros H c; apply H |].
  unfold reconcile, reconcileResources.
  apply (staged_bind 0 2 28); [lia | apply reconcilePolicy_staged | intros _].
  apply (staged_bind 2 3 28); [lia | apply reconcileHostVersion_staged | intros _].
  apply (staged_bind 3 3 28); [lia | by apply staged_silent | intros cluster].
  apply (staged_bind 3 4 28); [lia | | intros token].
  { stage. }
  apply (staged_bind 4 4 28); [lia | | intros _].
  { apply staged_silent. intros c. by rewrite reconcileClusterCIDR_result. }
  apply (staged_bind 4 6 28); [lia | apply reconcileServiceCIDR_staged | intros _].
  apply (staged_bind 6 7 28); [lia | apply ensureNetworkPolicy_staged | intros _].
  apply (staged_bind 7 8 28); [lia | apply ensureClusterService_staged | intros serviceIP].
  apply (staged_bind 8 14 28); [lia | apply createClusterConfigs_staged | intros _].
  apply (staged_bind 14 18 28); [lia | apply server_staged | intros _].
  apply (staged_bind 18 21 28); [lia | apply ensureAgent_staged | intros _].
  apply (staged_bind 21 22 28); [lia | apply ensureIngress_staged | intros _].
  apply (staged_bind 22 24 28); [lia | apply ensureBootstrapSecret_staged | intros _].
  apply (staged_bind 24 27 28); [lia | apply ensureKubeconfigSecret_staged | intros _].
  apply bindClusterRoles_staged.
Qed.

End Order.

(** ** Failures *)

Section Failures.

Context {L : GoLib} {R : Repo} (E : Env).

Lemma failedLast_app err l1 l2 : failedLast E err l2 → failedLast E err (l1 ++ l2).
Proof.
  intros (l' & w & -> & Ha & Ht). exists (l1 ++ l'), w. by rewrite app_assoc.
Qed.

Lemma stops_bind {A B} (m : M A) (k : A → M B) :
  stopsAtFailure E m → (∀ a, stopsAtFailure E (k a)) → stopsAtFailure E (bind m k).
Proof.
  intros Hm Hk c err. destruct (bind_cases m k c) as [(e & Hr & ->)|(a & Hr & ->)]; outcome.
  - intros [= ->]. by apply Hm.
  - intros Hfail. destruct (Hk a _ err Hfail) as [H | [H | [H | H]]]; eauto.
    do 3 right. by apply failedLast_app.
Qed.

Lemma stops_total {A} (m : M A) :
  (∀ c, ∃ a, result (m c) = inr a) → stopsAtFailure E m.
Proof. intros H c err Hfail. destruct (H c) as [a Ha]. congruence. Qed.

Lemma stops_call_ what :
  answer E what = env_err E what → (∀ err, tolerated what err = false) →
  stopsAtFailure E (call_ E what).
Proof.
  intros Ha Ht c err. unfold call_, bind, observe, returning, ret, fail.
  destruct (env_err E what) as [e|] eqn:He; cbn; [| done].
  intros [= ->]. do 3 right. exists [], what. by rewrite Ha.
Qed.

Lemma stops_call {A} what (r : error + A) :
  answer E what = error_of r → (∀ err, tolerated what err = false) →
  stopsAtFailure E (call what r).
Proof.
  intros Ha Ht c err. unfold call. cbn. intros ->.
  do 3 right. exists [], what. by rewrite Ha.
Qed.

Lemma stops_delete o :
  stopsAtFailure E (err <- observe (Delete o) (env_err E (Delete o)) ;;
                    returning (IgnoreNotFound err)).
Proof.
  intros c err. unfold bind, observe, returning, IgnoreNotFound, ret, fail.
  destruct (env_err E (Delete o)) as [e|] eqn:He; cbn; [| done].
  destruct (IsNotFound e) eqn:Hn; cbn; [done |].
  intros [= ->]. do 3 right. by exists [], (Delete o).
Qed.

Lemma stops_createIfAbsent o : stopsAtFailure E (createIfAbsent E o).
Proof.
  intros c err. unfold createIfAbsent, bind, observe, ret, fail.
  destruct (env_err E (Create o)) as [e|] eqn:He; cbn; [| done].
  destruct (IsAlreadyExists e) eqn:Hn; cbn; [done |].
  intros [= ->]. do 3 right. by exists [], (Create o).
Qed.

Lemma stops_validate cluster policy : stopsAtFailure E (returning (validate cluster policy)).
Proof.
  intros c err. unfold returning. destruct (validate cluster policy) as [e|] eqn:Hv; [| done].
  cbn. intros [= ->]. left. eauto.
Qed.

Lemma stops_token cluster : stopsAtFailure E (call Token (env_token E cluster)).
Proof. intros c err. cbn. intros H. right; left. eauto. Qed.

Lemma stops_roles : stopsAtFailure E (bindClusterRoles E).
Proof. intros c err H. right; right; left. eauto. Qed.

Ltac halt :=
  repeat lazymatch goal with
  | |- stopsAtFailure _ (bind (observe (Delete _) _) _) => apply stops_delete
  | |- stopsAtFailure _ (bind _ _) => apply stops_bind; [| intros ?]
  | |- stopsAtFailure _ (createIfAbsent _ _) => apply stops_createIfAbsent
  | |- stopsAtFailure _ (bindClusterRoles _) => apply stops_roles
  | |- stopsAtFailure _ (returning (validate _ _)) => apply stops_validate
  | |- stopsAtFailure _ (call Token _) => apply stops_token
  | |- stopsAtFailure _ (call_ _ _) => apply stops_call_; [reflexivity | done]
  | |- stopsAtFailure _ (call _ _) => apply stops_call; [reflexivity | done]
  | |- stopsAtFailure _ (ret _) => apply stops_total; by eexists
  | |- stopsAtFailure _ get => apply stops_total; by eexists
  | |- stopsAtFailure _ (setStatus _) => apply stops_total; by eexists
  | |- stopsAtFailure _ (if ?x then _ else _) => destruct x
  | |- stopsAtFailure _ (match ?x with _ => _ end) => destruct x
  | |- stopsAtFailure _ (let _ := _ in _) => cbv zeta
  end.

(** X13: convergence stops at the first failure.  When [reconcile] fails,
    its error is the answer of the host to the last call it made (and not a
    not-found to a deletion or an already-exists to a creation, which are
    let pass): no call is made after a failed one.  The exceptions are the
    errors that are no answer to a call: the one of [validate], the one of
    the token, and the errors that [bindClusterRoles] has joined. *)
Theorem convergence_stops_at_the_first_failure c err :
  result (reconcile E c) = inl err →
  (∃ cluster policy, validate cluster policy = Some err)
  ∨ (∃ cluster, env_token E cluster = inl err)
  ∨ (∃ cluster, result (bindClusterRoles E cluster) = inl err)
  ∨ failedLast E err (calls (reconcile E c)).
Proof.
  revert c err. change (stopsAtFailure E (reconcile E)).
  unfold reconcile, reconcileResources. apply stops_bind; [| intros _].
  { unfold reconcilePolicy. halt. }
  apply stops_bind; [| intros _].
  { unfold reconcileHostVersion. halt. }
  apply stops_bind; [halt | intros cluster].
  apply stops_bind; [halt | intros token].
  apply stops_bind; [| intros _].
  { apply stops_total. intros c. rewrite reconcileClusterCIDR_result. by eexists. }
  apply stops_bind; [| intros _].
  { apply stops_total. intros c. rewrite reconcileServiceCIDR_result. by eexists. }
  unfold ensureNetworkPolicy, ensureClusterService, createClusterConfigs, server,
    ensureAgent, ensureIngress, ensureBootstrapSecret, ensureKubeconfigSecret.
  halt.
Qed.

Lemma faithful_bind {A B} (m : M A) (k : A → M B) :
  faithful E m → (∀ a, faithful E (k a)) → faithful E (bind m k).
Proof.
  intros Hm Hk c. specialize (Hm c).
  destruct (bind_cases m k c) as [(e & Hr & ->)|(a & Hr & ->)]; outcome; rewrite Hr in Hm.
  - done.
  - specialize (Hk a (final (m c))). destruct (result (k a (final (m c)))).
    + apply Exists_app. by right.
    + apply Forall_app. by split.
Qed.

Lemma faithful_silent {A} (m : M A) :
  (∀ c, ∃ a, result (m c) = inr a ∧ calls (m c) = []) → faithful E m.
Proof. intros H c. destruct (H c) as (a & -> & ->). constructor. Qed.

Lemma faithful_call_ what :
  answer E what = env_err E what → (∀ err, tolerated what err = false) →
  faithful E (call_ E what).
Proof.
  intros Ha Ht c. unfold call_, bind, observe, returning, ret, fail.
  destruct (env_err E what) as [e|] eqn:He; cbn.
  - apply Exists_cons_hd. unfold fine. rewrite Ha, ?He. apply Ht.
  - repeat constructor. unfold fine. by rewrite Ha, ?He.
Qed.

Lemma faithful_call {A} what (r : error + A) :
  answer E what = error_of r → (∀ err, tolerated what err = false) →
  faithful E (call what r).
Proof.
  intros Ha Ht c. unfold call. cbn. destruct r as [e|a]; cbn in *.
  - apply Exists_cons_hd. unfold fine. rewrite Ha. apply Ht.
  - repeat constructor. unfold fine. by rewrite Ha.
Qed.

Lemma faithful_delete o :
  faithful E (err <- observe (Delete o) (env_err E (Delete o)) ;;
              returning (IgnoreNotFound err)).
Proof.
  intros c. unfold bind, observe, returning, IgnoreNotFound, ret, fail.
  destruct (env_err E (Delete o)) as [e|] eqn:He; cbn.
  - destruct (IsNotFound e) eqn:Hn; cbn.
    + repeat constructor. unfold fine. cbn. by rewrite He.
    + apply Exists_cons_hd. unfold fine. cbn. by rewrite He.
  - repeat constructor. unfold fine. cbn. by rewrite He.
Qed.

Lemma faithful_createIfAbsent o : faithful E (createIfAbsent E o).
Proof.
  intros c. unfold createIfAbsent, bind, observe, ret, fail.
  destruct (env_err E (Create o)) as [e|] eqn:He; cbn.
  - destruct (IsAlreadyExists e) eqn:Hn; cbn.
    + repeat constructor. unfold fine. cbn. by rewrite He.
    + apply Exists_cons_hd. unfold fine. cbn. by rewrite He.
  - repeat constructor. unfold fine. cbn. by rewrite He.
Qed.

(** The loop over the role bindings never returns early; its joined error
    is nil when the one it started with is and every call was answered
    without an error. *)
Lemma bindClusterRolesLoop_faithful cluster roles err c :
  ∃ err', result (bindClusterRolesLoop E cluster roles err c) = inr err'
          ∧ match err' with
            | None => err = None
                      ∧ Forall (λ w, fine E w = true)
                          (calls (bindClusterRolesLoop E cluster roles err c))
            | Some _ => is_Some err
                        ∨ Exists (λ w, fine E w = false)
                            (calls (bindClusterRolesLoop E cluster roles err c))
            end.
Proof.
  revert err c. induction roles as [|role roles IH]; intros err c; cbn [bindClusterRolesLoop].
  { exists err. split; [done |]. destruct err; [by left | by split]. }
  assert (Hone : ∃ err1 c1 l1,
             bindClusterRole E cluster role err c = (inr err1, c1, l1)
             ∧ match err1 with
               | None => err = None ∧ Forall (λ w, fine E w = true) l1
               | Some _ => is_Some err ∨ Exists (λ w, fine E w = false) l1
               end).
  { unfold bindClusterRole, bind, observe, ret.
    destruct (env_GetClusterRoleBinding E role) as [getErr|b] eqn:Hget.
    - eexists _, _, _. split; [reflexivity |]. right. apply Exists_cons_hd.
      unfold fine. cbn. by rewrite Hget.
    - assert (Hfine : fine E (GetClusterRoleBinding role) = true).
      { unfold fine. cbn. by rewrite Hget. }
      destruct (bool_decide _).
      + eexists _, _, _. split; [reflexivity |].
        destruct err; [left; eauto | split; [done | by repeat constructor]].
      + destruct (env_err E (UpdateBinding _)) as [updateErr|] eqn:Hup.
        * eexists _, _, _. split; [reflexivity |]. right.
          apply Exists_cons_tl, Exists_cons_hd. unfold fine. cbn. by rewrite Hup.
        * eexists _, _, _. split; [reflexivity |].
          destruct err; [left; eauto |].
          split; [done |]. repeat constructor; [done |]. unfold fine. cbn. by rewrite Hup. }
  destruct Hone as (err1 & c1 & l1 & Hrun & H1).
  destruct (IH err1 c1) as (err' & Hres & H2).
  exists err'. rewrite (bind_inr _ _ _ _ _ _ Hrun). outcome. split; [done |].
  destruct err' as [e'|].
  - destruct H2 as [H2 | H2].
    + destruct err1 as [e1|]; [| by destruct H2].
      destruct H1 as [H1 | H1]; [by left | right; apply Exists_app; by left].
    + right. apply Exists_app. by right.
  - destruct H2 as [-> H2]. destruct H1 as [-> H1]. split; [done |].
    apply Forall_app. by split.
Qed.

Lemma faithful_roles : faithful E (bindClusterRoles E).
Proof.
  intros c. unfold bindClusterRoles, bind, get.
  destruct (bindClusterRolesLoop_faithful c ["k3k-kubelet-node"; "k3k-priorityclass"] None c)
    as (err' & Hres & H).
  destruct (bindClusterRolesLoop E c _ None c) as [[r c1] l1]. outcome. subst r.
  destruct err' as [e'|]; cbn; rewrite app_nil_r.
  - destruct H as [[? [=]] | H]. done.
  - by destruct H.
Qed.

Ltac trust :=
  repeat lazymatch goal with
  | |- faithful _ (bind (observe (Delete _) _) _) => apply faithful_delete
  | |- faithful _ (bind _ _) => apply faithful_bind; [| intros ?]
  | |- faithful _ (createIfAbsent _ _) => apply faithful_createIfAbsent
  | |- faithful _ (bindClusterRoles _) => apply faithful_roles
  | |- faithful _ (call_ _ _) => apply faithful_call_; [reflexivity | done]
  | |- faithful _ (call _ _) => apply faithful_call; [reflexivity | done]
  | |- faithful _ (ret _) => apply faithful_silent; by eexists
  | |- faithful _ get => apply faithful_silent; by eexists
  | |- faithful _ (setStatus _) => apply faithful_silent; by eexists
  | |- faithful _ (if ?x then _ else _) => destruct x
  | |- faithful _ (match ?x with _ => _ end) => destruct x
  | |- faithful _ (let _ := _ in _) => cbv zeta
  end.

Lemma reconcileResources_faithful token : faithful E (reconcileResources E token).
Proof.
  unfold reconcileResources, ensureNetworkPolicy, ensureClusterService,
    createClusterConfigs, server, ensureAgent, ensureIngress, ensureBootstrapSecret,
    ensureKubeconfigSecret.
  trust.
Qed.

(** X14: the resource steps succeed exactly when the host answered every
    call they made without an error, or with an error that is let pass: a
    not-found to the deletion of the network policy or of the ingress, an
    already-exists to the creation of a configuration or of the headless
    Service.  Any other error of any call, a role binding included, makes
    them fail. *)
Theorem resources_succeed_iff_every_call_is_fine token c :
  result (reconcileResources E token c) = inr tt
  ↔ Forall (λ w, fine E w = true) (calls (reconcileResources E token c)).
Proof.
  pose proof (reconcileResources_faithful token c) as H.
  destruct (result (reconcileResources E token c)) as [e|[]].
  - split; [done |]. intros Hall. exfalso.
    apply Exists_exists in H as (w & Hw & Hbad).
    rewrite Forall_forall in Hall. specialize (Hall w Hw). congruence.
  - done.
Qed.

End Failures.

Lemma convergence_stops_at_the_first_failure_witness :
  (∃ cluster policy,
     validate (L := IPv4.lib) cluster policy
     = Some (StatusError "Forbidden" "statefulsets.apps is forbidden"))
  ∨ (∃ cluster,
       env_token (Cases.envNoStatefulSet (Sample.cluster "c1" SharedClusterMode)) cluster
       = inl (StatusError "Forbidden" "statefulsets.apps is forbidden"))
  ∨ (∃ cluster,
       result (bindClusterRoles (R := Sample.repo) (Cases.envNoStatefulSet (Sample.cluster "c1" SharedClusterMode)) cluster)
       = inl (StatusError "Forbidden" "statefulsets.apps is forbidden"))
  ∨ failedLast (Cases.envNoStatefulSet (Sample.cluster "c1" SharedClusterMode))
      (StatusError "Forbidden" "statefulsets.apps is forbidden")
      (calls (reconcile (L := IPv4.lib) (R := Sample.repo) (Cases.envNoStatefulSet (Sample.cluster "c1" SharedClusterMode)) (Sample.cluster "c1" SharedClusterMode))).
Proof.
  apply (convergence_stops_at_the_first_failure (L := IPv4.lib) (R := Sample.repo)
           (Cases.envNoStatefulSet (Sample.cluster "c1" SharedClusterMode)) (Sample.cluster "c1" SharedClusterMode)).
  vm_compute. reflexivity.
Defined.

(** A second pass on a host where everything exists already: the creations
    are answered with already-exists, the deletions with not-found, and
    convergence succeeds. *)
Example second_pass_succeeds :
  result (reconcile (L := IPv4.lib) (R := Sample.repo) (Cases.envSecondPass (Sample.cluster "c1" SharedClusterMode)) (Sample.cluster "c1" SharedClusterMode)) = inr tt.
Proof. vm_compute. reflexivity. Qed.

(** ** The agent and its ports *)

Section AgentPorts.

Context {L : GoLib} {R : Repo} (E : Env).


End AgentPorts.

(** ** The role bindings *)

Section RoleBindings.

Context {L : GoLib} {R : Repo} (E : Env).

Lemma errors_Is_refl e : errors_Is e e = true.
Proof. destruct e; cbn; by rewrite decide_True. Qed.

Lemma errors_Is_Wrapf inner text e :
  errors_Is inner e = true → errors_Is (Wrapf inner text) e = true.
Proof. intros H. cbn. rewrite H. by destruct (decide _). Qed.

Lemma errors_Is_Join err x e :
  (∃ acc, err = Some acc ∧ errors_Is acc e = true) ∨ errors_Is x e = true →
  errors_Is (errors_Join err x) e = true.
Proof.
  intros [(acc & -> & H) | H]; [| destruct err]; cbn; rewrite H;
    destruct (decide _); try done; by rewrite ?orb_true_r.
Qed.

(** One round of the loop: the calls it makes and the error it hands on. *)
Lemma bindClusterRole_run cluster role err c :
  ∃ err' l,
    bindClusterRole E cluster role err c = (inr err', c, GetClusterRoleBinding role :: l)
    ∧ Forall (λ w, isRoleBindingRead w = false) l
    ∧ (∀ b, UpdateBinding b ∈ l →
         ∃ old, env_GetClusterRoleBinding E role = inr old
                ∧ (clusterSubject cluster ∉ Subjects old)
                ∧ Binding_Name b = Binding_Name old
                ∧ Subjects b = Subjects old ++ [clusterSubject cluster])
    ∧ (∀ e acc, err = Some acc → errors_Is acc e = true →
         ∃ acc', err' = Some acc' ∧ errors_Is acc' e = true)
    ∧ (∀ w e, w ∈ GetClusterRoleBinding role :: l → answer E w = Some e →
         ∃ acc', err' = Some acc' ∧ errors_Is acc' e = true).
Proof.
  unfold bindClusterRole, bind, observe, ret.
  destruct (env_GetClusterRoleBinding E role) as [getErr|old] eqn:Hget.
  { eexists _, []. split; [reflexivity |]. split; [done |]. split.
    { intros b Hin. by apply elem_of_nil in Hin. }
    split.
    - intros e acc -> He. eexists. split; [done |]. apply errors_Is_Join. left. eauto.
    - intros w e Hin Ha. apply list_elem_of_singleton in Hin as ->. cbn in Ha.
      rewrite Hget in Ha. cbn in Ha. simplify_eq. eexists. split; [done |].
      apply errors_Is_Join. right. apply errors_Is_Wrapf, errors_Is_refl. }
  fold (clusterSubject cluster).
  destruct (bool_decide (clusterSubject cluster ∈ Subjects old)) eqn:Hmem.
  { eexists _, []. split; [reflexivity |]. split; [done |]. split.
    { intros b Hin. by apply elem_of_nil in Hin. }
    split; [by eauto |].
    intros w e Hin Ha. apply list_elem_of_singleton in Hin as ->. cbn in Ha.
    by rewrite Hget in Ha. }
  apply bool_decide_eq_false in Hmem.
  destruct (env_err E (UpdateBinding _)) as [updateErr|] eqn:Hup.
  - eexists _, [_]. split; [reflexivity |]. split; [by repeat constructor |]. split.
    { intros b Hin. apply list_elem_of_singleton in Hin. simplify_eq. by exists old. }
    split.
    + intros e acc -> He. eexists. split; [done |]. apply errors_Is_Join. left. eauto.
    + intros w e Hin Ha. apply elem_of_cons in Hin as [-> | Hin].
      { cbn in Ha. by rewrite Hget in Ha. }
      apply list_elem_of_singleton in Hin as ->. cbn in Ha. rewrite Hup in Ha.
      simplify_eq. eexists. split; [done |].
      apply errors_Is_Join. right. apply errors_Is_Wrapf, errors_Is_refl.
  - eexists _, [_]. split; [reflexivity |]. split; [by repeat constructor |]. split.
    { intros b Hin. apply list_elem_of_singleton in Hin. simplify_eq. by exists old. }
    split; [by eauto |].
    intros w e Hin Ha. apply elem_of_cons in Hin as [-> | Hin].
    { cbn in Ha. by rewrite Hget in Ha. }
    apply list_elem_of_singleton in Hin as ->. cbn in Ha. by rewrite Hup in Ha.
Qed.

Lemma bindClusterRolesLoop_run cluster roles err c :
  ∃ err',
    result (bindClusterRolesLoop E cluster roles err c) = inr err'
    ∧ List.filter isRoleBindingRead (calls (bindClusterRolesLoop E cluster roles err c))
      = map GetClusterRoleBinding roles
    ∧ (∀ b, UpdateBinding b ∈ calls (bindClusterRolesLoop E cluster roles err c) →
         ∃ role old, role ∈ roles
                     ∧ env_GetClusterRoleBinding E role = inr old
                     ∧ (clusterSubject cluster ∉ Subjects old)
                     ∧ Binding_Name b = Binding_Name old
                     ∧ Subjects b = Subjects old ++ [clusterSubject cluster])
    ∧ (∀ e acc, err = Some acc → errors_Is acc e = true →
         ∃ acc', err' = Some acc' ∧ errors_Is acc' e = true)
    ∧ (∀ w e, w ∈ calls (bindClusterRolesLoop E cluster roles err c) →
         answer E w = Some e → ∃ acc', err' = Some acc' ∧ errors_Is acc' e = true).
Proof.
  revert err c. induction roles as [|role roles IH]; intros err c; cbn [bindClusterRolesLoop].
  { exists err. split; [done |]. split; [done |]. split.
    { intros b Hin. by apply elem_of_nil in Hin. }
    split; [by eauto |]. intros w e Hin. by apply elem_of_nil in Hin. }
  destruct (bindClusterRole_run cluster role err c)
    as (err1 & l1 & Hrun & Hreads & Hupd & Hacc & Hans).
  destruct (IH err1 c) as (err' & Hres & Hfilter & Hupd' & Hacc' & Hans').
  exists err'. rewrite (bind_inr _ _ _ _ _ _ Hrun). outcome. split; [done |]. split.
  { cbn [app List.filter isRoleBindingRead map]. rewrite List.filter_app. f_equal.
    rewrite Hfilter.
    assert (Hnone : List.filter isRoleBindingRead l1 = []).
    { clear -Hreads. induction Hreads as [|w l Hw _ IHl]; [done |].
      cbn [List.filter]. by rewrite Hw. }
    by rewrite Hnone. }
  split.
  { intros b Hin. cbn [app] in Hin. apply elem_of_cons in Hin as [Hin | Hin]; [done |].
    apply elem_of_app in Hin as [Hin | Hin].
    - destruct (Hupd b Hin) as (old & H1 & H2 & H3 & H4).
      exists role, old. split; [by apply list_elem_of_here | done].
    - destruct (Hupd' b Hin) as (role' & old & H0 & H1).
      exists role', old. split; [by apply list_elem_of_further | done]. }
  split.
  { intros e acc Herr He. destruct (Hacc e acc Herr He) as (acc1 & -> & He1). eauto. }
  intros w e Hin Ha. apply elem_of_app in Hin as [Hin | Hin].
  - destruct (Hans w e Hin Ha) as (acc1 & -> & He1). eauto.
  - eauto.
Qed.

Lemma bindClusterRoles_run c :
  bindClusterRoles E c
  = (match result (bindClusterRolesLoop E c ["k3k-kubelet-node"; "k3k-priorityclass"] None c)
     with
     | inr (Some err) => inl err
     | inr None => inr tt
     | inl err => inl err
     end, c,
     calls (bindClusterRolesLoop E c ["k3k-kubelet-node"; "k3k-priorityclass"] None c)).
Proof.
  pose proof (bindClusterRolesLoop_keeps E c ["k3k-kubelet-node"; "k3k-priorityclass"] None c)
    as Hkeep.
  unfold bindClusterRoles, bind, get, returning, ret, fail.
  destruct (bindClusterRolesLoop E c _ None c) as [[[e|[e|]] c1] l1]; outcome; subst c1;
    by rewrite ?app_nil_r.
Qed.

(** X16: every role binding is read, in the order of the list, whatever
    the host answers: the failure of a read or of an update does not keep
    [bindClusterRoles] from the next role binding. *)
Theorem role_bindings_are_both_read c :
  List.filter isRoleBindingRead (calls (bindClusterRoles E c))
  = [GetClusterRoleBinding "k3k-kubelet-node"; GetClusterRoleBinding "k3k-priorityclass"].
Proof.
  rewrite bindClusterRoles_run. outcome.
  by destruct (bindClusterRolesLoop_run c ["k3k-kubelet-node"; "k3k-priorityclass"] None c)
    as (err' & _ & -> & _).
Qed.

(** X17: a role binding is updated only to add the service account of the
    shared agent of the Cluster: the update carries the subjects that were
    read with that subject appended, and is made only when the subject is
    not among them.  A binding that has the subject is not written; one
    without duplicates is written without duplicates. *)
Theorem role_binding_update_appends_the_subject c b :
  UpdateBinding b ∈ calls (bindClusterRoles E c) →
  ∃ role old,
    role ∈ ["k3k-kubelet-node"; "k3k-priorityclass"]
    ∧ env_GetClusterRoleBinding E role = inr old
    ∧ (clusterSubject c ∉ Subjects old)
    ∧ Binding_Name b = Binding_Name old
    ∧ Subjects b = Subjects old ++ [clusterSubject c]
    ∧ (NoDup (Subjects old) → NoDup (Subjects b)).
Proof.
  rewrite bindClusterRoles_run. outcome. intros Hin.
  destruct (bindClusterRolesLoop_run c ["k3k-kubelet-node"; "k3k-priorityclass"] None c)
    as (err' & _ & _ & Hupd & _).
  destruct (Hupd b Hin) as (role & old & H0 & H1 & H2 & H3 & H4).
  exists role, old. repeat (split; [done |]).
  intros Hnd. rewrite H4. apply NoDup_app. split; [done |]. split.
  - intros x Hx Hx'. apply list_elem_of_singleton in Hx' as ->. done.
  - apply NoDup_singleton.
Qed.

(** X18: no failure of a role binding is lost: when the host answers a
    read or an update of a role binding with an error, [bindClusterRoles]
    fails, and [errors.Is] finds that error in the one it returns, also
    when a later role binding fails or succeeds. *)
Theorem role_binding_failures_are_joined c w e :
  w ∈ calls (bindClusterRoles E c) →
  answer E w = Some e →
  ∃ err, result (bindClusterRoles E c) = inl err ∧ errors_Is err e = true.
Proof.
  rewrite bindClusterRoles_run. outcome. intros Hin Ha.
  destruct (bindClusterRolesLoop_run c ["k3k-kubelet-node"; "k3k-priorityclass"] None c)
    as (err' & Hres & _ & _ & _ & Hans).
  destruct (Hans w e Hin Ha) as (acc & -> & He). rewrite Hres. eauto.
Qed.

End RoleBindings.

Lemma role_binding_update_appends_the_subject_witness :
  ∃ role old,
    role ∈ ["k3k-kubelet-node"; "k3k-priorityclass"]
    ∧ env_GetClusterRoleBinding (Sample.env (Sample.cluster "c1" SharedClusterMode)) role = inr old
    ∧ (clusterSubject (R := Sample.repo) (Sample.cluster "c1" SharedClusterMode) ∉ Subjects old)
    ∧ Binding_Name {| Binding_Name := "k3k-kubelet-node";
                      Subjects := [clusterSubject (R := Sample.repo) (Sample.cluster "c1" SharedClusterMode)] |}
      = Binding_Name old
    ∧ Subjects {| Binding_Name := "k3k-kubelet-node";
                  Subjects := [clusterSubject (R := Sample.repo) (Sample.cluster "c1" SharedClusterMode)] |}
      = Subjects old ++ [clusterSubject (R := Sample.repo) (Sample.cluster "c1" SharedClusterMode)]
    ∧ (NoDup (Subjects old) →
       NoDup (Subjects {| Binding_Name := "k3k-kubelet-node";
                          Subjects := [clusterSubject (R := Sample.repo) (Sample.cluster "c1" SharedClusterMode)] |})).
Proof.
  apply (role_binding_update_appends_the_subject (R := Sample.repo)
           (Sample.env (Sample.cluster "c1" SharedClusterMode)) (Sample.cluster "c1" SharedClusterMode)).
  vm_compute. repeat constructor.
Defined.

Lemma role_binding_failures_are_joined_witness :
  ∃ err,
    result (bindClusterRoles (R := Sample.repo) (Cases.envNoKubeletRole (Sample.cluster "c1" SharedClusterMode)) (Sample.cluster "c1" SharedClusterMode))
    = inl err
    ∧ errors_Is err (StatusError "NotFound" "clusterrolebinding not found") = true.
Proof.
  apply (role_binding_failures_are_joined (R := Sample.repo)
           (Cases.envNoKubeletRole (Sample.cluster "c1" SharedClusterMode)) (Sample.cluster "c1" SharedClusterMode)
           (GetClusterRoleBinding "k3k-kubelet-node")).
  - vm_compute. repeat constructor.
  - reflexivity.
Defined.

(** ** The watch on the namespaces *)

Section NamespaceWatch.

Context {L : GoLib} {R : Repo} (E : Env).

Lemma reconcilePolicy_same_label oldNs newNs c :
  default "" (Labels oldNs !! PolicyNameLabelKey)
  = default "" (Labels newNs !! PolicyNameLabelKey) →
  reconcilePolicy (withNamespace oldNs E) c = reconcilePolicy (withNamespace newNs E) c.
Proof.
  intros Heq. unfold reconcilePolicy, bind, get, call, setStatus, modify, ret. cbn.
  rewrite <- Heq.
  destruct (Labels oldNs !! PolicyNameLabelKey) as [o|] eqn:Ho;
    destruct (Labels newNs !! PolicyNameLabelKey) as [n|] eqn:Hn; cbn in *; subst;
    done.
Qed.

Lemma reconcile_policyName_of ns c :
  Status.PolicyName (Status (final (reconcile (withNamespace ns E) c)))
  = default "" (Labels ns !! PolicyNameLabelKey).
Proof.
  rewrite reconcile_blocks.
  rewrite (final_bind_unchanged (λ c, Status.PolicyName (Status c))).
  - by rewrite reconcilePolicy_final.
  - intros _. pass.
    + by apply reconcileHostVersion_keeps.
    + by apply reconcileFromToken_keeps.
Qed.

(** X19: an update of a namespace enqueues the Clusters whose pass it
    changes, and no other.  When the value of the policy label is the same
    before and after (a missing label counts as the empty one), nothing is
    enqueued, and the policy block of every Cluster does on the new
    namespace what it does on the old one.  When the value differs, every
    Cluster listed in the namespace is enqueued once, under its own
    namespace and name, and the policy name that a pass records for it is
    another one than before. *)
Theorem namespace_update_enqueues_what_changes listClusters oldNs newNs items :
  listClusters (Namespace_Name oldNs) = inr items →
  (UpdateFunc listClusters (NamespaceObject oldNs) (NamespaceObject newNs) = []
   ∧ ∀ c, reconcilePolicy (withNamespace oldNs E) c
          = reconcilePolicy (withNamespace newNs E) c)
  ∨ (UpdateFunc listClusters (NamespaceObject oldNs) (NamespaceObject newNs)
     = map (λ c, {| Key_Namespace := Namespace c; Key_Name := Name c |}) items
     ∧ ∀ c, Status.PolicyName (Status (final (reconcile (withNamespace newNs E) c)))
            ≠ Status.PolicyName (Status (final (reconcile (withNamespace oldNs E) c)))).
Proof.
  intros Hlist. unfold UpdateFunc. rewrite Hlist.
  destruct (decide (default "" (Labels oldNs !! PolicyNameLabelKey)
                    = default "" (Labels newNs !! PolicyNameLabelKey))) as [Heq|Hne].
  - left. split; [done |]. intros c. by apply reconcilePolicy_same_label.
  - right. split; [done |]. intros c.
    rewrite !reconcile_policyName_of. congruence.
Qed.

End NamespaceWatch.

Lemma namespace_update_enqueues_what_changes_witness :
  (UpdateFunc Cases.listTwo (NamespaceObject Cases.unlabelled) (NamespaceObject Cases.bound)
   = []
   ∧ ∀ c, reconcilePolicy (L := IPv4.lib) (withNamespace Cases.unlabelled (Sample.env (Sample.cluster "c1" SharedClusterMode))) c
          = reconcilePolicy (L := IPv4.lib) (withNamespace Cases.bound (Sample.env (Sample.cluster "c1" SharedClusterMode))) c)
  ∨ (UpdateFunc Cases.listTwo (NamespaceObject Cases.unlabelled) (NamespaceObject Cases.bound)
     = map (λ c, {| Key_Namespace := Namespace c; Key_Name := Name c |})
         [Sample.cluster "c1" SharedClusterMode; Sample.cluster "c2" VirtualClusterMode]
     ∧ ∀ c, Status.PolicyName
              (Status (final (reconcile (L := IPv4.lib) (R := Sample.repo)
                                (withNamespace Cases.bound (Sample.env (Sample.cluster "c1" SharedClusterMode))) c)))
            ≠ Status.PolicyName
                (Status (final (reconcile (L := IPv4.lib) (R := Sample.repo)
                                  (withNamespace Cases.unlabelled (Sample.env (Sample.cluster "c1" SharedClusterMode))) c)))).
Proof.
  apply (namespace_update_enqueues_what_changes (L := IPv4.lib) (R := Sample.repo) (Sample.env (Sample.cluster "c1" SharedClusterMode))
           Cases.listTwo Cases.unlabelled Cases.bound).
  reflexivity.
Defined.

(** ** From creation to convergence *)

Section Passes.

Context {L : GoLib} {R : Repo}.


End Passes.


(** ** The probe of the service range *)

Section Probe.

Context {L : GoLib} {R : Repo} (E : Env).

Lemma lookupServiceCIDR_pods c w :
  w ∈ calls (lookupServiceCIDR E c) →
  w = Create FailingService
  ∨ (w = ListPods NamespaceSystem
           [("component", "kube-apiserver"); ("tier", "control-plane")]
     ∧ rangeHintOf E = None).
Proof.
  unfold lookupServiceCIDR, rangeHintOf, bind, observe.
  assert (Hpods : ∀ c', calls (lookupFromPods E c')
                        = [ListPods NamespaceSystem
                             [("component", "kube-apiserver"); ("tier", "control-plane")]]).
  { intros c'. unfold lookupFromPods, bind, observe, ret, fail.
    repeat case_match; by simplify_eq/=. }
  destruct (env_err E (Create FailingService)) as [err|].
  - destruct (decide (1 < length (Split (Error err) rangeHint))%nat) as [Hlen|Hlen].
    + intros Hin. left. unfold ret, fail in Hin.
      destruct (ParseCIDR _) in Hin; cbn in Hin; by apply list_elem_of_singleton in Hin.
    + specialize (Hpods c). destruct (lookupFromPods E c) as [[r c'] l]. outcome. subst l.
      cbn [app]. intros Hin. apply elem_of_cons in Hin as [-> | Hin]; [by left |].
      apply list_elem_of_singleton in Hin as ->. right. split; [done |].
      apply lookup_ge_None. lia.
  - specialize (Hpods c). destruct (lookupFromPods E c) as [[r c'] l]. outcome. subst l.
    cbn [app]. intros Hin. apply elem_of_cons in Hin as [-> | Hin]; [by left |].
    apply list_elem_of_singleton in Hin as ->. by right.
Qed.

(** X20: the host is probed for its service range only for a Cluster in
    shared mode whose spec names no service range: no other Cluster has the
    failing Service created or the Pods of the API server listed.  The Pods
    are listed only when the rejection of the Service carries no range
    hint. *)
Theorem service_range_is_probed_only_in_shared_mode c w :
  w ∈ calls (reconcile E c) →
  stepOf w = ServiceCIDRStep →
  Spec.Mode (Spec c) = SharedClusterMode
  ∧ Spec.ServiceCIDR (Spec c) = ""
  ∧ (w = Create FailingService
     ∨ (w = ListPods NamespaceSystem
             [("component", "kube-apiserver"); ("tier", "control-plane")]
        ∧ rangeHintOf E = None)).
Proof.
  intros Hin Hstep.
  pose proof (reconcileToToken_emits E c) as Hpre_calls.
  destruct (reconcileToToken E c) as [[[e|token] c2] l] eqn:Hpre; outcome.
  { rewrite (reconcile_stops E c e c2 l Hpre) in Hin. outcome.
    rewrite Forall_forall in Hpre_calls. specialize (Hpre_calls w Hin).
    rewrite Hstep in Hpre_calls. by destruct Hpre_calls as [? | [? | ?]]. }
  destruct (reconcile_reached E c token c2 l Hpre) as [_ Hrun].
  rewrite Hrun in Hin. outcome. rewrite !elem_of_app in Hin.
  destruct Hin as [Hin | [Hin | Hin]].
  - rewrite Forall_forall in Hpre_calls. specialize (Hpre_calls w Hin).
    rewrite Hstep in Hpre_calls. by destruct Hpre_calls as [? | [? | ?]].
  - unfold lookupCalls in Hin.
    destruct (decide (Spec.ServiceCIDR (Spec c) = "")); [| by apply elem_of_nil in Hin].
    destruct (decide (Spec.Mode (Spec c) = SharedClusterMode));
      [| by apply elem_of_nil in Hin].
    split; [done |]. split; [done |]. by apply (lookupServiceCIDR_pods zeroCluster).
  - pose proof (reconcileResources_emits E token (withRanges E c2)) as Hres.
    rewrite Forall_forall in Hres. specialize (Hres w Hin). cbv beta in Hres. congruence.
Qed.

End Probe.

Lemma service_range_is_probed_only_in_shared_mode_witness :
  Spec.Mode (Spec (Sample.cluster "c1" SharedClusterMode)) = SharedClusterMode
  ∧ Spec.ServiceCIDR (Spec (Sample.cluster "c1" SharedClusterMode)) = ""
  ∧ (Create FailingService = Create FailingService
     ∨ (Create FailingService
        = ListPods NamespaceSystem
            [("component", "kube-apiserver"); ("tier", "control-plane")]
        ∧ rangeHintOf (Sample.env (Sample.cluster "c1" SharedClusterMode)) = None)).
Proof.
  apply (service_range_is_probed_only_in_shared_mode (L := IPv4.lib) (R := Sample.repo) (Sample.env (Sample.cluster "c1" SharedClusterMode)) (Sample.cluster "c1" SharedClusterMode)).
  - vm_compute. repeat constructor.
  - reflexivity.
Defined.
